(** * rvcpp: a shallow embedding of the RV32IMAC interpreter

    The development follows the C++ sources:
    - [rv_types.h]   : fixed-width aliases and the bit-range macros;
    - [rv_csr.h], [rv_csr.cpp] : the CSR file, privilege and trap engine;
    - [mem.h]        : the polymorphic bus ([MemBase32], [FlatMem32], [MemMap32]);
    - [rv_core.h]    : the hart, its RAM window and the Sv32 walker;
    - [rv_core.cpp]  : immediate decoders and [RVCore::step].

    A [ux_t] is a [Z] in the range [0, 2^32); every C++ operation that can
    leave that range is followed by an explicit [wrap32].  A
    [std::optional<T>] is an [option].  Mutation of [*this] is explicit
    state passing. *)

From Stdlib Require Import ZArith Lia List Bool.
From stdpp Require Import base list.
From coqutil Require Import Datatypes.RecordSetters Z.bitblast.
Import ListNotations.
Import DoubleBraceUpdate.
Local Open Scope Z_scope.

(** ** rv_types.h *)

Definition XLEN : Z := 32.

(** Truncation to [uint32_t] and to [uint64_t]. *)
Definition wrap32 (x : Z) : Z := x mod 2 ^ 32.
Definition wrap64 (x : Z) : Z := x mod 2 ^ 64.

(** [(sx_t)x]: the two's complement reading of a 32-bit pattern. *)
Definition sx_t (x : Z) : Z := if x <? 2 ^ 31 then x else x - 2 ^ 32.

(** Unsigned 32-bit operators of C++. *)
Definition not32 (x : Z) : Z := wrap32 (Z.lnot x).
Definition neg32 (x : Z) : Z := wrap32 (- x).
Definition add32 (x y : Z) : Z := wrap32 (x + y).
Definition sub32 (x y : Z) : Z := wrap32 (x - y).
Definition shl32 (x n : Z) : Z := wrap32 (Z.shiftl x n).
Definition shr32 (x n : Z) : Z := Z.shiftr x n.
(** [(sx_t)x >> n], converted back to [ux_t]. *)
Definition sra32 (x n : Z) : Z := wrap32 (Z.shiftr (sx_t x) n).

(** C++ truth value of an integer, and the integer value of a [bool]. *)
Definition nz (x : Z) : bool := negb (x =? 0).
Definition b2z (b : bool) : Z := if b then 1 else 0.

(** [#define BITS_UPTO(msb) (~((-1u << (msb)) << 1))] *)
Definition BITS_UPTO (msb : Z) : Z := not32 (shl32 (shl32 0xffffffff msb) 1).
(** [#define BITRANGE(msb, lsb) (BITS_UPTO((msb) - (lsb)) << (lsb))] *)
Definition BITRANGE (msb lsb : Z) : Z := shl32 (BITS_UPTO (msb - lsb)) lsb.
(** [#define GETBITS(x, msb, lsb) (((x) & BITRANGE(msb, lsb)) >> (lsb))] *)
Definition GETBITS (x msb lsb : Z) : Z := shr32 (Z.land x (BITRANGE msb lsb)) lsb.
(** [#define GETBIT(x, bit) (((x) >> (bit)) & 1u)] *)
Definition GETBIT (x bit : Z) : Z := Z.land (shr32 x bit) 1.

(** ** encoding/rv_csr.h *)

(** Modelled from the spec: the header [encoding/rv_csr.h] is not among the
    sources.  Privilege levels are those of the glossary (U=0, S=1, M=3). *)
Definition PRV_U : Z := 0.
Definition PRV_S : Z := 1.
Definition PRV_M : Z := 3.

(** Modelled from the spec: status bits at their RISC-V positions; the
    sources fix MPP at bits 12:11 and SPP at bit 8 ([priv << 11],
    [priv << 8], [GETBITS(xstatus, 12, 11)], [GETBIT(xstatus, 8)]). *)
Definition MSTATUS_MIE  : Z := 0x00000008.
Definition MSTATUS_MPIE : Z := 0x00000080.
Definition MSTATUS_MPP  : Z := 0x00001800.
Definition MSTATUS_MPRV : Z := 0x00020000.
Definition MSTATUS_TVM  : Z := 0x00100000.
Definition MSTATUS_TW   : Z := 0x00200000.
Definition MSTATUS_TSR  : Z := 0x00400000.
Definition SSTATUS_SIE  : Z := 0x00000002.
Definition SSTATUS_SPIE : Z := 0x00000020.
Definition SSTATUS_SPP  : Z := 0x00000100.
Definition SSTATUS_SUM  : Z := 0x00040000.
Definition SSTATUS_MXR  : Z := 0x00080000.

(** Modelled from the spec: interrupt-pending bits, one per interrupt cause
    of section 6 (1 SSI, 3 MSI, 5 STI, 7 MTI, 9 SEI, 11 MEI). *)
Definition MIP_SSIP : Z := 0x002.
Definition MIP_MSIP : Z := 0x008.
Definition MIP_STIP : Z := 0x020.
Definition MIP_MTIP : Z := 0x080.
Definition MIP_SEIP : Z := 0x200.
Definition MIP_MEIP : Z := 0x800.

(** Modelled from the spec: Sv32 page-table-entry flags and the fields of
    [satp] (MODE is the top bit, PPN the low 22 bits, ASID in between). *)
Definition PTE_V : Z := 0x01.
Definition PTE_R : Z := 0x02.
Definition PTE_W : Z := 0x04.
Definition PTE_X : Z := 0x08.
Definition PTE_U : Z := 0x10.
Definition PTE_G : Z := 0x20.
Definition PTE_A : Z := 0x40.
Definition PTE_D : Z := 0x80.
Definition SATP32_MODE : Z := 0x80000000.
Definition SATP32_ASID : Z := 0x7fc00000.
Definition SATP32_PPN  : Z := 0x003fffff.

(** Modelled from the spec: the cause codes of section 6. *)
Definition XCAUSE_INSTR_ALIGN     : Z := 0.
Definition XCAUSE_INSTR_FAULT     : Z := 1.
Definition XCAUSE_INSTR_ILLEGAL   : Z := 2.
Definition XCAUSE_EBREAK          : Z := 3.
Definition XCAUSE_LOAD_ALIGN      : Z := 4.
Definition XCAUSE_LOAD_FAULT      : Z := 5.
Definition XCAUSE_STORE_ALIGN     : Z := 6.
Definition XCAUSE_STORE_FAULT     : Z := 7.
Definition XCAUSE_ECALL_U         : Z := 8.
Definition XCAUSE_ECALL_S         : Z := 9.
Definition XCAUSE_ECALL_M         : Z := 11.
Definition XCAUSE_INSTR_PAGEFAULT : Z := 12.
Definition XCAUSE_LOAD_PAGEFAULT  : Z := 13.
Definition XCAUSE_STORE_PAGEFAULT : Z := 15.

(** Modelled from the spec: the CSR numbers of [encoding/rv_csr.h], which is
    not among the sources; one constructor per [case] label of
    [RVCSR::read] and [RVCSR::write], at its RISC-V address. *)
Inductive csr_name : Type :=
| CSR_MISA | CSR_MHARTID | CSR_MARCHID | CSR_MIMPID | CSR_MVENDORID
| CSR_MSTATUS | CSR_MIE | CSR_MIP | CSR_MTVEC | CSR_MSCRATCH | CSR_MEPC
| CSR_MCAUSE | CSR_MTVAL | CSR_MEDELEG | CSR_MIDELEG
| CSR_MCOUNTEREN | CSR_MCYCLE | CSR_MCYCLEH | CSR_MINSTRET | CSR_MINSTRETH
| CSR_SSTATUS | CSR_SIE | CSR_SIP | CSR_STVEC | CSR_SCOUNTEREN | CSR_SSCRATCH
| CSR_SEPC | CSR_SCAUSE | CSR_STVAL | CSR_SATP
| CSR_CYCLE | CSR_CYCLEH | CSR_INSTRET | CSR_INSTRETH.

Definition csr_addr (n : csr_name) : Z :=
  match n with
  | CSR_MISA => 0x301 | CSR_MHARTID => 0xf14 | CSR_MARCHID => 0xf12
  | CSR_MIMPID => 0xf13 | CSR_MVENDORID => 0xf11
  | CSR_MSTATUS => 0x300 | CSR_MIE => 0x304 | CSR_MIP => 0x344
  | CSR_MTVEC => 0x305 | CSR_MSCRATCH => 0x340 | CSR_MEPC => 0x341
  | CSR_MCAUSE => 0x342 | CSR_MTVAL => 0x343 | CSR_MEDELEG => 0x302
  | CSR_MIDELEG => 0x303
  | CSR_MCOUNTEREN => 0x306 | CSR_MCYCLE => 0xb00 | CSR_MCYCLEH => 0xb80
  | CSR_MINSTRET => 0xb02 | CSR_MINSTRETH => 0xb82
  | CSR_SSTATUS => 0x100 | CSR_SIE => 0x104 | CSR_SIP => 0x144
  | CSR_STVEC => 0x105 | CSR_SCOUNTEREN => 0x106 | CSR_SSCRATCH => 0x140
  | CSR_SEPC => 0x141 | CSR_SCAUSE => 0x142 | CSR_STVAL => 0x143
  | CSR_SATP => 0x180
  | CSR_CYCLE => 0xc00 | CSR_CYCLEH => 0xc80 | CSR_INSTRET => 0xc02
  | CSR_INSTRETH => 0xc82
  end.

Definition all_csr_names : list csr_name :=
  [ CSR_MISA; CSR_MHARTID; CSR_MARCHID; CSR_MIMPID; CSR_MVENDORID;
    CSR_MSTATUS; CSR_MIE; CSR_MIP; CSR_MTVEC; CSR_MSCRATCH; CSR_MEPC;
    CSR_MCAUSE; CSR_MTVAL; CSR_MEDELEG; CSR_MIDELEG;
    CSR_MCOUNTEREN; CSR_MCYCLE; CSR_MCYCLEH; CSR_MINSTRET; CSR_MINSTRETH;
    CSR_SSTATUS; CSR_SIE; CSR_SIP; CSR_STVEC; CSR_SCOUNTEREN; CSR_SSCRATCH;
    CSR_SEPC; CSR_SCAUSE; CSR_STVAL; CSR_SATP;
    CSR_CYCLE; CSR_CYCLEH; CSR_INSTRET; CSR_INSTRETH ].

(** The [switch (addr)] of [read] and [write]: the label whose value is
    [addr], or [None] for the [default] branch. *)
Definition csr_decode (addr : Z) : option csr_name :=
  List.find (fun n => csr_addr n =? addr) all_csr_names.

(** ** rv_csr.h: [class RVCSR] *)

Record RVCSR : Type := mkRVCSR {
  (* Current core privilege level (M/S/U) *)
  priv : Z;
  (* Latched IRQ signals into core *)
  irq_t : bool;
  irq_s : bool;
  irq_e : bool;
  (* Machine trap handling *)
  xstatus : Z;
  xie : Z;
  xip : Z;
  mtvec : Z;
  mtval : Z;
  mscratch : Z;
  mepc : Z;
  mcause : Z;
  medeleg : Z;
  mideleg : Z;
  (* Machine counter *)
  mcounteren : Z;
  mcycle : Z;
  mcycleh : Z;
  minstret : Z;
  minstreth : Z;
  (* Supervisor trap handling (mstatus/sstatus are views of xstatus) *)
  stvec : Z;
  stval : Z;
  scounteren : Z;
  sscratch : Z;
  sepc : Z;
  scause : Z;
  satp : Z
}.

(** The three write operations of [RVCSR::write]. *)
Definition WRITE : Z := 0.
Definition WRITE_SET : Z := 1.
Definition WRITE_CLEAR : Z := 2.

Module RVCSR.

(** The constructor [RVCSR()].  The IRQ latches are not initialised by the
    constructor; the reset state takes them deasserted. *)
Definition reset : RVCSR :=
  {| priv := 3; irq_t := false; irq_s := false; irq_e := false;
     xstatus := 0; xie := 0; xip := 0; mtvec := 0; mtval := 0; mscratch := 0;
     mepc := 0; mcause := 0; medeleg := 0; mideleg := 0;
     mcounteren := 0; mcycle := 0; mcycleh := 0; minstret := 0; minstreth := 0;
     stvec := 0; stval := 0; scounteren := 0; sscratch := 0; sepc := 0;
     scause := 0; satp := 0 |}.

Definition get_effective_xip (c : RVCSR) : Z :=
  Z.lor (Z.lor (Z.lor (xip c)
    (if irq_s c then Z.lor MIP_MSIP MIP_SSIP else 0))
    (if irq_t c then Z.lor MIP_MTIP MIP_STIP else 0))
    (if irq_e c then Z.lor MIP_MEIP MIP_SEIP else 0).

Definition get_true_priv (c : RVCSR) : Z := priv c.

(** [assert(priv == PRV_M)] under MPRV is not a state change; the model
    keeps the value the function returns. *)
Definition get_effective_priv_ls (c : RVCSR) : Z :=
  if nz (Z.land (xstatus c) MSTATUS_MPRV) then GETBITS (xstatus c) 12 11
  else priv c.

Definition translation_enabled_fetch (c : RVCSR) : bool :=
  negb (get_true_priv c =? PRV_M) && nz (Z.land (satp c) SATP32_MODE).

Definition translation_enabled_ls (c : RVCSR) : bool :=
  negb (get_effective_priv_ls c =? PRV_M) && nz (Z.land (satp c) SATP32_MODE).

Definition get_atp (c : RVCSR) : Z := shl32 (Z.land (satp c) SATP32_PPN) 12.

Definition permit_sfence_vma (c : RVCSR) : bool :=
  ((priv c =? PRV_S) && negb (nz (Z.land (xstatus c) MSTATUS_TVM)))
  || (priv c =? PRV_M).

Definition pte_permissions_ok (c : RVCSR) (pte required_permissions : Z) : bool :=
  (* If it requires X permission, we can assume it's an instruction fetch *)
  let effective_priv :=
    if nz (Z.land required_permissions PTE_X) then get_true_priv c
    else get_effective_priv_ls c in
  (* Bad S access to U: *)
  if nz (Z.land pte PTE_U) && (effective_priv =? PRV_S)
     && negb (nz (Z.land (xstatus c) SSTATUS_SUM)) then false
  (* Any U access to S: *)
  else if negb (nz (Z.land pte PTE_U)) && (effective_priv =? PRV_U) then false
  else
    (* Permission fail: *)
    let permissions := Z.land pte (Z.lor (Z.lor PTE_R PTE_W) PTE_X) in
    let permissions :=
      if nz (Z.land (xstatus c) SSTATUS_MXR) && nz (Z.land permissions PTE_X)
      then Z.lor permissions PTE_R else permissions in
    if nz (Z.land (not32 permissions) required_permissions) then false
    (* Nothing to complain about *)
    else true.

Definition set_irq_t (irq : bool) (c : RVCSR) : RVCSR := c {{ irq_t := irq }}.
Definition set_irq_s (irq : bool) (c : RVCSR) : RVCSR := c {{ irq_s := irq }}.
Definition set_irq_e (irq : bool) (c : RVCSR) : RVCSR := c {{ irq_e := irq }}.

Definition get_xcause (c : RVCSR) : Z :=
  if priv c =? PRV_M then mcause c else scause c.

(** ** rv_csr.cpp *)

Definition step_counters (c : RVCSR) : RVCSR :=
  let mcycle_next := wrap64 (wrap64 (Z.shiftl (mcycleh c) 32) + mcycle c + 1) in
  let c := c {{ mcycle := Z.land mcycle_next 0xffffffff }} in
  let c := c {{ mcycleh := Z.shiftr mcycle_next 32 }} in
  let minstret_next := wrap64 (wrap64 (Z.shiftl (minstreth c) 32) + minstret c + 1) in
  let c := c {{ minstret := Z.land minstret_next 0xffffffff }} in
  let c := c {{ minstreth := Z.shiftr minstret_next 32 }} in
  c.

Definition SSTATUS_MASK : Z :=
  Z.lor (Z.lor (Z.lor (Z.lor SSTATUS_SIE SSTATUS_SPIE) SSTATUS_SPP) SSTATUS_SUM)
        SSTATUS_MXR.

Definition MSTATUS_MASK : Z :=
  Z.lor (Z.lor (Z.lor (Z.lor (Z.lor (Z.lor (Z.lor SSTATUS_MASK
    MSTATUS_MIE) MSTATUS_MPIE) MSTATUS_MPP) MSTATUS_MPRV) MSTATUS_TVM)
    MSTATUS_TW) MSTATUS_TSR.

Definition SIP_MASK : Z := Z.lor (Z.lor MIP_SSIP MIP_STIP) MIP_SEIP.

Definition ALL_MIP_BITS : Z :=
  Z.lor (Z.lor (Z.lor SIP_MASK MIP_MSIP) MIP_MTIP) MIP_MEIP.

Definition MIP_R_MASK : Z := ALL_MIP_BITS.
Definition MIP_W_MASK : Z := SIP_MASK.
Definition MIE_R_MASK : Z := ALL_MIP_BITS.
Definition MIE_W_MASK : Z := ALL_MIP_BITS.

(** Returns None on permission/decode fail.  The [side_effect] argument is
    unused by the source. *)
Definition read (c : RVCSR) (addr : Z) : option Z :=
  (* Minimum privilege check *)
  if (shl32 1 12 <=? addr) || (priv c <? GETBITS addr 9 8) then None else
  (* Additional privilege checks *)
  let permit_cycle :=
    ((PRV_M <=? priv c) || nz (Z.land (mcounteren c) 0x1)) &&
    ((PRV_S <=? priv c) || nz (Z.land (scounteren c) 0x1)) in
  let permit_instret :=
    ((PRV_M <=? priv c) || nz (Z.land (mcounteren c) 0x4)) &&
    ((PRV_S <=? priv c) || nz (Z.land (scounteren c) 0x4)) in
  let permit_satp := (PRV_M <=? priv c) || negb (nz (Z.land (xstatus c) MSTATUS_TVM)) in
  match csr_decode addr with
  (* Machine ID *)
  | Some CSR_MISA       => Some 0x40101105 (* RV32IMAC + U *)
  | Some CSR_MHARTID    => Some 0
  | Some CSR_MARCHID    => Some 0
  | Some CSR_MIMPID     => Some 0
  | Some CSR_MVENDORID  => Some 0
  (* Machine trap handling *)
  | Some CSR_MSTATUS    => Some (Z.land (xstatus c) MSTATUS_MASK)
  | Some CSR_MIE        => Some (Z.land (xie c) MIE_R_MASK)
  | Some CSR_MIP        => Some (Z.land (get_effective_xip c) MIP_R_MASK)
  | Some CSR_MTVEC      => Some (mtvec c)
  | Some CSR_MSCRATCH   => Some (mscratch c)
  | Some CSR_MEPC       => Some (mepc c)
  | Some CSR_MCAUSE     => Some (mcause c)
  | Some CSR_MTVAL      => Some (mtval c)
  | Some CSR_MEDELEG    => Some (medeleg c)
  | Some CSR_MIDELEG    => Some (mideleg c)
  (* Machine counter *)
  | Some CSR_MCOUNTEREN => Some (mcounteren c)
  | Some CSR_MCYCLE     => Some (mcycle c)
  | Some CSR_MCYCLEH    => Some (mcycleh c)
  | Some CSR_MINSTRET   => Some (minstreth c)
  | Some CSR_MINSTRETH  => Some (minstreth c)
  (* Supervisor trap handling *)
  | Some CSR_SSTATUS    => Some (Z.land (xstatus c) SSTATUS_MASK)
  | Some CSR_SIE        => Some (Z.land (xie c) SIP_MASK)
  | Some CSR_SIP        => Some (Z.land (Z.land (get_effective_xip c) SIP_MASK) (mideleg c))
  | Some CSR_STVEC      => Some (stvec c)
  | Some CSR_SCOUNTEREN => Some (scounteren c)
  | Some CSR_SSCRATCH   => Some (sscratch c)
  | Some CSR_SEPC       => Some (sepc c)
  | Some CSR_SCAUSE     => Some (scause c)
  | Some CSR_STVAL      => Some (stval c)
  | Some CSR_SATP       => if permit_satp then Some (satp c) else None
  (* Unprivileged *)
  | Some CSR_CYCLE      => if permit_cycle then Some (mcycle c) else None
  | Some CSR_CYCLEH     => if permit_cycle then Some (mcycleh c) else None
  | Some CSR_INSTRET    => if permit_instret then Some (minstreth c) else None
  | Some CSR_INSTRETH   => if permit_instret then Some (minstreth c) else None
  | None                => None
  end.

(** Returns false on permission/decode fail: [None] is [false], and then
    no field has been assigned; [Some c'] is [true] with the state after
    the assignment. *)
Definition write (c : RVCSR) (addr data op : Z) : option RVCSR :=
  (* Check minimum privilege + !RO *)
  if (shl32 1 12 <=? addr) || (priv c <? GETBITS addr 9 8)
     || (GETBITS addr 11 10 =? 0x3) then None else
  (* Apply read-modify-write behaviour *)
  let rmw : option Z :=
    if (op =? WRITE_CLEAR) || (op =? WRITE_SET) then
      match read c addr with
      | None => None
      | Some rdata =>
          if op =? WRITE_CLEAR then Some (Z.land rdata (not32 data))
          else Some (Z.lor rdata data)
      end
    else Some data in
  match rmw with
  | None => None
  | Some data =>
    let permit_satp := (PRV_M <=? priv c) || negb (nz (Z.land (xstatus c) MSTATUS_TVM)) in
    let sip_mask_deleg := Z.land SIP_MASK (mideleg c) in
    match csr_decode addr with
    | Some CSR_MISA       => Some c
    | Some CSR_MHARTID    => Some c
    | Some CSR_MARCHID    => Some c
    | Some CSR_MIMPID     => Some c
    | Some CSR_MVENDORID  => Some c

    | Some CSR_MSTATUS    => Some (c {{ xstatus := Z.lor (Z.land data MSTATUS_MASK) (Z.land (xstatus c) (not32 MSTATUS_MASK)) }})
    | Some CSR_MIE        => Some (c {{ xie := Z.lor (Z.land data MIE_W_MASK) (Z.land (xie c) (not32 MIE_W_MASK)) }})
    | Some CSR_MIP        => Some (c {{ xip := Z.lor (Z.land data MIP_W_MASK) (Z.land (xip c) (not32 MIP_W_MASK)) }})
    | Some CSR_MTVEC      => Some (c {{ mtvec := Z.land data 0xfffffffd }})
    | Some CSR_MSCRATCH   => Some (c {{ mscratch := data }})
    | Some CSR_MEPC       => Some (c {{ mepc := Z.land data 0xfffffffe }})
    | Some CSR_MCAUSE     => Some (c {{ mcause := Z.land data 0x800000ff }})
    | Some CSR_MTVAL      => Some (c {{ mtval := data }})
    | Some CSR_MEDELEG    => Some (c {{ medeleg := data }})
    | Some CSR_MIDELEG    => Some (c {{ mideleg := data }})

    | Some CSR_MCOUNTEREN => Some (c {{ mcounteren := Z.land data 0x7 }})
    | Some CSR_MCYCLE     => Some (c {{ mcycle := data }})
    | Some CSR_MCYCLEH    => Some (c {{ mcycleh := data }})
    | Some CSR_MINSTRET   => Some (c {{ minstret := data }})
    | Some CSR_MINSTRETH  => Some (c {{ minstreth := data }})

    | Some CSR_SSTATUS    => Some (c {{ xstatus := Z.lor (Z.land data SSTATUS_MASK) (Z.land (xstatus c) (not32 SSTATUS_MASK)) }})
    | Some CSR_SIE        => Some (c {{ xie := Z.lor (Z.land data SIP_MASK) (Z.land (xie c) (not32 SIP_MASK)) }})
    | Some CSR_SIP        => Some (c {{ xip := Z.lor (Z.land data sip_mask_deleg) (Z.land (xip c) (not32 sip_mask_deleg)) }})
    | Some CSR_STVEC      => Some (c {{ stvec := Z.land data 0xfffffffd }})
    | Some CSR_SCOUNTEREN => Some (c {{ scounteren := Z.land data 0x7 }})
    | Some CSR_SSCRATCH   => Some (c {{ sscratch := data }})
    | Some CSR_SEPC       => Some (c {{ sepc := Z.land data 0xfffffffe }})
    | Some CSR_SCAUSE     => Some (c {{ scause := Z.land data 0x800000ff }})
    | Some CSR_STVAL      => Some (c {{ stval := data }})
    | Some CSR_SATP       => if permit_satp then Some (c {{ satp := Z.land data (not32 SATP32_ASID) }}) else None

    | _                   => None
    end
  end.

(** [__builtin_ctz]: the index of the lowest set bit of a nonzero 32-bit
    value, found by scanning upwards from bit [i]. *)
Fixpoint ctz_from (fuel : nat) (i x : Z) : Z :=
  match fuel with
  | O => i
  | S fuel' => if Z.testbit x i then i else ctz_from fuel' (i + 1) x
  end.
Definition ctz (x : Z) : Z := ctz_from 32 0 x.

(** Internal interface for updating trap state once a trap's target
    privilege has been calculated. Returns trap target pc. *)
Definition trap_enter_at_priv (c : RVCSR) (xcause xepc target_priv : Z) : Z * RVCSR :=
  if target_priv =? PRV_M then
    (* Trap to M-mode *)
    let c := c {{ xstatus := Z.lor (Z.land (xstatus c) (not32 MSTATUS_MPP)) (shl32 (priv c) 11) }} in
    let c := c {{ priv := PRV_M }} in

    let c := if nz (Z.land (xstatus c) MSTATUS_MIE)
             then c {{ xstatus := Z.lor (xstatus c) MSTATUS_MPIE }} else c in
    let c := c {{ xstatus := Z.land (xstatus c) (not32 MSTATUS_MIE) }} in

    let c := c {{ mcause := xcause }} in
    let c := c {{ mepc := xepc }} in
    if nz (Z.land (mtvec c) 0x1) && nz (Z.land xcause (shl32 1 31)) then
      (add32 (Z.land (mtvec c) (wrap32 (-2)))
             (wrap32 (4 * Z.land xcause (not32 (shl32 1 31)))), c)
    else
      (Z.land (mtvec c) (wrap32 (-2)), c)
  else
    (* Trap to S-mode; assert(target_priv == PRV_S) *)
    let c := c {{ xstatus := Z.lor (Z.land (xstatus c) (not32 SSTATUS_SPP)) (shl32 (priv c) 8) }} in
    let c := c {{ priv := PRV_S }} in

    let c := if nz (Z.land (xstatus c) SSTATUS_SIE)
             then c {{ xstatus := Z.lor (xstatus c) SSTATUS_SPIE }} else c in
    let c := c {{ xstatus := Z.land (xstatus c) (not32 SSTATUS_SIE) }} in

    let c := c {{ scause := xcause }} in
    let c := c {{ sepc := xepc }} in

    if nz (Z.land (stvec c) 0x1) && nz (Z.land xcause (shl32 1 31)) then
      (add32 (Z.land (stvec c) (wrap32 (-2)))
             (wrap32 (4 * Z.land xcause (not32 (shl32 1 31)))), c)
    else
      (Z.land (stvec c) (wrap32 (-2)), c).

(** Determine target privilege level of an exception, update trap state
    (including change of privilege level), return trap target PC.
    [assert(xcause < 32)]. *)
Definition trap_enter_exception (c : RVCSR) (xcause xepc : Z) : Z * RVCSR :=
  let target_priv := if nz (Z.land (medeleg c) (shl32 1 xcause)) then PRV_S else PRV_M in
  let target_priv := if target_priv <? priv c then priv c else target_priv in
  trap_enter_at_priv c xcause xepc target_priv.

(** If there is currently a pending IRQ that must be entered, then
    determine its target privilege level, update trap state, and return
    trap target PC. Otherwise return None. *)
Definition trap_check_enter_irq (c : RVCSR) (xepc : Z) : option Z * RVCSR :=
  let m_targeted_irqs :=
    Z.land (Z.land (Z.land (get_effective_xip c) (xie c)) MIP_R_MASK) (not32 (mideleg c)) in
  let s_targeted_irqs :=
    Z.land (Z.land (Z.land (get_effective_xip c) (xie c)) SIP_MASK) (mideleg c) in
  let take_m_irq :=
    nz m_targeted_irqs && (nz (Z.land (xstatus c) MSTATUS_MIE) || (priv c <? PRV_M)) in
  let take_s_irq :=
    nz s_targeted_irqs && (nz (Z.land (xstatus c) SSTATUS_SIE) || (priv c <? PRV_S))
    && (priv c <=? PRV_S) in
  if take_m_irq then
    let cause := Z.lor (shl32 1 31) (ctz m_targeted_irqs) in
    let '(target, c) := trap_enter_at_priv c cause xepc PRV_M in
    (Some target, c)
  else if take_s_irq then
    let cause := Z.lor (shl32 1 31) (ctz s_targeted_irqs) in
    let '(target, c) := trap_enter_at_priv c cause xepc PRV_S in
    (Some target, c)
  else
    (None, c).

(** Update trap state, return mepc. *)
Definition trap_mret (c : RVCSR) : Z * RVCSR :=
  let c := c {{ priv := GETBITS (xstatus c) 12 11 }} in
  let c := c {{ xstatus := Z.land (xstatus c) (not32 MSTATUS_MPP) }} in
  let c := if negb (priv c =? PRV_M)
           then c {{ xstatus := Z.land (xstatus c) (not32 MSTATUS_MPRV) }} else c in

  let c := if nz (Z.land (xstatus c) MSTATUS_MPIE)
           then c {{ xstatus := Z.lor (xstatus c) MSTATUS_MIE }} else c in
  let c := c {{ xstatus := Z.land (xstatus c) (not32 MSTATUS_MPIE) }} in

  (mepc c, c).

(** Update trap state, return sepc (unless SRET is trapped via e.g.
    mstatus.tsr, in which case take trap). *)
Definition trap_sret (c : RVCSR) (pc : Z) : Z * RVCSR :=
  if nz (Z.land (xstatus c) MSTATUS_TSR) && (priv c =? PRV_S) then
    trap_enter_exception c XCAUSE_INSTR_ILLEGAL pc
  else
    let c := c {{ priv := GETBIT (xstatus c) 8 }} in
    let c := c {{ xstatus := Z.land (xstatus c) (not32 SSTATUS_SPP) }} in
    let c := if nz (Z.land (xstatus c) SSTATUS_SPIE)
             then c {{ xstatus := Z.lor (xstatus c) SSTATUS_SIE }} else c in
    let c := c {{ xstatus := Z.land (xstatus c) (not32 SSTATUS_SPIE) }} in
    (* Note target of sret is never M, so MPRV always cleared. *)
    let c := c {{ xstatus := Z.land (xstatus c) (not32 MSTATUS_MPRV) }} in
    (sepc c, c).

(** Set *tval syndrome register for the current privilege mode;
    [assert(priv >= PRV_S)]. *)
Definition trap_set_xtval (c : RVCSR) (xtval : Z) : RVCSR :=
  if priv c =? PRV_S then c {{ stval := xtval }} else c {{ mtval := xtval }}.

End RVCSR.

(** ** mem.h *)

(** [struct MemBase32]: the bus interface.  A read returns the value or
    nothing; a write returns [Some] of the device after the write when the
    C++ method returns [true], and [None] when it returns [false] (no
    device of the sources changes state on a refused write). *)
Module MemBase32.
Class t (D : Type) : Type := {
  r8  : D -> Z -> option Z;
  w8  : D -> Z -> Z -> option D;
  r16 : D -> Z -> option Z;
  w16 : D -> Z -> Z -> option D;
  r32 : D -> Z -> option Z;
  w32 : D -> Z -> Z -> option D
}.
End MemBase32.

(** An object of the base class itself: every method keeps its default
    body, [return {}] or [return false]. *)
#[export] Instance MemBase32_default : MemBase32.t unit := {|
  MemBase32.r8  := fun _ _ => None;
  MemBase32.w8  := fun _ _ _ => None;
  MemBase32.r16 := fun _ _ => None;
  MemBase32.w16 := fun _ _ _ => None;
  MemBase32.r32 := fun _ _ => None;
  MemBase32.w32 := fun _ _ _ => None
|}.

Module FlatMem32.

(** [struct FlatMem32]: [size] bytes held as an array of [size >> 2]
    little-endian words. *)
Record t : Type := mk { size : Z; mem : list Z }.

(** [FlatMem32(size_)]: all words zero. *)
Definition init (size_ : Z) : t :=
  {| size := size_; mem := replicate (Z.to_nat (Z.shiftr size_ 2)) 0 |}.

(** [mem[i]] and [mem[i] = v] on the word array. *)
Definition word (m : t) (i : Z) : Z := mem m !!! Z.to_nat i.
Definition set_word (m : t) (i v : Z) : t :=
  {| size := size m; mem := <[Z.to_nat i := v]> (mem m) |}.

(** Each method starts with [assert]s on the offset; where one fails the
    C++ program aborts, and the model refuses the access. *)
Definition r8 (m : t) (addr : Z) : option Z :=
  if negb (addr <? size m) then None else
  Some (Z.land (shr32 (word m (Z.shiftr addr 2)) (8 * Z.land addr 0x3)) 0xff).

Definition w8 (m : t) (addr data : Z) : option t :=
  if negb (addr <? size m) then None else
  let i := Z.shiftr addr 2 in
  let m := set_word m i (Z.land (word m i) (not32 (shl32 0xff (8 * Z.land addr 0x3)))) in
  let m := set_word m i (Z.lor (word m i) (shl32 data (8 * Z.land addr 0x3))) in
  Some m.

Definition r16 (m : t) (addr : Z) : option Z :=
  if negb ((addr <? size m) && (add32 addr 1 <? size m)) then None else
  if negb (addr mod 2 =? 0) then None else
  Some (Z.land (shr32 (word m (Z.shiftr addr 2)) (8 * Z.land addr 0x2)) 0xffff).

Definition w16 (m : t) (addr data : Z) : option t :=
  if negb ((addr <? size m) && (add32 addr 1 <? size m)) then None else
  if negb (addr mod 2 =? 0) then None else
  let i := Z.shiftr addr 2 in
  let m := set_word m i (Z.land (word m i) (not32 (shl32 0xffff (8 * Z.land addr 0x2)))) in
  let m := set_word m i (Z.lor (word m i) (shl32 data (8 * Z.land addr 0x2))) in
  Some m.

Definition r32 (m : t) (addr : Z) : option Z :=
  if negb ((addr <? size m) && (add32 addr 3 <? size m)) then None else
  if negb (addr mod 4 =? 0) then None else
  Some (word m (Z.shiftr addr 2)).

Definition w32 (m : t) (addr data : Z) : option t :=
  if negb ((addr <? size m) && (add32 addr 3 <? size m)) then None else
  if negb (addr mod 4 =? 0) then None else
  Some (set_word m (Z.shiftr addr 2) data).

End FlatMem32.

#[export] Instance FlatMem32_MemBase32 : MemBase32.t FlatMem32.t := {|
  MemBase32.r8 := FlatMem32.r8;
  MemBase32.w8 := FlatMem32.w8;
  MemBase32.r16 := FlatMem32.r16;
  MemBase32.w16 := FlatMem32.w16;
  MemBase32.r32 := FlatMem32.r32;
  MemBase32.w32 := FlatMem32.w32
|}.

Module MemMap32.
Section MemMap32.
Context {D : Type} `{MemBase32.t D}.

(** [struct MemMap32]: the vector of (base, size, device) regions, in
    insertion order. *)
Definition t : Type := list (Z * Z * D).

Definition add (base size : Z) (mem : D) (memmap : t) : t :=
  memmap ++ [(base, size, mem)].

(** [map_addr]: the offset into the first region holding [addr] and that
    region (its position in the vector stands for the pointer), or the
    address itself and [nullptr]. *)
Fixpoint map_addr_from (i : nat) (memmap : t) (addr : Z) : Z * option (nat * D) :=
  match memmap with
  | [] => (addr, None)
  | (base, size, mem) :: rest =>
      if (base <=? addr) && (addr <? add32 base size)
      then (sub32 addr base, Some (i, mem))
      else map_addr_from (S i) rest addr
  end.
Definition map_addr (memmap : t) (addr : Z) : Z * option (nat * D) :=
  map_addr_from 0 memmap addr.

(** The region at position [i] after its device has become [mem']. *)
Definition update (memmap : t) (i : nat) (mem' : D) : t :=
  match memmap !! i with
  | Some (base, size, _) => <[i := (base, size, mem')]> memmap
  | None => memmap
  end.

Definition rd (f : D -> Z -> option Z) (memmap : t) (addr : Z) : option Z :=
  match map_addr memmap addr with
  | (offset, Some (_, mem)) => f mem offset
  | (_, None) => None
  end.

Definition wr (f : D -> Z -> Z -> option D) (memmap : t) (addr data : Z) : option t :=
  match map_addr memmap addr with
  | (offset, Some (i, mem)) =>
      match f mem offset data with
      | Some mem' => Some (update memmap i mem')
      | None => None
      end
  | (_, None) => None
  end.
End MemMap32.
End MemMap32.

#[export] Instance MemMap32_MemBase32 {D : Type} `{MemBase32.t D}
  : MemBase32.t (MemMap32.t (D := D)) := {|
  MemBase32.r8 := MemMap32.rd MemBase32.r8;
  MemBase32.w8 := MemMap32.wr MemBase32.w8;
  MemBase32.r16 := MemMap32.rd MemBase32.r16;
  MemBase32.w16 := MemMap32.wr MemBase32.w16;
  MemBase32.r32 := MemMap32.rd MemBase32.r32;
  MemBase32.w32 := MemMap32.wr MemBase32.w32
|}.

(** ** rv_core.h: [struct RVCore] *)

Record RVCore (D : Type) : Type := mkRVCore {
  regs : list Z;
  pc : Z;
  csr : RVCSR;
  load_reserved : bool;
  mem : D;
  (* A single flat RAM is handled as a special case, in addition to whatever
     is in [mem]; this RAM takes precedence over whatever is mapped at the
     same address in [mem]. *)
  ram : list Z;
  ram_base : Z;
  ram_top : Z
}.
Arguments mkRVCore {D}.
Arguments regs {D}.
Arguments pc {D}.
Arguments csr {D}.
Arguments load_reserved {D}.
Arguments mem {D}.
Arguments ram {D}.
Arguments ram_base {D}.
Arguments ram_top {D}.

Definition OPC_LOAD     : Z := 0x00. (* 0b00'000 *)
Definition OPC_MISC_MEM : Z := 0x03. (* 0b00'011 *)
Definition OPC_OP_IMM   : Z := 0x04. (* 0b00'100 *)
Definition OPC_AUIPC    : Z := 0x05. (* 0b00'101 *)
Definition OPC_STORE    : Z := 0x08. (* 0b01'000 *)
Definition OPC_AMO      : Z := 0x0b. (* 0b01'011 *)
Definition OPC_OP       : Z := 0x0c. (* 0b01'100 *)
Definition OPC_LUI      : Z := 0x0d. (* 0b01'101 *)
Definition OPC_BRANCH   : Z := 0x18. (* 0b11'000 *)
Definition OPC_JALR     : Z := 0x19. (* 0b11'001 *)
Definition OPC_JAL      : Z := 0x1b. (* 0b11'011 *)
Definition OPC_SYSTEM   : Z := 0x1c. (* 0b11'100 *)

(** ** encoding/rv_opcodes.h *)

(** Modelled from the spec: [encoding/rv_opcodes.h] is not among the
    sources.  Each mnemonic is the pair of its fixed bits and the mask
    selecting them (section 4.2: "the table encodes the full set of
    mandated fixed bits"), as the RISC-V ISA manual lays them out.  For the
    compressed forms, section 4.6: [c.jr]/[c.jalr]/[c.ebreak] are carried
    by the [C_MV]/[C_ADD] patterns, [c.addi16sp] by [C_LUI], and the
    all-zeros halfword has its own matcher. *)
Record rvopc : Type := mk_rvopc { BITS : Z; MASK : Z }.

(** [#define RVOPC_MATCH(instr, name)]: [(instr & MASK) == BITS]. *)
Definition RVOPC_MATCH (instr : Z) (o : rvopc) : bool := Z.land instr (MASK o) =? BITS o.

Definition RVOPC_LR_W       := mk_rvopc 0x1000202f 0xf9f0707f.
Definition RVOPC_SC_W       := mk_rvopc 0x1800202f 0xf800707f.
Definition RVOPC_AMOSWAP_W  := mk_rvopc 0x0800202f 0xf800707f.
Definition RVOPC_AMOADD_W   := mk_rvopc 0x0000202f 0xf800707f.
Definition RVOPC_AMOXOR_W   := mk_rvopc 0x2000202f 0xf800707f.
Definition RVOPC_AMOAND_W   := mk_rvopc 0x6000202f 0xf800707f.
Definition RVOPC_AMOOR_W    := mk_rvopc 0x4000202f 0xf800707f.
Definition RVOPC_AMOMIN_W   := mk_rvopc 0x8000202f 0xf800707f.
Definition RVOPC_AMOMAX_W   := mk_rvopc 0xa000202f 0xf800707f.
Definition RVOPC_AMOMINU_W  := mk_rvopc 0xc000202f 0xf800707f.
Definition RVOPC_AMOMAXU_W  := mk_rvopc 0xe000202f 0xf800707f.
Definition RVOPC_FENCE      := mk_rvopc 0x0000000f 0x0000707f.
Definition RVOPC_FENCE_I    := mk_rvopc 0x0000100f 0x0000707f.
Definition RVOPC_CSRRW      := mk_rvopc 0x00001073 0x0000707f.
Definition RVOPC_CSRRS      := mk_rvopc 0x00002073 0x0000707f.
Definition RVOPC_CSRRC      := mk_rvopc 0x00003073 0x0000707f.
Definition RVOPC_CSRRWI     := mk_rvopc 0x00005073 0x0000707f.
Definition RVOPC_CSRRSI     := mk_rvopc 0x00006073 0x0000707f.
Definition RVOPC_CSRRCI     := mk_rvopc 0x00007073 0x0000707f.
Definition RVOPC_MRET       := mk_rvopc 0x30200073 0xffffffff.
Definition RVOPC_SRET       := mk_rvopc 0x10200073 0xffffffff.
Definition RVOPC_SFENCE_VMA := mk_rvopc 0x12000073 0xfe007fff.
Definition RVOPC_ECALL      := mk_rvopc 0x00000073 0xffffffff.
Definition RVOPC_EBREAK     := mk_rvopc 0x00100073 0xffffffff.
Definition RVOPC_WFI        := mk_rvopc 0x10500073 0xffffffff.

Definition RVOPC_ILLEGAL16  := mk_rvopc 0x0000 0xffff.
Definition RVOPC_C_ADDI4SPN := mk_rvopc 0x0000 0xe003.
Definition RVOPC_C_LW       := mk_rvopc 0x4000 0xe003.
Definition RVOPC_C_SW       := mk_rvopc 0xc000 0xe003.
Definition RVOPC_C_ADDI     := mk_rvopc 0x0001 0xe003.
Definition RVOPC_C_JAL      := mk_rvopc 0x2001 0xe003.
Definition RVOPC_C_LI       := mk_rvopc 0x4001 0xe003.
Definition RVOPC_C_LUI      := mk_rvopc 0x6001 0xe003.
Definition RVOPC_C_SRLI     := mk_rvopc 0x8001 0xfc03.
Definition RVOPC_C_SRAI     := mk_rvopc 0x8401 0xfc03.
Definition RVOPC_C_ANDI     := mk_rvopc 0x8801 0xec03.
Definition RVOPC_C_SUB      := mk_rvopc 0x8c01 0xfc63.
Definition RVOPC_C_XOR      := mk_rvopc 0x8c21 0xfc63.
Definition RVOPC_C_OR       := mk_rvopc 0x8c41 0xfc63.
Definition RVOPC_C_AND      := mk_rvopc 0x8c61 0xfc63.
Definition RVOPC_C_J        := mk_rvopc 0xa001 0xe003.
Definition RVOPC_C_BEQZ     := mk_rvopc 0xc001 0xe003.
Definition RVOPC_C_BNEZ     := mk_rvopc 0xe001 0xe003.
Definition RVOPC_C_SLLI     := mk_rvopc 0x0002 0xf003.
Definition RVOPC_C_MV       := mk_rvopc 0x8002 0xf003.
Definition RVOPC_C_ADD      := mk_rvopc 0x9002 0xf003.
Definition RVOPC_C_LWSP     := mk_rvopc 0x4002 0xe003.
Definition RVOPC_C_SWSP     := mk_rvopc 0xc002 0xe003.

(** ** rv_core.cpp: immediates and register fields *)

(** Use unsigned arithmetic everywhere, with explicit sign extension as
    required. *)
Definition sext (bits sign_bit : Z) : Z :=
  if XLEN - 1 <=? sign_bit then bits
  else sub32 (Z.land bits (sub32 (shl32 1 (sign_bit + 1)) 1))
             (shl32 (Z.land bits (shl32 1 sign_bit)) 1).

Definition imm_i (instr : Z) : Z :=
  sub32 (shr32 instr 20) (Z.land (shr32 instr 19) 0x1000).

Definition imm_s (instr : Z) : Z :=
  sub32 (add32 (Z.land (shr32 instr 20) 0xfe0)
               (Z.land (shr32 instr 7) 0x1f))
        (Z.land (shr32 instr 19) 0x1000).

Definition imm_u (instr : Z) : Z := Z.land instr 0xfffff000.

Definition imm_b (instr : Z) : Z :=
  sub32 (add32 (add32 (Z.land (shr32 instr 7) 0x1e)
                      (Z.land (shr32 instr 20) 0x7e0))
               (Z.land (shl32 instr 4) 0x800))
        (Z.land (shr32 instr 19) 0x1000).

Definition imm_j (instr : Z) : Z :=
  sub32 (add32 (add32 (Z.land (shr32 instr 20) 0x7fe)
                      (Z.land (shr32 instr 9) 0x800))
               (Z.land instr 0xff000))
        (Z.land (shr32 instr 11) 0x100000).

Definition imm_ci (instr : Z) : Z :=
  sub32 (GETBITS instr 6 2) (shl32 (GETBIT instr 12) 5).

Definition imm_cj (instr : Z) : Z :=
  add32 (add32 (add32 (add32 (add32 (add32 (add32
    (neg32 (shl32 (GETBIT instr 12) 11))
    (shl32 (GETBIT instr 11) 4))
    (shl32 (GETBITS instr 10 9) 8))
    (shl32 (GETBIT instr 8) 10))
    (shl32 (GETBIT instr 7) 6))
    (shl32 (GETBIT instr 6) 7))
    (shl32 (GETBITS instr 5 3) 1))
    (shl32 (GETBIT instr 2) 5).

Definition imm_cb (instr : Z) : Z :=
  add32 (add32 (add32 (add32
    (neg32 (shl32 (GETBIT instr 12) 8))
    (shl32 (GETBITS instr 11 10) 3))
    (shl32 (GETBITS instr 6 5) 6))
    (shl32 (GETBITS instr 4 3) 1))
    (shl32 (GETBIT instr 2) 5).

Definition c_rs1_s (instr : Z) : Z := GETBITS instr 9 7 + 8.
Definition c_rs2_s (instr : Z) : Z := GETBITS instr 4 2 + 8.
Definition c_rs1_l (instr : Z) : Z := GETBITS instr 11 7.
Definition c_rs2_l (instr : Z) : Z := GETBITS instr 6 2.

(** The [std::optional] locals of [RVCore::step] that outlive the decode,
    with [regnum_rd]. *)
Record StepLocals : Type := mkStepLocals {
  rd_wdata : option Z;
  pc_wdata : option Z;
  exception_cause : option Z;
  xtval_wdata : option Z;
  regnum_rd : Z
}.

(** The [std::optional] locals of the fetch: the two translated addresses
    and the two halfwords. *)
Record Fetched : Type := mkFetched {
  fetch_paddr0 : option Z;
  fetch0 : option Z;
  fetch_paddr1 : option Z;
  fetch1 : option Z
}.

(** [*o] on a [std::optional].  On an empty optional the C++ behaviour is
    undefined; the model reads the value as 0. *)
Definition deref (o : option Z) : Z := default 0 o.

(** A [std::optional] in a condition. *)
Definition has_value {A : Type} (o : option A) : bool :=
  match o with Some _ => true | None => false end.

(** [(sdx_t)x]: the two's complement reading of a 64-bit pattern. *)
Definition sdx_t (x : Z) : Z := (x + 2 ^ 63) mod 2 ^ 64 - 2 ^ 63.

Module RVCore.
Section RVCore.
Context {D : Type} `{MemBase32.t D}.

(** [RVCore(_mem, reset_vector, ram_base_, ram_size_)]; the constructor
    [assert]s that base and size are word multiples and do not wrap. *)
Definition init (mem_ : D) (reset_vector ram_base_ ram_size_ : Z) : RVCore D :=
  {| regs := replicate 32 0;
     pc := reset_vector;
     csr := RVCSR.reset;
     load_reserved := false;
     mem := mem_;
     ram := replicate (Z.to_nat (ram_size_ / 4)) 0;
     ram_base := ram_base_;
     ram_top := add32 ram_base_ ram_size_ |}.

(** [regs[i]] and [ram[i]]. *)
Definition reg (c : RVCore D) (i : Z) : Z := regs c !!! Z.to_nat i.
Definition ram_word (c : RVCore D) (i : Z) : Z := ram c !!! Z.to_nat i.
Definition set_ram_word (c : RVCore D) (i v : Z) : RVCore D :=
  c {{ ram := <[Z.to_nat i := v]> (ram c) }}.
Definition in_ram (c : RVCore D) (addr : Z) : bool :=
  (ram_base c <=? addr) && (addr <? ram_top c).

(** Functions to read/write memory from this hart's point of view.  A
    write returns the hart after the write, or [None] for [false]. *)
Definition r8 (c : RVCore D) (addr : Z) : option Z :=
  if in_ram c addr then
    Some (Z.land (shr32 (ram_word c (Z.shiftr (sub32 addr (ram_base c)) 2))
                        (8 * Z.land addr 0x3)) 0xff)
  else MemBase32.r8 (mem c) addr.

Definition w8 (c : RVCore D) (addr data : Z) : option (RVCore D) :=
  if in_ram c addr then
    let i := Z.shiftr (sub32 addr (ram_base c)) 2 in
    let c := set_ram_word c i (Z.land (ram_word c i) (not32 (shl32 0xff (8 * Z.land addr 0x3)))) in
    let c := set_ram_word c i (Z.lor (ram_word c i) (shl32 data (8 * Z.land addr 0x3))) in
    Some c
  else match MemBase32.w8 (mem c) addr data with
       | Some m => Some (c {{ mem := m }})
       | None => None
       end.

Definition r16 (c : RVCore D) (addr : Z) : option Z :=
  if in_ram c addr then
    Some (Z.land (shr32 (ram_word c (Z.shiftr (sub32 addr (ram_base c)) 2))
                        (8 * Z.land addr 0x2)) 0xffff)
  else MemBase32.r16 (mem c) addr.

Definition w16 (c : RVCore D) (addr data : Z) : option (RVCore D) :=
  if in_ram c addr then
    let i := Z.shiftr (sub32 addr (ram_base c)) 2 in
    let c := set_ram_word c i (Z.land (ram_word c i) (not32 (shl32 0xffff (8 * Z.land addr 0x2)))) in
    let c := set_ram_word c i (Z.lor (ram_word c i) (shl32 data (8 * Z.land addr 0x2))) in
    Some c
  else match MemBase32.w16 (mem c) addr data with
       | Some m => Some (c {{ mem := m }})
       | None => None
       end.

Definition r32 (c : RVCore D) (addr : Z) : option Z :=
  if in_ram c addr then
    Some (ram_word c (Z.shiftr (sub32 addr (ram_base c)) 2))
  else MemBase32.r32 (mem c) addr.

Definition w32 (c : RVCore D) (addr data : Z) : option (RVCore D) :=
  if in_ram c addr then
    Some (set_ram_word c (Z.shiftr (sub32 addr (ram_base c)) 2) data)
  else match MemBase32.w32 (mem c) addr data with
       | Some m => Some (c {{ mem := m }})
       | None => None
       end.

(** The A/D update shared by both walk levels: the PTE with A set, and D
    set as well when W is requested. *)
Definition pte_a_d_update (pte required_permissions : Z) : Z :=
  Z.lor (Z.lor pte PTE_A) (if nz (Z.land required_permissions PTE_W) then PTE_D else 0).

(** [vmap_sv32]: the physical address, or nothing on any fault, and the
    hart after a possible A/D write-back.  [assert(effective_priv <=
    PRV_S)]; the argument is not otherwise used by the body. *)
Definition vmap_sv32 (c : RVCore D) (vaddr atp effective_priv required_permissions : Z)
  : option Z * RVCore D :=
  (* First translation stage: vaddr bits 31:22 *)
  let addr_of_pte1 := add32 atp (Z.land (shr32 vaddr 20) 0xffc) in
  match r32 c addr_of_pte1 with
  | None => (None, c)
  | Some pte1 =>
    if negb (nz (Z.land pte1 PTE_V)) then (None, c) else
    if nz (Z.land pte1 (Z.lor (Z.lor PTE_X PTE_W) PTE_R)) then
      (* It's a leaf PTE. Permission check before touching A/D bits: *)
      if negb (RVCSR.pte_permissions_ok (csr c) pte1 required_permissions) then (None, c) else
      (* First-level leaf PTEs must have lower PPN bits cleared, so that
         they cover a 4 MiB-aligned range. *)
      if nz (Z.land pte1 0x000ffc00) then (None, c) else
      (* Looks good, so update A/D and return the mapped address *)
      let pte1_a_d_update := pte_a_d_update pte1 required_permissions in
      let paddr := Z.lor (Z.land (shl32 pte1 2) 0xffc00000) (Z.land vaddr 0x003fffff) in
      if negb (pte1_a_d_update =? pte1) then
        match w32 c addr_of_pte1 pte1_a_d_update with
        | None => (None, c)
        | Some c' => (Some paddr, c')
        end
      else (Some paddr, c)
    else
    (* Second translation stage: vaddr bits 21:12 *)
    let addr_of_pte0 := Z.lor (Z.land (shl32 pte1 2) 0xfffff000) (Z.land (shr32 vaddr 10) 0xffc) in
    match r32 c addr_of_pte0 with
    | None => (None, c)
    | Some pte0 =>
      (* Must be a valid leaf PTE. *)
      if negb (nz (Z.land pte0 PTE_V) && nz (Z.land pte0 (Z.lor (Z.lor PTE_X PTE_W) PTE_R)))
      then (None, c) else
      (* Permission check *)
      if negb (RVCSR.pte_permissions_ok (csr c) pte0 required_permissions) then (None, c) else
      (* PTE looks good, so update A/D bits before returning the mapped address *)
      let pte0_a_d_update := pte_a_d_update pte0 required_permissions in
      let paddr := Z.lor (Z.land (shl32 pte0 2) 0xfffff000) (Z.land vaddr 0xfff) in
      if negb (pte0_a_d_update =? pte0) then
        match w32 c addr_of_pte0 pte0_a_d_update with
        | None => (None, c)
        | Some c' => (Some paddr, c')
        end
      else (Some paddr, c)
    end
  end.

Definition vmap_ls (c : RVCore D) (vaddr required_permissions : Z) : option Z * RVCore D :=
  if RVCSR.translation_enabled_ls (csr c) then
    vmap_sv32 c vaddr (RVCSR.get_atp (csr c)) (RVCSR.get_effective_priv_ls (csr c))
              required_permissions
  else (Some vaddr, c).

Definition vmap_fetch (c : RVCore D) (vaddr : Z) : option Z * RVCore D :=
  if RVCSR.translation_enabled_fetch (csr c) then
    vmap_sv32 c vaddr (RVCSR.get_atp (csr c)) (RVCSR.get_true_priv (csr c)) PTE_X
  else (Some vaddr, c).


(** ** rv_core.cpp: [RVCore::step]

    The body of [step] is cut along its [switch (opc)] and its quadrant
    tests; every piece takes the hart and the locals as they are when
    control reaches it and returns them as they are when it leaves.  The
    data accesses of [step] go to the bus object [mem] itself, as the
    source writes them ([mem.r16], [mem.w32], ...).  The [trace] argument
    only prints; the model is the [trace = false] behaviour. *)

Definition raise (cause : Z) (l : StepLocals) : StepLocals :=
  l {{ exception_cause := Some cause }}.

(** [case OPC_OP] *)
Definition exec_OP (funct3 funct7 rs1 rs2 : Z) (l : StepLocals) : StepLocals :=
  if funct7 =? 0x00 then
    if funct3 =? 0 then l {{ rd_wdata := Some (add32 rs1 rs2) }}
    else if funct3 =? 1 then l {{ rd_wdata := Some (shl32 rs1 (Z.land rs2 0x1f)) }}
    else if funct3 =? 2 then l {{ rd_wdata := Some (b2z (sx_t rs1 <? sx_t rs2)) }}
    else if funct3 =? 3 then l {{ rd_wdata := Some (b2z (rs1 <? rs2)) }}
    else if funct3 =? 4 then l {{ rd_wdata := Some (Z.lxor rs1 rs2) }}
    else if funct3 =? 5 then l {{ rd_wdata := Some (shr32 rs1 (Z.land rs2 0x1f)) }}
    else if funct3 =? 6 then l {{ rd_wdata := Some (Z.lor rs1 rs2) }}
    else if funct3 =? 7 then l {{ rd_wdata := Some (Z.land rs1 rs2) }}
    else raise XCAUSE_INSTR_ILLEGAL l
  else if funct7 =? 0x20 then
    if funct3 =? 0 then l {{ rd_wdata := Some (sub32 rs1 rs2) }}
    else if funct3 =? 5 then l {{ rd_wdata := Some (sra32 rs1 (Z.land rs2 0x1f)) }}
    else raise XCAUSE_INSTR_ILLEGAL l
  else if funct7 =? 0x01 then
    if funct3 <? 4 then
      let mul_op_a := rs1 in
      let mul_op_b := rs2 in
      let mul_op_a :=
        if negb (funct3 =? 3)
        then mul_op_a - Z.shiftl (Z.land mul_op_a (- 2 ^ (XLEN - 1))) 1 else mul_op_a in
      let mul_op_b :=
        if funct3 <? 2
        then mul_op_b - Z.shiftl (Z.land mul_op_b (- 2 ^ (XLEN - 1))) 1 else mul_op_b in
      let mul_result := sdx_t (mul_op_a * mul_op_b) in
      if funct3 =? 0 then l {{ rd_wdata := Some (wrap32 mul_result) }}
      else l {{ rd_wdata := Some (wrap32 (Z.shiftr mul_result XLEN)) }}
    else
      if funct3 =? 4 then
        if rs2 =? 0 then l {{ rd_wdata := Some (wrap32 (-1)) }}
        else if rs2 =? not32 0 then l {{ rd_wdata := Some (neg32 rs1) }}
        else l {{ rd_wdata := Some (wrap32 (Z.quot (sx_t rs1) (sx_t rs2))) }}
      else if funct3 =? 5 then
        l {{ rd_wdata := Some (if nz rs2 then Z.quot rs1 rs2 else wrap32 (Z.lnot 0 mod 2 ^ 64)) }}
      else if funct3 =? 6 then
        if rs2 =? 0 then l {{ rd_wdata := Some rs1 }}
        else if rs2 =? not32 0 (* potential overflow of division *)
        then l {{ rd_wdata := Some 0 }}
        else l {{ rd_wdata := Some (wrap32 (Z.rem (sx_t rs1) (sx_t rs2))) }}
      else if funct3 =? 7 then
        l {{ rd_wdata := Some (if nz rs2 then Z.rem rs1 rs2 else rs1) }}
      else l
  else raise XCAUSE_INSTR_ILLEGAL l.

(** [case OPC_OP_IMM] *)
Definition exec_OP_IMM (instr funct3 funct7 regnum_rs2 rs1 : Z) (l : StepLocals) : StepLocals :=
  let imm := imm_i instr in
  if funct3 =? 0 then l {{ rd_wdata := Some (add32 rs1 imm) }}
  else if funct3 =? 2 then l {{ rd_wdata := Some (b2z (sx_t rs1 <? sx_t imm)) }}
  else if funct3 =? 3 then l {{ rd_wdata := Some (b2z (rs1 <? imm)) }}
  else if funct3 =? 4 then l {{ rd_wdata := Some (Z.lxor rs1 imm) }}
  else if funct3 =? 6 then l {{ rd_wdata := Some (Z.lor rs1 imm) }}
  else if funct3 =? 7 then l {{ rd_wdata := Some (Z.land rs1 imm) }}
  else if (funct3 =? 1) || (funct3 =? 5) then
    (* shamt is regnum_rs2 *)
    if (funct7 =? 0x00) && (funct3 =? 1) then l {{ rd_wdata := Some (shl32 rs1 regnum_rs2) }}
    else if (funct7 =? 0x00) && (funct3 =? 5) then l {{ rd_wdata := Some (shr32 rs1 regnum_rs2) }}
    else if (funct7 =? 0x20) && (funct3 =? 5) then l {{ rd_wdata := Some (sra32 rs1 regnum_rs2) }}
    else raise XCAUSE_INSTR_ILLEGAL l
  else raise XCAUSE_INSTR_ILLEGAL l.

(** [case OPC_BRANCH] *)
Definition exec_BRANCH (pc_ instr funct3 rs1 rs2 : Z) (l : StepLocals) : StepLocals :=
  let target := add32 pc_ (imm_b instr) in
  let taken := false in
  let '(taken, l) :=
    if Z.land funct3 6 =? 0 then (rs1 =? rs2, l)
    else if Z.land funct3 6 =? 4 then (sx_t rs1 <? sx_t rs2, l)
    else if Z.land funct3 6 =? 6 then (rs1 <? rs2, l)
    else (taken, raise XCAUSE_INSTR_ILLEGAL l) in
  let taken :=
    if negb (has_value (exception_cause l)) && nz (Z.land funct3 1)
    then negb taken else taken in
  if taken then l {{ pc_wdata := Some target }} else l.


(** [case OPC_LOAD] *)
Definition exec_LOAD (c : RVCore D) (instr funct3 rs1 : Z) (l : StepLocals)
  : RVCore D * StepLocals :=
  let load_addr_v := add32 rs1 (imm_i instr) in
  let align_mask := not32 (shl32 (wrap32 (-1)) (Z.land funct3 0x3)) in
  let misalign := nz (Z.land load_addr_v align_mask) in
  if (funct3 =? 3) || (5 <? funct3) then (c, raise XCAUSE_INSTR_ILLEGAL l)
  else if misalign then
    (c, raise XCAUSE_LOAD_ALIGN l {{ xtval_wdata := Some load_addr_v }})
  else
    let '(load_addr_p, c) := vmap_ls c load_addr_v PTE_R in
    let l :=
      match load_addr_p with
      | None => raise XCAUSE_LOAD_PAGEFAULT l
      | Some p =>
        if funct3 =? 0 then
          let l := l {{ rd_wdata := MemBase32.r8 (mem c) p }} in
          match rd_wdata l with
          | Some v => l {{ rd_wdata := Some (sext v 7) }}
          | None => raise XCAUSE_LOAD_FAULT l
          end
        else if funct3 =? 1 then
          let l := l {{ rd_wdata := MemBase32.r16 (mem c) p }} in
          match rd_wdata l with
          | Some v => l {{ rd_wdata := Some (sext v 15) }}
          | None => raise XCAUSE_LOAD_FAULT l
          end
        else if funct3 =? 2 then
          let l := l {{ rd_wdata := MemBase32.r32 (mem c) p }} in
          if has_value (rd_wdata l) then l else raise XCAUSE_LOAD_FAULT l
        else if funct3 =? 4 then
          let l := l {{ rd_wdata := MemBase32.r8 (mem c) p }} in
          if has_value (rd_wdata l) then l else raise XCAUSE_LOAD_FAULT l
        else if funct3 =? 5 then
          let l := l {{ rd_wdata := MemBase32.r16 (mem c) p }} in
          if has_value (rd_wdata l) then l else raise XCAUSE_LOAD_FAULT l
        else l
      end in
    let l := if has_value (exception_cause l)
             then l {{ xtval_wdata := Some load_addr_v }} else l in
    (c, l).

(** A bus write inside [step]: the hart after an accepted write, or the
    store access fault. *)
Definition bus_write (c : RVCore D) (w : option D) (l : StepLocals)
  : RVCore D * StepLocals :=
  match w with
  | Some m => (c {{ mem := m }}, l)
  | None => (c, raise XCAUSE_STORE_FAULT l)
  end.

(** [case OPC_STORE] *)
Definition exec_STORE (c : RVCore D) (instr funct3 rs1 rs2 : Z) (l : StepLocals)
  : RVCore D * StepLocals :=
  let store_addr_v := add32 rs1 (imm_s instr) in
  let align_mask := not32 (shl32 (wrap32 (-1)) (Z.land funct3 0x3)) in
  let misalign := nz (Z.land store_addr_v align_mask) in
  if 2 <? funct3 then (c, raise XCAUSE_INSTR_ILLEGAL l)
  else if misalign then
    (c, raise XCAUSE_STORE_ALIGN l {{ xtval_wdata := Some store_addr_v }})
  else
    let '(store_addr_p, c) := vmap_ls c store_addr_v PTE_W in
    let '(c, l) :=
      match store_addr_p with
      | None => (c, raise XCAUSE_STORE_PAGEFAULT l)
      | Some p =>
        if funct3 =? 0 then bus_write c (MemBase32.w8 (mem c) p (Z.land rs2 0xff)) l
        else if funct3 =? 1 then bus_write c (MemBase32.w16 (mem c) p (Z.land rs2 0xffff)) l
        else if funct3 =? 2 then bus_write c (MemBase32.w32 (mem c) p rs2) l
        else (c, l)
      end in
    let l := if has_value (exception_cause l)
             then l {{ xtval_wdata := Some store_addr_v }} else l in
    (c, l).

(** The value an AMO stores, selected by [switch (instr & RVOPC_AMOSWAP_W_MASK)];
    [None] is the [default: assert(false)] branch. *)
Definition amo_wdata (instr rdata rs2 : Z) : option Z :=
  let sel := Z.land instr (MASK RVOPC_AMOSWAP_W) in
  if sel =? BITS RVOPC_AMOSWAP_W then Some rs2
  else if sel =? BITS RVOPC_AMOADD_W then Some (add32 rdata rs2)
  else if sel =? BITS RVOPC_AMOXOR_W then Some (Z.lxor rdata rs2)
  else if sel =? BITS RVOPC_AMOAND_W then Some (Z.land rdata rs2)
  else if sel =? BITS RVOPC_AMOOR_W then Some (Z.lor rdata rs2)
  else if sel =? BITS RVOPC_AMOMIN_W then Some (if sx_t rdata <? sx_t rs2 then rdata else rs2)
  else if sel =? BITS RVOPC_AMOMAX_W then Some (if sx_t rs2 <? sx_t rdata then rdata else rs2)
  else if sel =? BITS RVOPC_AMOMINU_W then Some (if rdata <? rs2 then rdata else rs2)
  else if sel =? BITS RVOPC_AMOMAXU_W then Some (if rs2 <? rdata then rdata else rs2)
  else None.

(** [case OPC_AMO] *)
Definition exec_AMO (c : RVCore D) (instr rs1 rs2 : Z) (l : StepLocals)
  : RVCore D * StepLocals :=
  if RVOPC_MATCH instr RVOPC_LR_W then
    let '(c, l) :=
      if nz (Z.land rs1 0x3) then (c, raise XCAUSE_LOAD_ALIGN l)
      else
        let '(lr_addr_p, c) := vmap_ls c rs1 PTE_R in
        match lr_addr_p with
        | None => (c, raise XCAUSE_LOAD_PAGEFAULT l)
        | Some p =>
          let l := l {{ rd_wdata := MemBase32.r32 (mem c) p }} in
          if has_value (rd_wdata l) then (c {{ load_reserved := true }}, l)
          else (c, raise XCAUSE_LOAD_FAULT l)
        end in
    let l := if has_value (exception_cause l) then l {{ xtval_wdata := Some rs1 }} else l in
    (c, l)
  else if RVOPC_MATCH instr RVOPC_SC_W then
    if nz (Z.land rs1 0x3) then (c, raise XCAUSE_STORE_ALIGN l)
    else
      let '(c, l) :=
        if load_reserved c then
          let '(sc_addr_p, c) := vmap_ls c rs1 PTE_W in
          match sc_addr_p with
          | None => (c, raise XCAUSE_STORE_PAGEFAULT l)
          | Some p =>
            let c := c {{ load_reserved := false }} in
            match MemBase32.w32 (mem c) p rs2 with
            | Some m => (c {{ mem := m }}, l {{ rd_wdata := Some 0 }})
            | None => (c, raise XCAUSE_STORE_FAULT l)
            end
          end
        else (c, l {{ rd_wdata := Some 1 }}) in
      let l := if has_value (exception_cause l) then l {{ xtval_wdata := Some rs1 }} else l in
      (c, l)
  else if RVOPC_MATCH instr RVOPC_AMOSWAP_W
       || RVOPC_MATCH instr RVOPC_AMOADD_W
       || RVOPC_MATCH instr RVOPC_AMOXOR_W
       || RVOPC_MATCH instr RVOPC_AMOAND_W
       || RVOPC_MATCH instr RVOPC_AMOOR_W
       || RVOPC_MATCH instr RVOPC_AMOMIN_W
       || RVOPC_MATCH instr RVOPC_AMOMAX_W
       || RVOPC_MATCH instr RVOPC_AMOMINU_W
       || RVOPC_MATCH instr RVOPC_AMOMAXU_W then
    let '(c, l) :=
      if nz (Z.land rs1 0x3) then (c, raise XCAUSE_STORE_ALIGN l)
      else
        let '(amo_addr_p, c) := vmap_ls c rs1 (Z.lor PTE_W PTE_R) in
        match amo_addr_p with
        | None => (c, raise XCAUSE_STORE_PAGEFAULT l)
        | Some p =>
          let l := l {{ rd_wdata := MemBase32.r32 (mem c) p }} in
          match rd_wdata l with
          | None => (c, raise XCAUSE_STORE_FAULT l) (* Yes, AMO/Store *)
          | Some rdata =>
            let write_success :=
              match amo_wdata instr rdata rs2 with
              | Some wdata => MemBase32.w32 (mem c) p wdata
              | None => None
              end in
            match write_success with
            | Some m => (c {{ mem := m }}, l)
            | None => (c, raise XCAUSE_STORE_FAULT l)
            end
          end
        end in
    let l := if has_value (exception_cause l) then l {{ xtval_wdata := Some rs1 }} else l in
    (c, l)
  else (c, raise XCAUSE_INSTR_ILLEGAL l).

(** [case OPC_MISC_MEM] *)
Definition exec_MISC_MEM (instr : Z) (l : StepLocals) : StepLocals :=
  if RVOPC_MATCH instr RVOPC_FENCE then l (* implement as nop *)
  else if RVOPC_MATCH instr RVOPC_FENCE_I then l (* implement as nop *)
  else raise XCAUSE_INSTR_ILLEGAL l.

(** [case OPC_SYSTEM] *)
Definition exec_SYSTEM (c : RVCore D) (instr funct3 regnum_rs1 rs1 : Z) (l : StepLocals)
  : RVCore D * StepLocals :=
  if RVOPC_MATCH instr RVOPC_CSRRW || RVOPC_MATCH instr RVOPC_CSRRS
     || RVOPC_MATCH instr RVOPC_CSRRC || RVOPC_MATCH instr RVOPC_CSRRWI
     || RVOPC_MATCH instr RVOPC_CSRRSI || RVOPC_MATCH instr RVOPC_CSRRCI then
    let csr_addr := Z.land (shr32 instr 20) 0xffff in
    let write_op := Z.land (sub32 funct3 1) 0x3 in
    let wdata := if nz (Z.land funct3 0x4) then regnum_rs1 else rs1 in
    let l :=
      if negb (write_op =? WRITE) || negb (regnum_rd l =? 0) then
        let l := l {{ rd_wdata := RVCSR.read (csr c) csr_addr }} in
        if has_value (rd_wdata l) then l else raise XCAUSE_INSTR_ILLEGAL l
      else l in
    let '(c, l) :=
      if (write_op =? WRITE) || negb (regnum_rs1 =? 0) then
        match RVCSR.write (csr c) csr_addr wdata write_op with
        | Some csr' => (c {{ csr := csr' }}, l)
        | None => (c, raise XCAUSE_INSTR_ILLEGAL l)
        end
      else (c, l) in
    (* Suppress GPR writeback of earlier read due to write exception *)
    let l := if has_value (exception_cause l) then l {{ rd_wdata := None }} else l in
    (c, l)
  else if RVOPC_MATCH instr RVOPC_MRET then
    if RVCSR.get_true_priv (csr c) =? PRV_M then
      let '(target, csr') := RVCSR.trap_mret (csr c) in
      (c {{ csr := csr' }}, l {{ pc_wdata := Some target }})
    else (c, raise XCAUSE_INSTR_ILLEGAL l)
  else if RVOPC_MATCH instr RVOPC_SRET then
    if PRV_S <=? RVCSR.get_true_priv (csr c) then
      let '(target, csr') := RVCSR.trap_sret (csr c) (pc c) in
      (c {{ csr := csr' }}, l {{ pc_wdata := Some target }})
    else (c, raise XCAUSE_INSTR_ILLEGAL l)
  else if RVOPC_MATCH instr RVOPC_SFENCE_VMA then
    if negb (RVCSR.permit_sfence_vma (csr c)) then (c, raise XCAUSE_INSTR_ILLEGAL l)
    else (c, l) (* Otherwise nop. *)
  else if RVOPC_MATCH instr RVOPC_ECALL then
    (c, l {{ exception_cause := Some (XCAUSE_ECALL_U + RVCSR.get_true_priv (csr c));
             xtval_wdata := Some 0 }})
  else if RVOPC_MATCH instr RVOPC_EBREAK then
    (c, l {{ exception_cause := Some XCAUSE_EBREAK; xtval_wdata := Some 0 }})
  else if RVOPC_MATCH instr RVOPC_WFI then (c, l) (* implement as nop *)
  else (c, raise XCAUSE_INSTR_ILLEGAL l).

(** The 32-bit instruction branch of [step]: field extraction and
    [switch (opc)]. *)
Definition exec32 (c : RVCore D) (instr : Z) (l : StepLocals) : RVCore D * StepLocals :=
  let opc        := Z.land (shr32 instr 2) 0x1f in
  let funct3     := Z.land (shr32 instr 12) 0x7 in
  let funct7     := Z.land (shr32 instr 25) 0x7f in
  let regnum_rs1 := Z.land (shr32 instr 15) 0x1f in
  let regnum_rs2 := Z.land (shr32 instr 20) 0x1f in
  let l := l {{ regnum_rd := Z.land (shr32 instr 7) 0x1f }} in
  let rs1 := reg c regnum_rs1 in
  let rs2 := reg c regnum_rs2 in
  if opc =? OPC_OP then (c, exec_OP funct3 funct7 rs1 rs2 l)
  else if opc =? OPC_OP_IMM then (c, exec_OP_IMM instr funct3 funct7 regnum_rs2 rs1 l)
  else if opc =? OPC_BRANCH then (c, exec_BRANCH (pc c) instr funct3 rs1 rs2 l)
  else if opc =? OPC_LOAD then exec_LOAD c instr funct3 rs1 l
  else if opc =? OPC_STORE then exec_STORE c instr funct3 rs1 rs2 l
  else if opc =? OPC_AMO then exec_AMO c instr rs1 rs2 l
  else if opc =? OPC_MISC_MEM then (c, exec_MISC_MEM instr l)
  else if opc =? OPC_JAL then
    (c, l {{ rd_wdata := Some (add32 (pc c) 4);
             pc_wdata := Some (add32 (pc c) (imm_j instr)) }})
  else if opc =? OPC_JALR then
    (c, l {{ rd_wdata := Some (add32 (pc c) 4);
             pc_wdata := Some (Z.land (add32 rs1 (imm_i instr)) (wrap32 (-2))) }})
  else if opc =? OPC_LUI then (c, l {{ rd_wdata := Some (imm_u instr) }})
  else if opc =? OPC_AUIPC then (c, l {{ rd_wdata := Some (add32 (pc c) (imm_u instr)) }})
  else if opc =? OPC_SYSTEM then exec_SYSTEM c instr funct3 regnum_rs1 rs1 l
  else (c, raise XCAUSE_INSTR_ILLEGAL l).


(** The word load shared by [c.lw] and [c.lwsp]. *)
Definition c_load (c : RVCore D) (addr_v : Z) (l : StepLocals) : RVCore D * StepLocals :=
  let '(c, l) :=
    if nz (Z.land addr_v 0x3) then (c, raise XCAUSE_LOAD_ALIGN l)
    else
      let '(addr_p, c) := vmap_ls c addr_v PTE_R in
      match addr_p with
      | Some p =>
        let l := l {{ rd_wdata := MemBase32.r32 (mem c) p }} in
        if has_value (rd_wdata l) then (c, l) else (c, raise XCAUSE_LOAD_FAULT l)
      | None => (c, raise XCAUSE_LOAD_PAGEFAULT l)
      end in
  let l := if has_value (exception_cause l) then l {{ xtval_wdata := Some addr_v }} else l in
  (c, l).

(** The word store shared by [c.sw] and [c.swsp]. *)
Definition c_store (c : RVCore D) (addr_v data : Z) (l : StepLocals) : RVCore D * StepLocals :=
  let '(c, l) :=
    if nz (Z.land addr_v 0x3) then (c, raise XCAUSE_STORE_ALIGN l)
    else
      let '(addr_p, c) := vmap_ls c addr_v PTE_W in
      match addr_p with
      | Some p => bus_write c (MemBase32.w32 (mem c) p data) l
      | None => (c, raise XCAUSE_STORE_PAGEFAULT l)
      end in
  let l := if has_value (exception_cause l) then l {{ xtval_wdata := Some addr_v }} else l in
  (c, l).

(** RVC Quadrant 00 *)
Definition exec_rvc0 (c : RVCore D) (instr : Z) (l : StepLocals) : RVCore D * StepLocals :=
  if RVOPC_MATCH instr RVOPC_ILLEGAL16 then (c, raise XCAUSE_INSTR_ILLEGAL l)
  else if RVOPC_MATCH instr RVOPC_C_ADDI4SPN then
    (c, l {{ regnum_rd := c_rs2_s instr;
             rd_wdata := Some (add32 (add32 (add32 (add32 (reg c 2)
               (shl32 (GETBITS instr 12 11) 4))
               (shl32 (GETBITS instr 10 7) 6))
               (shl32 (GETBIT instr 6) 2))
               (shl32 (GETBIT instr 5) 3)) }})
  else if RVOPC_MATCH instr RVOPC_C_LW then
    let l := l {{ regnum_rd := c_rs2_s instr }} in
    let addr_v := add32 (add32 (add32 (reg c (c_rs1_s instr))
      (shl32 (GETBIT instr 6) 2))
      (shl32 (GETBITS instr 12 10) 3))
      (shl32 (GETBIT instr 5) 6) in
    c_load c addr_v l
  else if RVOPC_MATCH instr RVOPC_C_SW then
    let addr_v := add32 (add32 (add32 (reg c (c_rs1_s instr))
      (shl32 (GETBIT instr 6) 2))
      (shl32 (GETBITS instr 12 10) 3))
      (shl32 (GETBIT instr 5) 6) in
    c_store c addr_v (reg c (c_rs2_s instr)) l
  else (c, raise XCAUSE_INSTR_ILLEGAL l).

(** RVC Quadrant 01 *)
Definition exec_rvc1 (c : RVCore D) (instr : Z) (l : StepLocals) : StepLocals :=
  if RVOPC_MATCH instr RVOPC_C_ADDI then
    l {{ regnum_rd := c_rs1_l instr;
         rd_wdata := Some (add32 (reg c (c_rs1_l instr)) (imm_ci instr)) }}
  else if RVOPC_MATCH instr RVOPC_C_JAL then
    l {{ pc_wdata := Some (add32 (pc c) (imm_cj instr));
         regnum_rd := 1;
         rd_wdata := Some (add32 (pc c) 2) }}
  else if RVOPC_MATCH instr RVOPC_C_LI then
    l {{ regnum_rd := c_rs1_l instr; rd_wdata := Some (imm_ci instr) }}
  else if RVOPC_MATCH instr RVOPC_C_LUI then
    let l := l {{ regnum_rd := c_rs1_l instr }} in
    (* ADDI16SPN if rd is sp *)
    if regnum_rd l =? 2 then
      l {{ rd_wdata := Some (add32 (add32 (add32 (add32 (sub32 (reg c 2)
             (shl32 (GETBIT instr 12) 9))
             (shl32 (GETBIT instr 6) 4))
             (shl32 (GETBIT instr 5) 6))
             (shl32 (GETBITS instr 4 3) 7))
             (shl32 (GETBIT instr 2) 5)) }}
    else
      l {{ rd_wdata := Some (add32 (neg32 (shl32 (GETBIT instr 12) 17))
                                   (shl32 (GETBITS instr 6 2) 12)) }}
  else if RVOPC_MATCH instr RVOPC_C_SRLI then
    let l := l {{ regnum_rd := c_rs1_s instr }} in
    l {{ rd_wdata := Some (shr32 (reg c (regnum_rd l)) (GETBITS instr 6 2)) }}
  else if RVOPC_MATCH instr RVOPC_C_SRAI then
    let l := l {{ regnum_rd := c_rs1_s instr }} in
    l {{ rd_wdata := Some (sra32 (reg c (regnum_rd l)) (GETBITS instr 6 2)) }}
  else if RVOPC_MATCH instr RVOPC_C_ANDI then
    let l := l {{ regnum_rd := c_rs1_s instr }} in
    l {{ rd_wdata := Some (Z.land (reg c (regnum_rd l)) (imm_ci instr)) }}
  else if RVOPC_MATCH instr RVOPC_C_SUB then
    l {{ regnum_rd := c_rs1_s instr;
         rd_wdata := Some (sub32 (reg c (c_rs1_s instr)) (reg c (c_rs2_s instr))) }}
  else if RVOPC_MATCH instr RVOPC_C_XOR then
    l {{ regnum_rd := c_rs1_s instr;
         rd_wdata := Some (Z.lxor (reg c (c_rs1_s instr)) (reg c (c_rs2_s instr))) }}
  else if RVOPC_MATCH instr RVOPC_C_OR then
    l {{ regnum_rd := c_rs1_s instr;
         rd_wdata := Some (Z.lor (reg c (c_rs1_s instr)) (reg c (c_rs2_s instr))) }}
  else if RVOPC_MATCH instr RVOPC_C_AND then
    l {{ regnum_rd := c_rs1_s instr;
         rd_wdata := Some (Z.land (reg c (c_rs1_s instr)) (reg c (c_rs2_s instr))) }}
  else if RVOPC_MATCH instr RVOPC_C_J then
    l {{ pc_wdata := Some (add32 (pc c) (imm_cj instr)) }}
  else if RVOPC_MATCH instr RVOPC_C_BEQZ then
    if reg c (c_rs1_s instr) =? 0
    then l {{ pc_wdata := Some (add32 (pc c) (imm_cb instr)) }} else l
  else if RVOPC_MATCH instr RVOPC_C_BNEZ then
    if negb (reg c (c_rs1_s instr) =? 0)
    then l {{ pc_wdata := Some (add32 (pc c) (imm_cb instr)) }} else l
  else raise XCAUSE_INSTR_ILLEGAL l.

(** RVC Quadrant 10 *)
Definition exec_rvc2 (c : RVCore D) (instr : Z) (l : StepLocals) : RVCore D * StepLocals :=
  if RVOPC_MATCH instr RVOPC_C_SLLI then
    let l := l {{ regnum_rd := c_rs1_l instr }} in
    (c, l {{ rd_wdata := Some (shl32 (reg c (regnum_rd l)) (GETBITS instr 6 2)) }})
  else if RVOPC_MATCH instr RVOPC_C_MV then
    if c_rs2_l instr =? 0 then
      (* c.jr *)
      (c, l {{ pc_wdata := Some (Z.land (reg c (c_rs1_l instr)) (wrap32 (-2))) }})
    else
      (c, l {{ regnum_rd := c_rs1_l instr; rd_wdata := Some (reg c (c_rs2_l instr)) }})
  else if RVOPC_MATCH instr RVOPC_C_ADD then
    if c_rs2_l instr =? 0 then
      if c_rs1_l instr =? 0 then
        (* c.ebreak *)
        (c, l {{ exception_cause := Some XCAUSE_EBREAK; xtval_wdata := Some 0 }})
      else
        (* c.jalr *)
        (c, l {{ pc_wdata := Some (Z.land (reg c (c_rs1_l instr)) (wrap32 (-2)));
                 regnum_rd := 1;
                 rd_wdata := Some (add32 (pc c) 2) }})
    else
      (c, l {{ regnum_rd := c_rs1_l instr;
               rd_wdata := Some (add32 (reg c (c_rs1_l instr)) (reg c (c_rs2_l instr))) }})
  else if RVOPC_MATCH instr RVOPC_C_LWSP then
    let l := l {{ regnum_rd := c_rs1_l instr }} in
    let addr_v := add32 (add32 (add32 (reg c 2)
      (shl32 (GETBIT instr 12) 5))
      (shl32 (GETBITS instr 6 4) 2))
      (shl32 (GETBITS instr 3 2) 6) in
    c_load c addr_v l
  else if RVOPC_MATCH instr RVOPC_C_SWSP then
    let addr_v := add32 (add32 (reg c 2)
      (shl32 (GETBITS instr 12 9) 2))
      (shl32 (GETBITS instr 8 7) 6) in
    c_store c addr_v (reg c (c_rs2_l instr)) l
  else (c, raise XCAUSE_INSTR_ILLEGAL l).

(** The two halfword fetches that open [step]: both translations and both
    reads are made before the first halfword is looked at. *)
Definition fetch (c : RVCore D) : RVCore D * Fetched :=
  let '(fetch_paddr0, c) := vmap_fetch c (pc c) in
  let fetch0 :=
    match fetch_paddr0 with Some p => MemBase32.r16 (mem c) p | None => None end in
  let '(fetch_paddr1, c) := vmap_fetch c (add32 (pc c) 2) in
  let fetch1 :=
    match fetch_paddr1 with Some p => MemBase32.r16 (mem c) p | None => None end in
  (c, mkFetched fetch_paddr0 fetch0 fetch_paddr1 fetch1).

Definition locals0 : StepLocals :=
  {| rd_wdata := None; pc_wdata := None; exception_cause := None;
     xtval_wdata := None; regnum_rd := 0 |}.

(** The word [instr]: the first halfword below, the second above; each
    one read with [deref]. *)
Definition instr_of (f : Fetched) : Z :=
  Z.lor (deref (fetch0 f)) (shl32 (deref (fetch1 f)) 16).

(** The fetch-fault tests and the decode, up to the end of the last
    quadrant. *)
Definition execute (c : RVCore D) (f : Fetched) : RVCore D * StepLocals :=
  let l := locals0 in
  let instr := instr_of f in
  if negb (has_value (fetch_paddr0 f))
     || (has_value (fetch0 f) && (Z.land (deref (fetch0 f)) 0x3 =? 0x3)
         && negb (has_value (fetch_paddr1 f))) then
    (* Note xtval points to the virtual address which failed translation,
       which may be part way through the instruction if the instruction
       crosses a page boundary. *)
    (c, l {{ exception_cause := Some XCAUSE_INSTR_PAGEFAULT;
             xtval_wdata := Some (if has_value (fetch_paddr0 f)
                                  then add32 (pc c) 2 else pc c) }})
  else if negb (has_value (fetch0 f))
       || ((Z.land (deref (fetch0 f)) 0x3 =? 0x3) && negb (has_value (fetch1 f))) then
    (c, l {{ exception_cause := Some XCAUSE_INSTR_FAULT;
             xtval_wdata := Some (if nz (deref (fetch0 f))
                                  then add32 (pc c) 2 else pc c) }})
  else if Z.land instr 0x3 =? 0x3 then exec32 c instr l
  else if Z.land instr 0x3 =? 0x0 then exec_rvc0 c instr l
  else if Z.land instr 0x3 =? 0x1 then (c, exec_rvc1 c instr l)
  else exec_rvc2 c instr l.

(** The tail of [step]: trap entry or interrupt check, then the commit of
    [pc] and [rd], then the counters. *)
Definition writeback (c : RVCore D) (instr : Z) (l : StepLocals) : RVCore D :=
  let '(c, l) :=
    match exception_cause l with
    | Some cause =>
      let l :=
        if (cause =? XCAUSE_INSTR_ILLEGAL) && negb (has_value (xtval_wdata l))
        then l {{ xtval_wdata :=
                    Some (Z.land instr (if Z.land instr 0x3 =? 0x3
                                        then 0xffffffff else 0x0000ffff)) }}
        else l in
      let '(target, csr') := RVCSR.trap_enter_exception (csr c) cause (pc c) in
      let c := c {{ csr := csr' }} in
      let l := l {{ pc_wdata := Some target }} in
      let c := match xtval_wdata l with
               | Some xtval => c {{ csr := RVCSR.trap_set_xtval (csr c) xtval }}
               | None => c
               end in
      (c, l)
    | None =>
      let '(irq_target_pc, csr') :=
        RVCSR.trap_check_enter_irq (csr c)
          (match pc_wdata l with Some v => v | None => pc c end) in
      let c := c {{ csr := csr' }} in
      let l := if has_value irq_target_pc then l {{ pc_wdata := irq_target_pc }} else l in
      (c, l)
    end in
  let c :=
    match pc_wdata l with
    | Some v => c {{ pc := v }}
    | None => c {{ pc := add32 (pc c) (if Z.land instr 0x3 =? 0x3 then 4 else 2) }}
    end in
  let c :=
    match rd_wdata l with
    | Some v => if negb (regnum_rd l =? 0)
                then c {{ regs := <[Z.to_nat (regnum_rd l) := v]> (regs c) }} else c
    | None => c
    end in
  c {{ csr := RVCSR.step_counters (csr c) }}.

(** Fetch and execute one instruction from memory. *)
Definition step (c : RVCore D) : RVCore D :=
  let '(c, f) := fetch c in
  let '(c, l) := execute c f in
  writeback c (instr_of f) l.

End RVCore.
End RVCore.

(** ** mmio/mtimer.h: [struct MTimer]

    Standard RISC-V platform timer (ACLINT timer).  [mtime] and the
    entries of [mtimecmp] are [uint64_t]: a [Z] in the range [0, 2^64).
    [MTIMER_N_HARTS] has its default value. *)
Definition MTIMER_N_HARTS : Z := 1.

Module MTimer.

Record t : Type := mk { mtime : Z; mtimecmp : list Z }.

(** [MTimer()]: the loop runs once per hart and assigns [mtimecmp[0]]
    every time. *)
Definition init : t :=
  {| mtime := 0;
     mtimecmp := Nat.iter (Z.to_nat MTIMER_N_HARTS) (fun l => <[0%nat := wrap64 (-1)]> l)
                          (replicate (Z.to_nat MTIMER_N_HARTS) 0) |}.

Definition step_time (m : t) : t :=
  {| mtime := wrap64 (mtime m + 1); mtimecmp := mtimecmp m |}.

(** [assert(n < MTIMER_N_HARTS)] *)
Definition irq_status (m : t) (n : Z) : bool := mtimecmp m !!! Z.to_nat n <=? mtime m.

(** [mtimecmp[hart]] and [mtimecmp[hart] = v].  For the offsets 1..3 and
    5..7 the index [(addr >> 3) - 1] wraps to [2^32 - 1] and the C++ access
    is out of bounds; there the model reads 0 and writes nothing. *)
Definition cmp (m : t) (hart : Z) : Z := mtimecmp m !!! Z.to_nat hart.
Definition set_cmp (m : t) (hart v : Z) : t :=
  {| mtime := mtime m; mtimecmp := <[Z.to_nat hart := v]> (mtimecmp m) |}.

Definition w32 (m : t) (addr wdata : Z) : option t :=
  if addr =? 0 then
    Some {| mtime := Z.lor (Z.land (mtime m) 0xffffffff00000000) wdata;
            mtimecmp := mtimecmp m |}
  else if addr =? 4 then
    Some {| mtime := Z.lor (Z.land (mtime m) 0x00000000ffffffff) (wrap64 (Z.shiftl wdata 32));
            mtimecmp := mtimecmp m |}
  else if addr <? 8 * (MTIMER_N_HARTS + 1) then
    let hart := sub32 (shr32 addr 3) 1 in
    if nz (Z.land addr 0x4) then
      Some (set_cmp m hart (Z.lor (Z.land (cmp m hart) 0x00000000ffffffff)
                                  (wrap64 (Z.shiftl wdata 32))))
    else
      Some (set_cmp m hart (Z.lor (Z.land (cmp m hart) 0xffffffff00000000) wdata))
  else None.

Definition r32 (m : t) (addr : Z) : option Z :=
  if addr =? 0 then Some (Z.land (mtime m) 0xffffffff)
  else if addr =? 4 then Some (wrap32 (Z.shiftr (mtime m) 32))
  else if addr <? 8 * (MTIMER_N_HARTS + 1) then
    let hart := sub32 (shr32 addr 3) 1 in
    if nz (Z.land addr 0x4) then Some (wrap32 (Z.shiftr (cmp m hart) 32))
    else Some (Z.land (cmp m hart) 0xffffffff)
  else None.

End MTimer.

(** The timer overrides [w32] and [r32] only. *)
#[export] Instance MTimer_MemBase32 : MemBase32.t MTimer.t := {|
  MemBase32.r8  := fun _ _ => None;
  MemBase32.w8  := fun _ _ _ => None;
  MemBase32.r16 := fun _ _ => None;
  MemBase32.w16 := fun _ _ _ => None;
  MemBase32.r32 := MTimer.r32;
  MemBase32.w32 := MTimer.w32
|}.

(** ** mmio/uart8250.h: [struct UART8250]

    Mock of a standard 8250 UART.  Enough for OpenSBI to implement
    blocking putc/getc, but no IRQ support etc. *)
Definition UART_RBR_OFFSET : Z := 0. (* In:  Recieve Buffer Register *)
Definition UART_THR_OFFSET : Z := 0. (* Out: Transmitter Holding Register *)
Definition UART_DLL_OFFSET : Z := 0. (* Out: Divisor Latch Low *)
Definition UART_IER_OFFSET : Z := 1. (* I/O: Interrupt Enable Register *)
Definition UART_DLM_OFFSET : Z := 1. (* Out: Divisor Latch High *)
Definition UART_IIR_OFFSET : Z := 2. (* I/O: Interrupt Identification Register *)
Definition UART_LCR_OFFSET : Z := 3. (* Out: Line Control Register *)
Definition UART_MCR_OFFSET : Z := 4. (* Out: Modem Control Register *)
Definition UART_LSR_OFFSET : Z := 5. (* In:  Line Status Register *)
Definition UART_SCR_OFFSET : Z := 7. (* I/O: Scratch Register *)
Definition UART_LSR_TEMT : Z := 0x40. (* Transmitter empty *)
Definition UART_LSR_THRE : Z := 0x20. (* Transmit-hold-register empty *)
Definition UART_LCR_DLAB : Z := 0x80. (* Bank select for addrs 0, 1 *)

Module UART8250.

(** The seven [uint8_t] registers, and the characters handed to
    [putchar] so far, oldest first.  The struct has no constructor: the
    registers start with whatever the host object holds. *)
Record t : Type := mk {
  dll : Z; ier : Z; dlm : Z; iir : Z; lcr : Z; mcr : Z; scr : Z;
  out : list Z
}.

Definition w8 (u : t) (addr data : Z) : option t :=
  if (addr =? UART_THR_OFFSET) && negb (nz (Z.land (lcr u) UART_LCR_DLAB)) then
    Some (u {{ out := out u ++ [data] }})
  else if (addr =? UART_DLL_OFFSET) && nz (Z.land (lcr u) UART_LCR_DLAB) then
    Some (u {{ dll := data }})
  else if (addr =? UART_IER_OFFSET) && negb (nz (Z.land (lcr u) UART_LCR_DLAB)) then
    Some (u {{ ier := Z.land data 0xf }})
  else if (addr =? UART_DLM_OFFSET) && nz (Z.land (lcr u) UART_LCR_DLAB) then
    Some (u {{ dlm := data }})
  else if addr =? UART_LCR_OFFSET then Some (u {{ lcr := data }})
  else if addr =? UART_MCR_OFFSET then Some (u {{ mcr := data }})
  else if data =? UART_SCR_OFFSET then Some (u {{ scr := data }})
  else if UART_SCR_OFFSET <? addr then None
  else Some u.

Definition r8 (u : t) (addr : Z) : option Z :=
  if (addr =? UART_RBR_OFFSET) && negb (nz (Z.land (lcr u) UART_LCR_DLAB)) then Some 0
  else if (addr =? UART_DLL_OFFSET) && nz (Z.land (lcr u) UART_LCR_DLAB) then Some (dll u)
  else if (addr =? UART_IER_OFFSET) && negb (nz (Z.land (lcr u) UART_LCR_DLAB)) then Some (ier u)
  else if (addr =? UART_DLM_OFFSET) && nz (Z.land (lcr u) UART_LCR_DLAB) then Some (dlm u)
  else if addr =? UART_IIR_OFFSET then Some 0 (* TODO IRQs *)
  else if addr =? UART_LCR_OFFSET then Some (lcr u)
  else if addr =? UART_MCR_OFFSET then Some (mcr u)
  else if addr =? UART_LSR_OFFSET then
    (* We are always ready to accept new data. *)
    Some (Z.lor UART_LSR_TEMT UART_LSR_THRE)
  else if addr =? UART_SCR_OFFSET then Some (scr u)
  else Some 0.

End UART8250.

(** The UART overrides [w8] and [r8] only. *)
#[export] Instance UART8250_MemBase32 : MemBase32.t UART8250.t := {|
  MemBase32.r8  := UART8250.r8;
  MemBase32.w8  := UART8250.w8;
  MemBase32.r16 := fun _ _ => None;
  MemBase32.w16 := fun _ _ _ => None;
  MemBase32.r32 := fun _ _ => None;
  MemBase32.w32 := fun _ _ _ => None
|}.

(** ** Section 4.3 of the specification, in its own words

    The interrupt check as the specification states it, to be compared
    with [RVCSR.trap_check_enter_irq]. *)

(** "[effective_mip] is the software-written S-bits OR'd with the M/S
    interrupt lines driven by ([irq_s] -> S/M SIP, [irq_t] -> S/M TIP,
    [irq_e] -> S/M EIP)".  The S-bits are SSIP, STIP and SEIP; the
    software-written ones are those of the field that CSR writes to [mip]
    and [sip] store into. *)
Definition spec_S_bits : Z := Z.lor (Z.lor MIP_SSIP MIP_STIP) MIP_SEIP.
Definition spec_sw_S_bits (c : RVCSR) : Z := Z.land (xip c) spec_S_bits.
Definition spec_irq_lines (c : RVCSR) : Z :=
  Z.lor (Z.lor (if irq_s c then Z.lor MIP_SSIP MIP_MSIP else 0)
               (if irq_t c then Z.lor MIP_STIP MIP_MTIP else 0))
        (if irq_e c then Z.lor MIP_SEIP MIP_MEIP else 0).
Definition spec_effective_mip (c : RVCSR) : Z :=
  Z.lor (spec_sw_S_bits c) (spec_irq_lines c).

(** The class invariant behind "software-written S-bits": the private
    field [xip] holds S-bits only.  The constructor sets it to 0 and the
    only assignments to it, in [write], go through [MIP_W_MASK] or the
    delegated part of [SIP_MASK]. *)
Definition xip_software_bits (c : RVCSR) : Prop := Z.land (xip c) spec_S_bits = xip c.

(** [mie] is the value the CSR reads as. *)
Definition spec_mie (c : RVCSR) : Z := Z.land (xie c) RVCSR.MIE_R_MASK.
Definition spec_pending (c : RVCSR) : Z := Z.land (spec_effective_mip c) (spec_mie c).
Definition spec_pending_m (c : RVCSR) : Z := Z.land (spec_pending c) (Z.lnot (mideleg c)).
Definition spec_pending_s (c : RVCSR) : Z :=
  Z.land (Z.land (spec_pending c) (mideleg c)) RVCSR.SIP_MASK.
Definition spec_take_m_irq (c : RVCSR) : Prop :=
  spec_pending_m c <> 0 /\ (Z.land (xstatus c) MSTATUS_MIE <> 0 \/ priv c < PRV_M).
Definition spec_take_s_irq (c : RVCSR) : Prop :=
  spec_pending_s c <> 0 /\ priv c <= PRV_S
  /\ (Z.land (xstatus c) SSTATUS_SIE <> 0 \/ priv c < PRV_S).

(** [i] is the lowest set bit of [x]. *)
Definition lowest_set_bit (x i : Z) : Prop :=
  0 <= i /\ Z.testbit x i = true /\ forall j, 0 <= j < i -> Z.testbit x j = false.

(** ** Section 4.5, item 8 of the specification, in its own words

    The four divide and remainder results as the specification words them,
    to be compared with the [funct7 = 0000001] arm of [RVCore.exec_OP]. *)
Definition INT_MIN : Z := 0x80000000.
Definition ALL_ONES : Z := 0xffffffff.

(** "if divisor == 0, rd = -1; if signed overflow (rs1 = INT_MIN,
    rs2 = -1), rd = rs1; else signed quotient" *)
Definition spec_DIV (rs1 rs2 : Z) : Z :=
  if rs2 =? 0 then ALL_ONES
  else if (rs1 =? INT_MIN) && (rs2 =? ALL_ONES) then rs1
  else wrap32 (Z.quot (sx_t rs1) (sx_t rs2)).

(** "zero -> all-ones; else unsigned quotient" *)
Definition spec_DIVU (rs1 rs2 : Z) : Z :=
  if rs2 =? 0 then ALL_ONES else rs1 / rs2.

(** "zero -> rs1; overflow -> 0; else signed remainder" *)
Definition spec_REM (rs1 rs2 : Z) : Z :=
  if rs2 =? 0 then rs1
  else if (rs1 =? INT_MIN) && (rs2 =? ALL_ONES) then 0
  else wrap32 (Z.rem (sx_t rs1) (sx_t rs2)).

(** "zero -> rs1; else unsigned remainder" *)
Definition spec_REMU (rs1 rs2 : Z) : Z :=
  if rs2 =? 0 then rs1 else rs1 mod rs2.

(** ** Proof support *)

(** Case analysis on every [if] of the goal. *)
Ltac case_ifs :=
  repeat match goal with
  | |- context [if ?b then _ else _] => destruct b
  end.

(** Reduction of the locals and of the hart's projections through record
    updates, leaving the CSR engine folded. *)
Ltac wb_norm :=
  cbv beta iota zeta delta
    [apply_update constant rd_wdata pc_wdata exception_cause xtval_wdata regnum_rd
     has_value mem ram load_reserved regs negb andb].

(** Two harts that differ at most in what the bus and the RAM window hold:
    the Sv32 walk writes nothing else. *)
Definition same_hart {D : Type} (c c' : RVCore D) : Prop :=
  regs c' = regs c /\ pc c' = pc c /\ csr c' = csr c
  /\ load_reserved c' = load_reserved c
  /\ ram_base c' = ram_base c /\ ram_top c' = ram_top c.

(** A fetch that delivered both halfwords of a 32-bit instruction. *)
Definition fetched32 (f : Fetched) : Prop :=
  has_value (fetch_paddr0 f) = true /\ has_value (fetch0 f) = true
  /\ has_value (fetch_paddr1 f) = true /\ has_value (fetch1 f) = true
  /\ Z.land (RVCore.instr_of f) 0x3 = 0x3.

(** The register fields of a 32-bit instruction, as [step] extracts them. *)
Definition regnum_rs1_of (instr : Z) : Z := Z.land (shr32 instr 15) 0x1f.
Definition regnum_rs2_of (instr : Z) : Z := Z.land (shr32 instr 20) 0x1f.
Definition regnum_rd_of (instr : Z) : Z := Z.land (shr32 instr 7) 0x1f.


(** The addresses of the two PTEs of a walk, as [vmap_sv32] computes
    them. *)
Definition addr_of_pte1 (atp vaddr : Z) : Z := add32 atp (Z.land (shr32 vaddr 20) 0xffc).
Definition addr_of_pte0 (pte1 vaddr : Z) : Z :=
  Z.lor (Z.land (shl32 pte1 2) 0xfffff000) (Z.land (shr32 vaddr 10) 0xffc).



(** ** Section 4.3 of the specification: the table of W-masks

    The writable bits of every CSR that reads back the field a write
    stores into.  The table's other rows are not listed: [mip] and [sip]
    read the latched IRQ lines (and [sip] the delegation) together with
    the written bits, and [minstret] is the subject of a theorem of its
    own. *)
Definition spec_w_mask (n : csr_name) : option Z :=
  match n with
  | CSR_MSTATUS => Some RVCSR.MSTATUS_MASK
  | CSR_SSTATUS => Some RVCSR.SSTATUS_MASK
  | CSR_MIE => Some RVCSR.ALL_MIP_BITS
  | CSR_SIE => Some RVCSR.SIP_MASK
  | CSR_MTVEC | CSR_STVEC => Some 0xfffffffd
  | CSR_MEPC | CSR_SEPC => Some 0xfffffffe
  | CSR_MCAUSE | CSR_SCAUSE => Some 0x800000ff
  | CSR_MCOUNTEREN | CSR_SCOUNTEREN => Some 0x7
  | CSR_SATP => Some (not32 SATP32_ASID)
  | CSR_MSCRATCH | CSR_MTVAL | CSR_MEDELEG | CSR_MIDELEG
  | CSR_MCYCLE | CSR_MCYCLEH | CSR_MINSTRETH
  | CSR_SSCRATCH | CSR_STVAL => Some 0xffffffff
  | _ => None
  end.

(** The 64-bit counters, from their halves. *)
Definition mcycle64 (c : RVCSR) : Z := mcycleh c * 2 ^ 32 + mcycle c.
Definition minstret64 (c : RVCSR) : Z := minstreth c * 2 ^ 32 + minstret c.

(** What [execute] leaves alone: the register file, the PC and the RAM
    window are only written by the commit at the end of [step]. *)
Definition exec_frame {D : Type} (c c' : RVCore D) : Prop :=
  regs c' = regs c /\ pc c' = pc c /\ ram_base c' = ram_base c /\ ram_top c' = ram_top c.

(** Case analysis along an executor, innermost test first: [tac] runs
    before every split, then one [if], one [match] on an option or one
    destructuring [let] is split. *)
Ltac split_cases_with tac :=
  repeat first
    [ progress cbv beta iota zeta
    | tac
    | match goal with
      | |- context [if ?b then _ else _] =>
          lazymatch b with
          | context [if _ then _ else _] => fail
          | _ => destruct b
          end
      | |- context [match ?x with Some _ => _ | None => _ end] =>
          lazymatch x with
          | context [if _ then _ else _] => fail
          | context [match _ with Some _ => _ | None => _ end] => fail
          | _ => destruct x
          end
      | |- context [match ?x with pair _ _ => _ end] =>
          lazymatch x with
          | context [if _ then _ else _] => fail
          | context [match _ with Some _ => _ | None => _ end] => fail
          | _ => destruct x
          end
      end ].

(** The hart after an executor is in [exec_frame] with the hart before:
    [vmap_fact] is the frame lemma of the load/store translation, and the
    remaining updates are closed from the [exec_frame] hints. *)
Create HintDb exec_frame.
Create HintDb rd_nonneg.
Create Rewrite HintDb xstatus_bits.
Ltac frame_cases_with vmap_fact :=
  split_cases_with
    ltac:(idtac;
          match goal with
          | |- context [RVCore.vmap_ls ?c ?v ?p] =>
              let Hv := fresh "Hv" in
              pose proof (vmap_fact c v p) as Hv;
              destruct (RVCore.vmap_ls c v p) as [? ?]; cbn [snd] in Hv
          end);
  cbn [fst]; auto 8 with exec_frame.

(** The destination register number after an executor that does not
    assign it. *)
Ltac rd_cases := split_cases_with ltac:(fail); reflexivity.

(** [k] mentions no variable. *)
Ltac closed_term k :=
  tryif (match k with context [?v] => is_var v end) then fail else idtac.

(** The bits of [xstatus] after [&= ~mask] and [|= mask]: the bitwise
    operations are pushed to the bits, and the bits of the masks are
    evaluated. *)
Ltac xstatus_bits :=
  autorewrite with xstatus_bits;
  repeat match goal with
  | |- context [Z.testbit ?k ?i] =>
      closed_term k;
      let b := eval vm_compute in (Z.testbit k i) in
      change (Z.testbit k i) with b
  end;
  cbn [negb andb orb];
  rewrite ?andb_true_r, ?andb_false_r, ?orb_false_r, ?orb_true_r.

(** ** Well-formed devices

    What the constructors establish and the [assert]s require. *)

(** A [FlatMem32] as [FlatMem32(size_)] builds it: a whole number of
    words, and an array of that many. *)
Definition flat_wf (m : FlatMem32.t) : Prop :=
  0 <= FlatMem32.size m < 2 ^ 32 /\ FlatMem32.size m mod 4 = 0
  /\ length (FlatMem32.mem m) = Z.to_nat (Z.shiftr (FlatMem32.size m) 2).

(** The RAM window as [RVCore(...)] builds it: word aligned, not
    wrapping, with one array entry per word. *)
Definition ram_wf {D : Type} (c : RVCore D) : Prop :=
  0 <= ram_base c /\ ram_base c <= ram_top c /\ ram_top c < 2 ^ 32
  /\ ram_base c mod 4 = 0 /\ ram_top c mod 4 = 0
  /\ length (ram c) = Z.to_nat ((ram_top c - ram_base c) / 4).

(** A region table whose bases and sizes are [uint32_t]. *)
Definition memmap_wf {D : Type} (mm : list (Z * Z * D)) : Prop :=
  Forall (fun r => 0 <= r.1.1 < 2 ^ 32 /\ 0 <= r.1.2 < 2 ^ 32) mm.

(** The region [(base, size)] holds [addr]: the test of [map_addr] on
    32-bit values, where [base + size] must not wrap. *)
Definition region_holds (base size addr : Z) : Prop :=
  base <= addr < base + size /\ base + size < 2 ^ 32.

(** A timer with one comparator per hart, all registers 64 bits wide. *)
Definition mtimer_wf (m : MTimer.t) : Prop :=
  0 <= MTimer.mtime m < 2 ^ 64
  /\ length (MTimer.mtimecmp m) = Z.to_nat MTIMER_N_HARTS
  /\ Forall (fun v => 0 <= v < 2 ^ 64) (MTimer.mtimecmp m).

(** The stores of the bytes [cs], one after another, to the same address
    of a device; [None] as soon as one of them is refused. *)
Definition store_bytes {D : Type} `{MemBase32.t D} (d : D) (addr : Z) (cs : list Z) : option D :=
  fold_left (fun o ch => match o with Some d => MemBase32.w8 d addr ch | None => None end)
            cs (Some d).

(** Two UART states with the same seven registers. *)
Definition same_uart_regs (u u' : UART8250.t) : Prop :=
  UART8250.dll u' = UART8250.dll u /\ UART8250.ier u' = UART8250.ier u
  /\ UART8250.dlm u' = UART8250.dlm u /\ UART8250.iir u' = UART8250.iir u
  /\ UART8250.lcr u' = UART8250.lcr u /\ UART8250.mcr u' = UART8250.mcr u
  /\ UART8250.scr u' = UART8250.scr u.

(** The field [x[hi:lo]] of an instruction word, as a number. *)
Definition field (x hi lo : Z) : Z := (x / 2 ^ lo) mod 2 ^ (hi - lo + 1).

(** The exception PCs of a CSR state are even, and so is every PC the
    locals hold to be written. *)
Definition epc_even (s : RVCSR) : Prop :=
  Z.even (mepc s) = true /\ Z.even (sepc s) = true.
Definition pcw_even (l : StepLocals) : Prop :=
  forall v, pc_wdata l = Some v -> Z.even v = true.

(** IALIGN = 16: the PC and both exception PCs are multiples of 2. *)
Definition pc_aligned {D : Type} (c : RVCore D) : Prop :=
  Z.even (pc c) = true /\ epc_even (csr c).

(** Two harts with the same CSR state. *)
Definition csr_frame {D : Type} (c c' : RVCore D) : Prop := csr c' = csr c.

(** What [execute] hands to the commit, as far as alignment goes. *)
Definition aligned_out {D : Type} (r : RVCore D * StepLocals) : Prop :=
  epc_even (csr (fst r)) /\ pcw_even (snd r).

(** What a CSR write from S-mode must leave alone: the privilege, the
    machine-level registers, and the bits of [xstatus], [xie] and [xip]
    outside the supervisor views. *)
Definition machine_state_kept (s s' : RVCSR) : Prop :=
  priv s' = priv s
  /\ mtvec s' = mtvec s /\ mtval s' = mtval s /\ mscratch s' = mscratch s
  /\ mepc s' = mepc s /\ mcause s' = mcause s
  /\ medeleg s' = medeleg s /\ mideleg s' = mideleg s
  /\ mcounteren s' = mcounteren s
  /\ mcycle s' = mcycle s /\ mcycleh s' = mcycleh s
  /\ minstret s' = minstret s /\ minstreth s' = minstreth s
  /\ Z.land (xstatus s') (not32 RVCSR.SSTATUS_MASK)
     = Z.land (xstatus s) (not32 RVCSR.SSTATUS_MASK)
  /\ Z.land (xie s') (not32 RVCSR.SIP_MASK) = Z.land (xie s) (not32 RVCSR.SIP_MASK)
  /\ Z.land (xip s') (not32 (Z.land RVCSR.SIP_MASK (mideleg s)))
     = Z.land (xip s) (not32 (Z.land RVCSR.SIP_MASK (mideleg s))).

(** A CSR state right after a trap taken from U-mode: the hart is in M
    with MPP = U, or in S with SPP = U. *)
Definition entered_from_U (s : RVCSR) : Prop :=
  (priv s = PRV_M /\ GETBITS (xstatus s) 12 11 = PRV_U)
  \/ (priv s = PRV_S /\ GETBIT (xstatus s) 8 = PRV_U).

(** ** Machines for the examples

    The test bench of the older driver: one [FlatMem32] holding the
    program image, added to a [MemMap32] at [RAM_BASE]; the hart is
    constructed on that map with an empty RAM window. *)
Definition RAM_BASE : Z := 0x80000000.

Definition flat_image (size : Z) (image : list Z) : FlatMem32.t :=
  {| FlatMem32.size := size;
     FlatMem32.mem := image ++ replicate (Z.to_nat (Z.shiftr size 2) - length image) 0 |}.

Definition tb_mem (size : Z) (image : list Z) : MemMap32.t (D := FlatMem32.t) :=
  MemMap32.add RAM_BASE size (flat_image size image) [].

Definition tb_core (size : Z) (image : list Z) : RVCore (MemMap32.t (D := FlatMem32.t)) :=
  RVCore.init (tb_mem size image) RAM_BASE 0 0.

(** [regs[i] = v], for setting a machine up. *)
Definition set_reg {D : Type} (i v : Z) (c : RVCore D) : RVCore D :=
  c {{ regs := <[Z.to_nat i := v]> (regs c) }}.

(** [sc.w x5, x6, (x7)] twice, with [x6 = 0xdead], [x7 = 0x80000100] and
    the reservation held, as after an [lr.w]. *)
Definition SC_W_x5_x6_x7 : Z := 0x1863a2af.
Definition sc_hart : RVCore (MemMap32.t (D := FlatMem32.t)) :=
  (set_reg 7 0x80000100 (set_reg 6 0xdead (tb_core 0x200 [SC_W_x5_x6_x7; SC_W_x5_x6_x7])))
    {{ load_reserved := true }}.

(** A hart in M-mode about to execute [addi x1, x1, 1] at [RAM_BASE],
    with the machine timer interrupt pending and enabled
    ([mstatus.MIE = 1], [mie.MTIE = 1], the timer line asserted) and
    [mtvec = 0x80000100]. *)
Definition ADDI_x1_x1_1 : Z := 0x00108093.
Definition irq_hart : RVCore (MemMap32.t (D := FlatMem32.t)) :=
  let c := tb_core 0x200 [ADDI_x1_x1_1] in
  c {{ csr := RVCSR.set_irq_t true
                (csr c) {{ xstatus := MSTATUS_MIE }} {{ xie := MIP_MTIP }}
                        {{ mtvec := 0x80000100 }} }}.

(** M-mode CSR states for the trap entry and return examples: interrupts
    enabled with no previous enable saved ([MIE = 1], [MPIE = 0]), and the
    converse ([MIE = 0], [MPIE = 1]). *)
Definition csr_MIE_only : RVCSR := RVCSR.reset {{ xstatus := MSTATUS_MIE }}.
Definition csr_MPIE_only : RVCSR := RVCSR.reset {{ xstatus := MSTATUS_MPIE }}.
(** S-mode with [SIE = 0], [SPIE = 1], and illegal-instruction exceptions
    delegated to S. *)
Definition csr_SPIE_only : RVCSR :=
  RVCSR.reset {{ priv := PRV_S }} {{ xstatus := SSTATUS_SPIE }}
              {{ medeleg := Z.shiftl 1 XCAUSE_INSTR_ILLEGAL }}.

Module RomMem32.

(** A bus device for the examples, not one of the sources': a read-only
    memory.  It is a [MemBase32] that overrides the three read methods the
    way [FlatMem32] does and keeps the write methods of the base class,
    which return [false]. *)
Record t : Type := mk { words : list Z }.

Definition r32 (m : t) (addr : Z) : option Z :=
  if negb (addr mod 4 =? 0) then None else words m !! Z.to_nat (Z.shiftr addr 2).

Definition r16 (m : t) (addr : Z) : option Z :=
  if negb (addr mod 2 =? 0) then None else
  match words m !! Z.to_nat (Z.shiftr addr 2) with
  | Some w => Some (Z.land (shr32 w (8 * Z.land addr 0x2)) 0xffff)
  | None => None
  end.

Definition r8 (m : t) (addr : Z) : option Z :=
  match words m !! Z.to_nat (Z.shiftr addr 2) with
  | Some w => Some (Z.land (shr32 w (8 * Z.land addr 0x3)) 0xff)
  | None => None
  end.

End RomMem32.

#[export] Instance RomMem32_MemBase32 : MemBase32.t RomMem32.t := {|
  MemBase32.r8 := RomMem32.r8;
  MemBase32.w8 := fun _ _ _ => None;
  MemBase32.r16 := RomMem32.r16;
  MemBase32.w16 := fun _ _ _ => None;
  MemBase32.r32 := RomMem32.r32;
  MemBase32.w32 := fun _ _ _ => None
|}.

(** The reset hart on a ROM whose first word is [amoadd.w x5, x0, (x0)]:
    the AMO reads address 0 (the instruction word itself) and its write
    is refused by the bus. *)
Definition AMOADD_W_x5_x0_x0 : Z := 0x000022af.
Definition rom_amo_hart : RVCore RomMem32.t :=
  RVCore.init (RomMem32.mk [AMOADD_W_x5_x0_x0]) 0 0 0.


(** The same at the second level: the root entry points to a table at
    [RAM_BASE + 0x1000] whose first entry is a 4 KiB leaf mapping virtual 0
    to [RAM_BASE] with V, W, A and D set and R clear. *)
Definition PTE1_pointer : Z := 0x20000401.

(** An S-mode hart under Sv32 about to execute [c.nop] in the last
    halfword of a page.  The root table at [RAM_BASE] points to a
    second-level table at [RAM_BASE + 0x1000]; its entry 0 maps virtual
    page 0 to [RAM_BASE + 0x2000] (V, X and A set) and its entry 1 maps
    virtual page 1 to [RAM_BASE + 0x3000] (V and X set, A still clear).
    [pc = 0xffe], so [pc + 2] lies in virtual page 1. *)
Definition PTE0_page0 : Z := 0x20000849.
Definition PTE0_page1 : Z := 0x20000c09.
Definition C_NOP_high : Z := 0x00010000.
Definition page_end_hart : RVCore (MemMap32.t (D := FlatMem32.t)) :=
  let image := [PTE1_pointer] ++ replicate 1023 0
               ++ [PTE0_page0; PTE0_page1] ++ replicate 1022 0
               ++ replicate 1023 0 ++ [C_NOP_high] in
  let c := tb_core 0x3100 image in
  c {{ pc := 0xffe }}
    {{ csr := (csr c) {{ priv := PRV_S }} {{ satp := Z.lor SATP32_MODE 0x80000 }} }}.

(** ** The end-to-end scenarios of section 8

    [steps n] is the driver's loop body [core.step(mem)], [n] times. *)
Definition steps {D : Type} `{MemBase32.t D} (n : nat) (c : RVCore D) : RVCore D :=
  Nat.iter n RVCore.step c.

(** 1. [addi x1, x0, -1; addi x2, x1, 1] *)
Definition ADDI_x1_x0_m1 : Z := 0xfff00093.
Definition ADDI_x2_x1_1 : Z := 0x00108113.
Definition scenario1 : RVCore (MemMap32.t (D := FlatMem32.t)) :=
  tb_core 0x100 [ADDI_x1_x0_m1; ADDI_x2_x1_1].

(** 2. [li a0, 0xdead] (as [lui a0, 0xe; addi a0, a0, -339]);
    [sw a0, 0(sp); lw a1, 0(sp)] at [sp = 0x80001000] *)
Definition LUI_a0_0xe : Z := 0x0000e537.
Definition ADDI_a0_a0_m339 : Z := 0xead50513.
Definition SW_a0_0_sp : Z := 0x00a12023.
Definition LW_a1_0_sp : Z := 0x00012583.
Definition scenario2 : RVCore (MemMap32.t (D := FlatMem32.t)) :=
  set_reg 2 0x80001000
    (tb_core 0x1100 [LUI_a0_0xe; ADDI_a0_a0_m339; SW_a0_0_sp; LW_a1_0_sp]).

(** 3. [csrrs t0, mstatus, x0] immediately after reset; [t0] holds
    all-ones before, so that the write of 0 shows. *)
Definition CSRRS_t0_mstatus_x0 : Z := 0x300022f3.
Definition scenario3 : RVCore (MemMap32.t (D := FlatMem32.t)) :=
  set_reg 5 0xffffffff (tb_core 0x100 [CSRRS_t0_mstatus_x0]).

(** 4. The illegal instruction [0x00000000] at [pc = 0x80000000], with
    [mtvec = 0x80000040]. *)
Definition scenario4 : RVCore (MemMap32.t (D := FlatMem32.t)) :=
  let c := tb_core 0x100 [0] in
  c {{ csr := (csr c) {{ mtvec := 0x80000040 }} }}.

(** 5. [ecall] from U-mode with [medeleg[8] = 1] and
    [stvec = 0x80000040]. *)
Definition ECALL : Z := 0x00000073.
Definition scenario5 : RVCore (MemMap32.t (D := FlatMem32.t)) :=
  let c := tb_core 0x100 [ECALL] in
  c {{ csr := (csr c) {{ priv := PRV_U }} {{ medeleg := 0x100 }} {{ stvec := 0x80000040 }} }}.

(** 6. [lr.w x5, (x7); sc.w x5, x6, (x7); sc.w x5, x6, (x7)] with
    [x7 = 0x80002000] and [x6 = 0xdead]. *)
Definition LR_W_x5_x7 : Z := 0x1003a2af.
Definition scenario6 : RVCore (MemMap32.t (D := FlatMem32.t)) :=
  set_reg 7 0x80002000
    (set_reg 6 0xdead (tb_core 0x2100 [LR_W_x5_x7; SC_W_x5_x6_x7; SC_W_x5_x6_x7])).

(** The S-mode hart of [sv32_store_hart] with a misaligned superpage: the
    root entry is a leaf with V, R, W, X, A and D set whose PPN has bit 0
    set (PTE bit 10). *)
Definition PTE1_misaligned : Z := 0x200004cf.
Definition sv32_misaligned_hart : RVCore (MemMap32.t (D := FlatMem32.t)) :=
  let c := tb_core 0x200 [PTE1_misaligned] in
  c {{ csr := (csr c) {{ priv := PRV_S }} {{ satp := Z.lor SATP32_MODE 0x80000 }} }}.

(** ** Machines for the memory and device examples *)

(** A 16-byte [FlatMem32] holding the word [0x11223344] at offset 4. *)
Definition flat16 : FlatMem32.t := flat_image 16 [0; 0x11223344].

(** Two overlapping regions: 256 bytes at [0x1000] and 256 bytes at
    [0x1080], each backed by a [FlatMem32]. *)
Definition two_regions : MemMap32.t (D := FlatMem32.t) :=
  MemMap32.add 0x1080 0x100 (FlatMem32.init 0x100)
    (MemMap32.add 0x1000 0x100 (FlatMem32.init 0x100) []).

(** A hart with a 64-byte RAM window at [RAM_BASE], in front of a bus that
    is a single 16-byte [FlatMem32]. *)
Definition ram_hart : RVCore FlatMem32.t :=
  RVCore.init (FlatMem32.init 16) RAM_BASE RAM_BASE 0x40.

(** A UART with all registers zero and nothing sent. *)
Definition uart0 : UART8250.t := UART8250.mk 0 0 0 0 0 0 0 [].

(** [beq x0, x0, +8] and [c.j +0]. *)
Definition BEQ_x0_x0_8 : Z := 0x00000463.
Definition C_J_0 : Z := 0xa001.

(** The CSR state after reset, in U-mode and in S-mode. *)
Definition csr_user : RVCSR := RVCSR.reset {{ priv := PRV_U }}.
Definition csr_supervisor : RVCSR := RVCSR.reset {{ priv := PRV_S }}.

(** * Properties

    ** The interrupt check: [RVCSR.trap_check_enter_irq] against section 4.3 *)

Lemma nz_true x : nz x = true <-> x <> 0.
Proof. unfold nz. rewrite negb_true_iff, Z.eqb_neq. tauto. Qed.

Lemma nz_false x : nz x = false <-> x = 0.
Proof. unfold nz. rewrite negb_false_iff, Z.eqb_eq. tauto. Qed.

Lemma land_mask_range x m : 0 <= m -> 0 <= Z.land x m <= m.
Proof.
  intros Hm. split.
  - apply Z.land_nonneg. right; assumption.
  - assert (Hd : Z.ldiff (Z.land x m) m = 0).
    { apply Z.bits_inj'. intros n Hn.
      rewrite Z.ldiff_spec, Z.land_spec, Z.bits_0.
      destruct (Z.testbit x n), (Z.testbit m n); reflexivity. }
    pose proof (Z.sub_nocarry_ldiff _ _ Hd) as Hs.
    assert (0 <= Z.ldiff m (Z.land x m)) by (apply Z.ldiff_nonneg; left; assumption).
    lia.
Qed.

Lemma ctz_from_spec fuel : forall i x,
  0 <= i ->
  (exists k, i <= k < i + Z.of_nat fuel /\ Z.testbit x k = true) ->
  Z.testbit x (RVCSR.ctz_from fuel i x) = true /\
  i <= RVCSR.ctz_from fuel i x /\
  forall j, i <= j < RVCSR.ctz_from fuel i x -> Z.testbit x j = false.
Proof.
  induction fuel as [|fuel IH]; intros i x Hi [k [Hk Hb]].
  - lia.
  - simpl. destruct (Z.testbit x i) eqn:Hxi.
    + repeat split; [assumption | lia | intros; lia].
    + destruct (IH (i + 1) x ltac:(lia)) as (H1 & H2 & H3).
      { exists k. split; [|assumption].
        assert (k <> i) by (intros ->; congruence). lia. }
      repeat split; [assumption | lia |].
      intros j Hj. destruct (Z.eq_dec j i) as [->|]; [assumption|]. apply H3. lia.
Qed.

Lemma ctz_lowest x : 0 < x < 2 ^ 32 -> lowest_set_bit x (RVCSR.ctz x).
Proof.
  intros Hx. unfold RVCSR.ctz, lowest_set_bit.
  destruct (ctz_from_spec 32 0 x ltac:(lia)) as (H1 & H2 & H3).
  { exists (Z.log2 x). split.
    - pose proof (Z.log2_nonneg x). 
      assert (Z.log2 x < 32) by (apply Z.log2_lt_pow2; lia). lia.
    - apply Z.bit_log2. lia. }
  auto.
Qed.

Lemma wrap32_land x : wrap32 x = Z.land x (Z.ones 32).
Proof. unfold wrap32. rewrite Z.land_ones by lia. reflexivity. Qed.

Lemma land_wrap32_r p y : 0 <= p < 2 ^ 32 -> Z.land p (wrap32 y) = Z.land p y.
Proof.
  intros Hp. rewrite wrap32_land, (Z.land_comm y), Z.land_assoc.
  rewrite Z.land_ones by lia. rewrite Z.mod_small by lia. reflexivity.
Qed.

(** On a state that keeps the class invariant, the code's effective
    [xip] is the specification's [effective_mip]. *)
Lemma effective_xip_spec c :
  xip_software_bits c -> RVCSR.get_effective_xip c = spec_effective_mip c.
Proof.
  unfold xip_software_bits, RVCSR.get_effective_xip, spec_effective_mip, spec_sw_S_bits,
    spec_irq_lines.
  intros ->. destruct (irq_s c), (irq_t c), (irq_e c);
    rewrite <- ?Z.lor_assoc; f_equal; reflexivity.
Qed.

(** The invariant is established by the constructor and kept by every
    method of the class that changes the state. *)
Lemma xip_software_bits_write (c c' : RVCSR) (addr data op : Z) :
  RVCSR.write c addr data op = Some c' -> xip_software_bits c -> xip_software_bits c'.
Proof.
  unfold RVCSR.write, xip_software_bits. intros Hw Hx.
  destruct ((shl32 1 12 <=? addr) || (priv c <? GETBITS addr 9 8)
            || (GETBITS addr 11 10 =? 3)); [discriminate|].
  cbv zeta in Hw.
  match type of Hw with
  | match ?r with Some _ => _ | None => _ end = _ => destruct r as [d|]; [|discriminate]
  end.
  assert (Hk : forall m, Z.land m spec_S_bits = m ->
            Z.land (Z.lor (Z.land d m) (Z.land (xip c) (not32 m))) spec_S_bits
            = Z.lor (Z.land d m) (Z.land (xip c) (not32 m))).
  { intros m Hm. rewrite Z.land_lor_distr_l. f_equal.
    - rewrite <- Z.land_assoc, Hm. reflexivity.
    - rewrite (Z.land_comm (xip c)), <- Z.land_assoc, Hx. reflexivity. }
  destruct (csr_decode addr) as [n|]; [|discriminate].
  destruct n; try discriminate;
    try (destruct (_ || _) in Hw; [|discriminate]);
    injection Hw as <-;
    cbv beta iota zeta delta [apply_update constant xip mideleg];
    first [ exact Hx | apply Hk ].
  - reflexivity.
  - rewrite <- Z.land_assoc, (Z.land_comm (mideleg c)), Z.land_assoc.
    f_equal.
Qed.

Lemma xip_software_bits_kept (c : RVCSR) (cause xepc p v : Z) (b : bool) :
  xip_software_bits RVCSR.reset
  /\ (xip_software_bits c ->
      xip_software_bits (RVCSR.step_counters c)
      /\ xip_software_bits (snd (RVCSR.trap_enter_at_priv c cause xepc p))
      /\ xip_software_bits (snd (RVCSR.trap_enter_exception c cause xepc))
      /\ xip_software_bits (snd (RVCSR.trap_check_enter_irq c xepc))
      /\ xip_software_bits (snd (RVCSR.trap_mret c))
      /\ xip_software_bits (snd (RVCSR.trap_sret c xepc))
      /\ xip_software_bits (RVCSR.trap_set_xtval c v)
      /\ xip_software_bits (RVCSR.set_irq_t b c)
      /\ xip_software_bits (RVCSR.set_irq_s b c)
      /\ xip_software_bits (RVCSR.set_irq_e b c)).
Proof.
  split; [reflexivity|]. intros Hx.
  assert (He : forall k e q, xip_software_bits (snd (RVCSR.trap_enter_at_priv c k e q))).
  { intros k e q. unfold RVCSR.trap_enter_at_priv. cbv zeta. case_ifs; exact Hx. }
  assert (Hex : forall k e, xip_software_bits (snd (RVCSR.trap_enter_exception c k e))).
  { intros k e. unfold RVCSR.trap_enter_exception. cbv zeta. apply He. }
  repeat split.
  - destruct c; exact Hx.
  - apply He.
  - apply Hex.
  - unfold RVCSR.trap_check_enter_irq. cbv zeta.
    repeat match goal with
    | |- context [if ?t then _ else _] =>
        lazymatch t with
        | context [if _ then _ else _] => fail
        | _ => destruct t
        end
    end;
    try match goal with |- context [RVCSR.trap_enter_at_priv c ?k ?e ?q] =>
      pose proof (He k e q) as Hq; destruct (RVCSR.trap_enter_at_priv c k e q) end;
    first [ exact Hq | exact Hx ].
  - unfold RVCSR.trap_mret. cbv zeta. case_ifs; exact Hx.
  - unfold RVCSR.trap_sret. destruct (_ && _); [apply Hex|].
    cbv zeta. case_ifs; exact Hx.
  - unfold RVCSR.trap_set_xtval. destruct (priv c =? PRV_S); destruct c; exact Hx.
  - destruct c; exact Hx.
  - destruct c; exact Hx.
  - destruct c; exact Hx.
Qed.

Lemma m_targeted_spec c :
  xip_software_bits c ->
  Z.land (Z.land (Z.land (RVCSR.get_effective_xip c) (xie c)) RVCSR.MIP_R_MASK)
         (not32 (mideleg c)) = spec_pending_m c.
Proof.
  intros Hx. rewrite (effective_xip_spec c Hx).
  unfold not32, spec_pending_m, spec_pending, spec_mie.
  rewrite land_wrap32_r.
  2:{ change RVCSR.MIP_R_MASK with 2730.
      pose proof (land_mask_range (Z.land (spec_effective_mip c) (xie c)) 2730
                    ltac:(lia)) as Hr. lia. }
  f_equal. change RVCSR.MIE_R_MASK with RVCSR.MIP_R_MASK.
  rewrite Z.land_assoc. reflexivity.
Qed.

Lemma s_targeted_spec c :
  xip_software_bits c ->
  Z.land (Z.land (Z.land (RVCSR.get_effective_xip c) (xie c)) RVCSR.SIP_MASK)
         (mideleg c) = spec_pending_s c.
Proof.
  intros Hx. rewrite (effective_xip_spec c Hx).
  unfold spec_pending_s, spec_pending, spec_mie.
  change RVCSR.MIE_R_MASK with RVCSR.MIP_R_MASK.
  apply Z.bits_inj'. intros n Hn. rewrite !Z.land_spec.
  destruct (Z.testbit RVCSR.SIP_MASK n) eqn:Hs.
  - assert (Hm : Z.testbit RVCSR.MIP_R_MASK n = true).
    { revert Hs. change RVCSR.SIP_MASK with (Z.land RVCSR.SIP_MASK RVCSR.MIP_R_MASK).
      rewrite Z.land_spec. intros Hs. apply andb_true_iff in Hs. tauto. }
    rewrite Hm. destruct (Z.testbit (spec_effective_mip c) n), (Z.testbit (xie c) n), (Z.testbit (mideleg c) n); reflexivity.
  - rewrite !andb_false_r. reflexivity.
Qed.

Lemma spec_pending_range c : 0 <= spec_pending c <= 2730.
Proof.
  unfold spec_pending.
  assert (Hm : 0 <= spec_mie c <= 2730).
  { unfold spec_mie. change RVCSR.MIE_R_MASK with 2730. apply land_mask_range. lia. }
  pose proof (land_mask_range (spec_effective_mip c) (spec_mie c) (proj1 Hm)). lia.
Qed.

Lemma spec_pending_m_range c : 0 <= spec_pending_m c < 2 ^ 32.
Proof.
  unfold spec_pending_m. pose proof (spec_pending_range c) as Hp.
  pose proof (land_mask_range (Z.lnot (mideleg c)) _ (proj1 Hp)) as Hr.
  rewrite Z.land_comm in Hr. lia.
Qed.

Lemma spec_pending_s_range c : 0 <= spec_pending_s c < 2 ^ 32.
Proof.
  unfold spec_pending_s.
  pose proof (land_mask_range (Z.land (spec_pending c) (mideleg c)) 546 ltac:(lia)) as Hr.
  change RVCSR.SIP_MASK with 546. lia.
Qed.

Lemma trap_enter_at_priv_M c cause xepc :
  priv (snd (RVCSR.trap_enter_at_priv c cause xepc PRV_M)) = PRV_M
  /\ mcause (snd (RVCSR.trap_enter_at_priv c cause xepc PRV_M)) = cause
  /\ mepc (snd (RVCSR.trap_enter_at_priv c cause xepc PRV_M)) = xepc.
Proof.
  unfold RVCSR.trap_enter_at_priv. change (PRV_M =? PRV_M) with true.
  cbv zeta iota. case_ifs; repeat split; reflexivity.
Qed.

Lemma trap_enter_at_priv_S c cause xepc :
  priv (snd (RVCSR.trap_enter_at_priv c cause xepc PRV_S)) = PRV_S
  /\ scause (snd (RVCSR.trap_enter_at_priv c cause xepc PRV_S)) = cause
  /\ sepc (snd (RVCSR.trap_enter_at_priv c cause xepc PRV_S)) = xepc.
Proof.
  unfold RVCSR.trap_enter_at_priv. change (PRV_S =? PRV_M) with false.
  cbv zeta iota. case_ifs; repeat split; reflexivity.
Qed.

(** C9.  [trap_check_enter_irq] against the interrupt check of section
    4.3, for every latched IRQ line and every CSR state of the class, that
    is, every state whose private field [xip] holds software-written
    S-bits only (the invariant of [xip_software_bits_kept] and
    [step_keeps_xip_software_bits]).  The
    specification's [effective_mip] is built from its own words: those
    S-bits OR'd with the M and S bits that [irq_s], [irq_t] and [irq_e]
    drive.
    - An M-targeted interrupt is taken (the call returns a target and
      leaves the hart in M) if and only if [effective_mip & mie & ~mideleg]
      is nonzero and ([mstatus.MIE] is set or [priv < M]).
    - An S-targeted interrupt is taken (the call returns a target and
      leaves the hart in S) if and only if no M-targeted one is taken and
      [effective_mip & mie & mideleg], restricted to the S bits, is
      nonzero, [priv <= S], and ([mstatus.SIE] is set or [priv < S]): when
      both are takeable the M interrupt wins.
    - The cause recorded in [mcause], or [scause], is the lowest set bit
      of the pending word with bit 31 set.
    - When no target is returned the CSR state is unchanged. *)
Theorem C9_irq_check (c : RVCSR) (xepc : Z) :
  xip_software_bits c ->
  let r := RVCSR.trap_check_enter_irq c xepc in
  (spec_take_m_irq c <-> has_value (fst r) = true /\ priv (snd r) = PRV_M)
  /\ (~ spec_take_m_irq c /\ spec_take_s_irq c
      <-> has_value (fst r) = true /\ priv (snd r) = PRV_S)
  /\ (spec_take_m_irq c ->
      exists i, lowest_set_bit (spec_pending_m c) i /\ mcause (snd r) = Z.lor (2 ^ 31) i)
  /\ (~ spec_take_m_irq c -> spec_take_s_irq c ->
      exists i, lowest_set_bit (spec_pending_s c) i /\ scause (snd r) = Z.lor (2 ^ 31) i)
  /\ (has_value (fst r) = false -> snd r = c).
Proof.
  intros Hx r. subst r. unfold RVCSR.trap_check_enter_irq.
  rewrite (m_targeted_spec c Hx), (s_targeted_spec c Hx).
  set (tm := nz (spec_pending_m c) && _).
  set (ts := nz (spec_pending_s c) && _ && _).
  assert (Hm : tm = true <-> spec_take_m_irq c).
  { unfold tm, spec_take_m_irq.
    rewrite andb_true_iff, orb_true_iff, !nz_true, Z.ltb_lt. tauto. }
  assert (Hs : ts = true <-> spec_take_s_irq c).
  { unfold ts, spec_take_s_irq.
    rewrite !andb_true_iff, orb_true_iff, !nz_true, Z.ltb_lt, Z.leb_le. tauto. }
  destruct tm.
  - assert (Tm : spec_take_m_irq c) by (apply Hm; reflexivity).
    pose proof (trap_enter_at_priv_M c (Z.lor (shl32 1 31) (RVCSR.ctz (spec_pending_m c))) xepc)
      as (Hp1 & Hp2 & _).
    destruct (RVCSR.trap_enter_at_priv c _ xepc PRV_M) as [t c'].
    simpl in Hp1, Hp2 |- *.
    split; [tauto|]. split.
    { split; [tauto|]. intros [_ Hc]. rewrite Hp1 in Hc. discriminate. }
    split.
    { intros _. exists (RVCSR.ctz (spec_pending_m c)). split; [|exact Hp2].
      apply ctz_lowest. pose proof (spec_pending_m_range c). destruct Tm. lia. }
    split; [tauto | discriminate].
  - assert (Tm : ~ spec_take_m_irq c) by (rewrite <- Hm; discriminate).
    destruct ts.
    + assert (Ts : spec_take_s_irq c) by (apply Hs; reflexivity).
      pose proof (trap_enter_at_priv_S c (Z.lor (shl32 1 31) (RVCSR.ctz (spec_pending_s c))) xepc)
        as (Hp1 & Hp2 & _).
      destruct (RVCSR.trap_enter_at_priv c _ xepc PRV_S) as [t c'].
      simpl in Hp1, Hp2 |- *.
      split.
      { split; [tauto|]. intros [_ Hc]. rewrite Hp1 in Hc. discriminate. }
      split; [tauto|]. split; [tauto|]. split; [|discriminate].
      intros _ _. exists (RVCSR.ctz (spec_pending_s c)). split; [|exact Hp2].
      apply ctz_lowest. pose proof (spec_pending_s_range c). destruct Ts. lia.
    + assert (Ts : ~ spec_take_s_irq c) by (rewrite <- Hs; discriminate).
      simpl. split.
      { split; [tauto|]. intros [Hc _]. discriminate. }
      split.
      { split; [tauto|]. intros [Hc _]. discriminate. }
      split; [tauto|]. split; [tauto|]. reflexivity.
Qed.

(** The theorem on the CSR state of [irq_hart]: the machine timer interrupt
    is pending through the timer line alone, enabled and not delegated, so
    it is taken with cause 7. *)
Lemma C9_irq_check_witness :
  xip_software_bits (csr irq_hart)
  /\ spec_take_m_irq (csr irq_hart)
  /\ lowest_set_bit (spec_pending_m (csr irq_hart)) 7
  /\ has_value (fst (RVCSR.trap_check_enter_irq (csr irq_hart) RAM_BASE)) = true
  /\ priv (snd (RVCSR.trap_check_enter_irq (csr irq_hart) RAM_BASE)) = PRV_M.
Proof.
  assert (Hx : xip_software_bits (csr irq_hart)) by (vm_compute; reflexivity).
  assert (Ht : spec_take_m_irq (csr irq_hart)).
  { split; [vm_compute; discriminate | left; vm_compute; discriminate]. }
  destruct (C9_irq_check (csr irq_hart) RAM_BASE Hx) as (Hm & _ & _ & _ & _).
  split; [exact Hx|]. split; [exact Ht|]. split.
  - split; [lia|]. split; [vm_compute; reflexivity|].
    intros j Hj.
    assert (Hc : j = 0 \/ j = 1 \/ j = 2 \/ j = 3 \/ j = 4 \/ j = 5 \/ j = 6) by lia.
    destruct Hc as [->|[->|[->|[->|[->|[->| ->]]]]]]; vm_compute; reflexivity.
  - exact (proj1 Hm Ht).
Defined.

(** ** Multiply/divide: [RVCore.exec_OP] against section 4.5, item 8 *)

Lemma sx_t_congr x : 0 <= x < 2 ^ 32 -> wrap32 (sx_t x) = x.
Proof.
  intros Hx. unfold wrap32, sx_t. destruct (x <? 2 ^ 31).
  - apply Z.mod_small. lia.
  - replace (x - 2 ^ 32) with (x + (-1) * 2 ^ 32) by ring.
    rewrite Z.mod_add by lia. apply Z.mod_small. lia.
Qed.

Lemma sx_t_all_ones : sx_t ALL_ONES = -1.
Proof. reflexivity. Qed.

Lemma neg32_sx_t x : 0 <= x < 2 ^ 32 -> wrap32 (- sx_t x) = neg32 x.
Proof.
  intros Hx. unfold neg32, wrap32, sx_t. destruct (x <? 2 ^ 31); [reflexivity|].
  replace (- (x - 2 ^ 32)) with (- x + 1 * 2 ^ 32) by ring.
  rewrite Z.mod_add by lia. reflexivity.
Qed.

Lemma DIV_refines rs1 rs2 :
  0 <= rs1 < 2 ^ 32 -> 0 <= rs2 < 2 ^ 32 ->
  (if rs2 =? 0 then wrap32 (-1)
   else if rs2 =? not32 0 then neg32 rs1
   else wrap32 (Z.quot (sx_t rs1) (sx_t rs2))) = spec_DIV rs1 rs2.
Proof.
  intros H1 H2. unfold spec_DIV. change (not32 0) with ALL_ONES.
  change (wrap32 (-1)) with ALL_ONES.
  destruct (rs2 =? 0); [reflexivity|].
  destruct (rs2 =? ALL_ONES) eqn:E2.
  - apply Z.eqb_eq in E2. subst rs2. rewrite andb_true_r.
    destruct (rs1 =? INT_MIN) eqn:E1.
    + apply Z.eqb_eq in E1. subst rs1. reflexivity.
    + rewrite sx_t_all_ones.
      replace (Z.quot (sx_t rs1) (-1)) with (- sx_t rs1).
      * symmetry. apply neg32_sx_t. assumption.
      * change (-1) with (Z.opp 1). rewrite Z.quot_opp_r by lia.
        rewrite Z.quot_1_r. reflexivity.
  - rewrite andb_false_r. reflexivity.
Qed.

Lemma DIVU_refines rs1 rs2 :
  0 <= rs1 < 2 ^ 32 -> 0 <= rs2 < 2 ^ 32 ->
  (if nz rs2 then Z.quot rs1 rs2 else wrap32 (Z.lnot 0 mod 2 ^ 64)) = spec_DIVU rs1 rs2.
Proof.
  intros H1 H2. unfold spec_DIVU, nz. destruct (rs2 =? 0) eqn:E; simpl.
  - reflexivity.
  - apply Z.eqb_neq in E. apply Z.quot_div_nonneg; lia.
Qed.

Lemma REM_refines rs1 rs2 :
  0 <= rs1 < 2 ^ 32 -> 0 <= rs2 < 2 ^ 32 ->
  (if rs2 =? 0 then rs1
   else if rs2 =? not32 0 then 0
   else wrap32 (Z.rem (sx_t rs1) (sx_t rs2))) = spec_REM rs1 rs2.
Proof.
  intros H1 H2. unfold spec_REM. change (not32 0) with ALL_ONES.
  destruct (rs2 =? 0); [reflexivity|].
  destruct (rs2 =? ALL_ONES) eqn:E2.
  - apply Z.eqb_eq in E2. subst rs2. rewrite andb_true_r.
    destruct (rs1 =? INT_MIN); [reflexivity|].
    rewrite sx_t_all_ones.
    replace (Z.rem (sx_t rs1) (-1)) with 0; [reflexivity|].
    change (-1) with (Z.opp 1). rewrite Z.rem_opp_r by lia.
    rewrite Z.rem_1_r. reflexivity.
  - rewrite andb_false_r. reflexivity.
Qed.

Lemma REMU_refines rs1 rs2 :
  0 <= rs1 < 2 ^ 32 -> 0 <= rs2 < 2 ^ 32 ->
  (if nz rs2 then Z.rem rs1 rs2 else rs1) = spec_REMU rs1 rs2.
Proof.
  intros H1 H2. unfold spec_REMU, nz. destruct (rs2 =? 0) eqn:E; simpl.
  - reflexivity.
  - apply Z.eqb_neq in E. apply Z.rem_mod_nonneg; lia.
Qed.

(** C10.  For all 32-bit operands [rs1] and [rs2], the M-extension arm of
    [exec_OP] hands to [rd] exactly what section 4.5 item 8 prescribes:
    DIV (funct3 = 100) gives -1 on a zero divisor, [rs1] on the signed
    overflow [INT_MIN / -1] and the signed quotient otherwise; DIVU (101)
    gives all-ones on zero and the unsigned quotient otherwise; REM (110)
    gives [rs1] on zero, 0 on the overflow and the signed remainder
    otherwise; REMU (111) gives [rs1] on zero and the unsigned remainder
    otherwise.  The code's shortcut [rd = -rs1] for every [rs1] when
    [rs2 = -1] therefore agrees with the rule modulo 2^32.  No other local
    changes and no exception is raised. *)
Theorem C10_div_rem_semantics (rs1 rs2 : Z) (l : StepLocals) :
  0 <= rs1 < 2 ^ 32 -> 0 <= rs2 < 2 ^ 32 ->
  RVCore.exec_OP 4 1 rs1 rs2 l = l {{ rd_wdata := Some (spec_DIV rs1 rs2) }}
  /\ RVCore.exec_OP 5 1 rs1 rs2 l = l {{ rd_wdata := Some (spec_DIVU rs1 rs2) }}
  /\ RVCore.exec_OP 6 1 rs1 rs2 l = l {{ rd_wdata := Some (spec_REM rs1 rs2) }}
  /\ RVCore.exec_OP 7 1 rs1 rs2 l = l {{ rd_wdata := Some (spec_REMU rs1 rs2) }}.
Proof.
  intros H1 H2.
  rewrite <- (DIV_refines rs1 rs2 H1 H2), <- (DIVU_refines rs1 rs2 H1 H2),
          <- (REM_refines rs1 rs2 H1 H2), <- (REMU_refines rs1 rs2 H1 H2).
  unfold RVCore.exec_OP. simpl.
  repeat split.
  - destruct (rs2 =? 0); [reflexivity|]. destruct (rs2 =? not32 0); reflexivity.
  - destruct (rs2 =? 0); [reflexivity|]. destruct (rs2 =? not32 0); reflexivity.
Qed.

(** The signed-overflow operands [INT_MIN] and [-1]. *)
Lemma C10_div_rem_semantics_witness :
  (0 <= INT_MIN < 2 ^ 32 /\ 0 <= ALL_ONES < 2 ^ 32)
  /\ RVCore.exec_OP 4 1 INT_MIN ALL_ONES RVCore.locals0
     = RVCore.locals0 {{ rd_wdata := Some INT_MIN }}
  /\ RVCore.exec_OP 6 1 INT_MIN ALL_ONES RVCore.locals0
     = RVCore.locals0 {{ rd_wdata := Some 0 }}.
Proof.
  assert (H1 : 0 <= INT_MIN < 2 ^ 32) by (unfold INT_MIN; lia).
  assert (H2 : 0 <= ALL_ONES < 2 ^ 32) by (unfold ALL_ONES; lia).
  split; [split; assumption|].
  destruct (C10_div_rem_semantics INT_MIN ALL_ONES RVCore.locals0 H1 H2) as (Hd & _ & Hr & _).
  split; [exact Hd | exact Hr].
Defined.

(** ** The hart: what the Sv32 walk and the fetch leave alone *)

Section Frame.
Context {D : Type} `{MemBase32.t D}.

Lemma same_hart_refl (c : RVCore D) : same_hart c c.
Proof. unfold same_hart. tauto. Qed.

Lemma same_hart_trans (a b c : RVCore D) : same_hart a b -> same_hart b c -> same_hart a c.
Proof. unfold same_hart. intuition congruence. Qed.

Lemma w32_same_hart (c c' : RVCore D) addr data :
  RVCore.w32 c addr data = Some c' -> same_hart c c'.
Proof.
  unfold RVCore.w32, RVCore.set_ram_word. intros Hw.
  destruct (RVCore.in_ram c addr).
  - inversion Hw; subst. unfold same_hart. simpl. tauto.
  - destruct (MemBase32.w32 (mem c) addr data); inversion Hw; subst.
    unfold same_hart. simpl. tauto.
Qed.

Lemma vmap_sv32_same_hart (c : RVCore D) vaddr atp p req :
  same_hart c (snd (RVCore.vmap_sv32 c vaddr atp p req)).
Proof.
  unfold RVCore.vmap_sv32.
  repeat match goal with
  | |- context [match RVCore.w32 ?c ?a ?v with _ => _ end] =>
      let E := fresh "E" in
      destruct (RVCore.w32 c a v) eqn:E; [apply w32_same_hart in E|]
  | |- context [match ?x with _ => _ end] => destruct x
  end; simpl; try apply same_hart_refl; assumption.
Qed.

Lemma vmap_ls_same_hart (c : RVCore D) vaddr req :
  same_hart c (snd (RVCore.vmap_ls c vaddr req)).
Proof.
  unfold RVCore.vmap_ls. destruct (RVCSR.translation_enabled_ls (csr c)).
  - apply vmap_sv32_same_hart.
  - apply same_hart_refl.
Qed.

Lemma vmap_fetch_same_hart (c : RVCore D) vaddr :
  same_hart c (snd (RVCore.vmap_fetch c vaddr)).
Proof.
  unfold RVCore.vmap_fetch. destruct (RVCSR.translation_enabled_fetch (csr c)).
  - apply vmap_sv32_same_hart.
  - apply same_hart_refl.
Qed.

Lemma fetch_same_hart (c : RVCore D) : same_hart c (fst (RVCore.fetch c)).
Proof.
  unfold RVCore.fetch.
  pose proof (vmap_fetch_same_hart c (pc c)) as H1.
  destruct (RVCore.vmap_fetch c (pc c)) as [p0 c1]. simpl in H1.
  pose proof (vmap_fetch_same_hart c1 (add32 (pc c1) 2)) as H2.
  destruct (RVCore.vmap_fetch c1 (add32 (pc c1) 2)) as [p1 c2]. simpl in H2 |- *.
  eapply same_hart_trans; eassumption.
Qed.

End Frame.

(** ** LR/SC: the [SC_W] arm of [RVCore.exec_AMO] *)

Lemma land_sub_mask x m k : Z.land m k = k -> Z.land x k = Z.land (Z.land x m) k.
Proof. intros Hk. rewrite <- Z.land_assoc, Hk. reflexivity. Qed.

Lemma land_shr_mask x n k : 0 <= n -> Z.land (shr32 x n) k = shr32 (Z.land x (Z.shiftl k n)) n.
Proof.
  intros Hn. unfold shr32. rewrite Z.shiftr_land. f_equal.
  rewrite Z.shiftr_shiftl_l by lia. rewrite Z.sub_diag. reflexivity.
Qed.

Lemma RVOPC_MATCH_field instr o k v :
  RVOPC_MATCH instr o = true ->
  Z.land (MASK o) k = k -> Z.land (BITS o) k = v -> Z.land instr k = v.
Proof.
  unfold RVOPC_MATCH. intros Hm Hk Hv. apply Z.eqb_eq in Hm.
  rewrite (land_sub_mask instr (MASK o) k Hk), Hm. exact Hv.
Qed.

Lemma SC_W_low_bits instr :
  RVOPC_MATCH instr RVOPC_SC_W = true -> Z.land instr 0x3 = 0x3.
Proof. intros Hm. eapply RVOPC_MATCH_field; [exact Hm | reflexivity | reflexivity]. Qed.

Lemma SC_W_opc instr :
  RVOPC_MATCH instr RVOPC_SC_W = true -> Z.land (shr32 instr 2) 0x1f = OPC_AMO.
Proof.
  intros Hm. rewrite land_shr_mask by lia.
  erewrite RVOPC_MATCH_field; [| exact Hm | reflexivity | reflexivity]. reflexivity.
Qed.

Lemma SC_W_not_LR_W instr :
  RVOPC_MATCH instr RVOPC_SC_W = true -> RVOPC_MATCH instr RVOPC_LR_W = false.
Proof.
  intros Hm. unfold RVOPC_MATCH. apply Z.eqb_neq. intros Hl.
  pose proof (RVOPC_MATCH_field instr RVOPC_SC_W 0x08000000 0x08000000 Hm eq_refl eq_refl) as H1.
  assert (H2 : Z.land instr 0x08000000 = 0).
  { rewrite (land_sub_mask instr (MASK RVOPC_LR_W) 0x08000000 eq_refl), Hl. reflexivity. }
  congruence.
Qed.

Section SC.
Context {D : Type} `{MemBase32.t D}.

Lemma exec32_AMO (c : RVCore D) instr l :
  Z.land (shr32 instr 2) 0x1f = OPC_AMO ->
  RVCore.exec32 c instr l =
  RVCore.exec_AMO c instr (RVCore.reg c (regnum_rs1_of instr)) (RVCore.reg c (regnum_rs2_of instr))
                  (l {{ regnum_rd := regnum_rd_of instr }}).
Proof. unfold RVCore.exec32. intros ->. reflexivity. Qed.

Lemma execute_fetched32 (c : RVCore D) f :
  fetched32 f -> RVCore.execute c f = RVCore.exec32 c (RVCore.instr_of f) RVCore.locals0.
Proof.
  intros (H0 & H1 & H2 & H3 & H4). unfold RVCore.execute.
  rewrite H0, H1, H2, H3, H4. simpl. rewrite !andb_false_r. reflexivity.
Qed.

(** The tail of [step] never touches the bus, the RAM window or the
    reservation, and commits [rd] whenever a value and a nonzero register
    number are there, with or without an exception. *)
Lemma writeback_frame (c : RVCore D) instr l :
  mem (RVCore.writeback c instr l) = mem c
  /\ ram (RVCore.writeback c instr l) = ram c
  /\ load_reserved (RVCore.writeback c instr l) = load_reserved c.
Proof.
  unfold RVCore.writeback. destruct l as [rdw pcw [cause|] xt rd]; wb_norm.
  - destruct (RVCSR.trap_enter_exception (csr c) cause (pc c)) as [t csr'].
    destruct (cause =? XCAUSE_INSTR_ILLEGAL), xt, rdw; wb_norm;
      try destruct (rd =? 0); repeat split; reflexivity.
  - destruct (RVCSR.trap_check_enter_irq (csr c) _) as [[t|] csr'], pcw, rdw; wb_norm;
      try destruct (rd =? 0); repeat split; reflexivity.
Qed.

Lemma writeback_regs (c : RVCore D) instr l :
  regs (RVCore.writeback c instr l) =
  match rd_wdata l with
  | Some v => if negb (regnum_rd l =? 0)
              then <[Z.to_nat (regnum_rd l) := v]> (regs c) else regs c
  | None => regs c
  end.
Proof.
  unfold RVCore.writeback. destruct l as [rdw pcw [cause|] xt rd]; wb_norm.
  - destruct (RVCSR.trap_enter_exception (csr c) cause (pc c)) as [t csr'].
    destruct (cause =? XCAUSE_INSTR_ILLEGAL), xt, rdw; wb_norm;
      try destruct (rd =? 0); reflexivity.
  - destruct (RVCSR.trap_check_enter_irq (csr c) _) as [[t|] csr'], pcw, rdw; wb_norm;
      try destruct (rd =? 0); reflexivity.
Qed.

Lemma regnum_rd_of_range instr : 0 <= regnum_rd_of instr < 32.
Proof.
  unfold regnum_rd_of. pose proof (land_mask_range (shr32 instr 7) 0x1f ltac:(lia)). lia.
Qed.

Lemma step_unfold (c c0 : RVCore D) f :
  RVCore.fetch c = (c0, f) ->
  RVCore.step c =
  RVCore.writeback (fst (RVCore.execute c0 f)) (RVCore.instr_of f) (snd (RVCore.execute c0 f)).
Proof.
  intros Hf. unfold RVCore.step. rewrite Hf.
  destruct (RVCore.execute c0 f); reflexivity.
Qed.

(** [SC.W] without a reservation: [rd_wdata = 1], nothing else moves. *)
Lemma exec_SC_W_unreserved (c0 : RVCore D) f :
  fetched32 f ->
  RVOPC_MATCH (RVCore.instr_of f) RVOPC_SC_W = true ->
  Z.land (RVCore.reg c0 (regnum_rs1_of (RVCore.instr_of f))) 0x3 = 0 ->
  load_reserved c0 = false ->
  RVCore.execute c0 f =
  (c0, RVCore.locals0 {{ regnum_rd := regnum_rd_of (RVCore.instr_of f) }}
                      {{ rd_wdata := Some 1 }}).
Proof.
  intros Hf Hm Ha Hr.
  rewrite (execute_fetched32 c0 f Hf), (exec32_AMO c0 _ _ (SC_W_opc _ Hm)).
  unfold RVCore.exec_AMO. rewrite (SC_W_not_LR_W _ Hm), Hm, Ha, Hr. reflexivity.
Qed.

(** [SC.W] with the reservation held, when translation and the bus write
    succeed: memory written, [rd_wdata = 0], reservation cleared. *)
Lemma exec_SC_W_reserved (c0 c1 : RVCore D) f p m :
  fetched32 f ->
  RVOPC_MATCH (RVCore.instr_of f) RVOPC_SC_W = true ->
  Z.land (RVCore.reg c0 (regnum_rs1_of (RVCore.instr_of f))) 0x3 = 0 ->
  load_reserved c0 = true ->
  RVCore.vmap_ls c0 (RVCore.reg c0 (regnum_rs1_of (RVCore.instr_of f))) PTE_W = (Some p, c1) ->
  MemBase32.w32 (mem c1) p (RVCore.reg c0 (regnum_rs2_of (RVCore.instr_of f))) = Some m ->
  RVCore.execute c0 f =
  (c1 {{ load_reserved := false }} {{ mem := m }},
   RVCore.locals0 {{ regnum_rd := regnum_rd_of (RVCore.instr_of f) }}
                  {{ rd_wdata := Some 0 }}).
Proof.
  intros Hf Hm Ha Hr Hv Hw.
  rewrite (execute_fetched32 c0 f Hf), (exec32_AMO c0 _ _ (SC_W_opc _ Hm)).
  unfold RVCore.exec_AMO. rewrite (SC_W_not_LR_W _ Hm), Hm, Ha, Hr, Hv.
  cbv iota beta. change (nz 0) with false. cbv iota.
  change (mem (c1 {{ load_reserved := false }})) with (mem c1).
  rewrite Hw. reflexivity.
Qed.

Lemma writeback_regs_commit (c : RVCore D) instr rd v :
  rd <> 0 ->
  regs (RVCore.writeback c instr
          (RVCore.locals0 {{ regnum_rd := rd }} {{ rd_wdata := Some v }}))
  = <[Z.to_nat rd := v]> (regs c).
Proof.
  intros Hnz. rewrite writeback_regs. cbn. unfold constant.
  destruct (rd =? 0) eqn:E; [apply Z.eqb_eq in E; contradiction | reflexivity].
Qed.

Lemma reg_after_commit (c : RVCore D) rd v :
  0 <= rd < 32 -> length (regs c) = 32%nat ->
  <[Z.to_nat rd := v]> (regs c) !!! Z.to_nat rd = v.
Proof.
  intros Hrd Hl. apply list_lookup_total_insert_eq. lia.
Qed.

End SC.

Section SC_step.
Context {D : Type} `{MemBase32.t D}.

(** C8.  Let [c0] be the hart after the fetch of an [SC.W] whose address
    register is word aligned.
    - With the reservation held, and translation and the bus write
      succeeding, the instruction writes memory, hands 0 to [rd] and clears
      the reservation; the step commits exactly that.
    - Without the reservation it hands 1 to [rd], raises no fault, and
      leaves the bus, the RAM window and the reservation as the fetch left
      them.
    - So (translation and bus write succeeding) [rd] receives 0 if and only
      if [load_reserved] is true at SC time.
    - In both cases the reservation is clear after the step, so an [SC.W]
      fetched by the next step hands 1 to [rd] without writing memory. *)
Theorem C8_sc_w (c c0 : RVCore D) (f : Fetched) :
  RVCore.fetch c = (c0, f) ->
  fetched32 f ->
  RVOPC_MATCH (RVCore.instr_of f) RVOPC_SC_W = true ->
  let instr := RVCore.instr_of f in
  let rs1 := RVCore.reg c0 (regnum_rs1_of instr) in
  let rs2 := RVCore.reg c0 (regnum_rs2_of instr) in
  let rd := regnum_rd_of instr in
  Z.land rs1 0x3 = 0 ->
  length (regs c) = 32%nat ->
  forall p c1 m,
  (load_reserved c0 = true ->
   RVCore.vmap_ls c0 rs1 PTE_W = (Some p, c1) /\ MemBase32.w32 (mem c1) p rs2 = Some m) ->
  (* success: memory written, 0 to rd, reservation cleared *)
  (load_reserved c0 = true ->
     RVCore.execute c0 f =
       (c1 {{ load_reserved := false }} {{ mem := m }},
        RVCore.locals0 {{ regnum_rd := rd }} {{ rd_wdata := Some 0 }})
     /\ mem (RVCore.step c) = m
     /\ (rd <> 0 -> RVCore.reg (RVCore.step c) rd = 0))
  (* failure: 1 to rd, no fault, nothing else moves *)
  /\ (load_reserved c0 = false ->
     RVCore.execute c0 f =
       (c0, RVCore.locals0 {{ regnum_rd := rd }} {{ rd_wdata := Some 1 }})
     /\ mem (RVCore.step c) = mem c0 /\ ram (RVCore.step c) = ram c0
     /\ (rd <> 0 -> RVCore.reg (RVCore.step c) rd = 1))
  (* success if and only if the reservation is held *)
  /\ (rd_wdata (snd (RVCore.execute c0 f)) = Some 0 <-> load_reserved c0 = true)
  /\ exception_cause (snd (RVCore.execute c0 f)) = None
  (* the reservation is clear afterwards: the next SC.W fails *)
  /\ load_reserved (RVCore.step c) = false
  /\ (forall c2 f2,
        RVCore.fetch (RVCore.step c) = (c2, f2) ->
        fetched32 f2 ->
        RVOPC_MATCH (RVCore.instr_of f2) RVOPC_SC_W = true ->
        Z.land (RVCore.reg c2 (regnum_rs1_of (RVCore.instr_of f2))) 0x3 = 0 ->
        RVCore.execute c2 f2 =
          (c2, RVCore.locals0 {{ regnum_rd := regnum_rd_of (RVCore.instr_of f2) }}
                              {{ rd_wdata := Some 1 }})
        /\ mem (RVCore.step (RVCore.step c)) = mem c2
        /\ ram (RVCore.step (RVCore.step c)) = ram c2).
Proof.
  intros Hfetch Hf32 Hm instr rs1 rs2 rd Ha Hlen p c1 m Hok.
  pose proof (fetch_same_hart c) as Hsame. rewrite Hfetch in Hsame. simpl in Hsame.
  destruct Hsame as (Hregs & _ & _ & Hlr0 & _).
  pose proof (regnum_rd_of_range instr) as Hrd.
  assert (Hstep := step_unfold c c0 f Hfetch).
  assert (Hcommit : forall c' v,
            RVCore.execute c0 f =
              (c', RVCore.locals0 {{ regnum_rd := rd }} {{ rd_wdata := Some v }}) ->
            regs c' = regs c0 ->
            mem (RVCore.step c) = mem c' /\ ram (RVCore.step c) = ram c'
            /\ load_reserved (RVCore.step c) = load_reserved c'
            /\ (rd <> 0 -> RVCore.reg (RVCore.step c) rd = v)).
  { intros c' v He Hr'. rewrite Hstep, He. cbn [fst snd].
    destruct (writeback_frame c' (RVCore.instr_of f)
                (RVCore.locals0 {{ regnum_rd := rd }} {{ rd_wdata := Some v }}))
      as (Hwm & Hwr & Hwl).
    repeat split; try assumption.
    intros Hnz. unfold RVCore.reg. rewrite (writeback_regs_commit c' _ rd v Hnz).
    apply list_lookup_total_insert_eq. rewrite Hr', Hregs, Hlen. lia. }
  destruct (load_reserved c0) eqn:Hr.
  - destruct (Hok eq_refl) as [Hv Hw].
    pose proof (exec_SC_W_reserved c0 c1 f p m Hf32 Hm Ha Hr Hv Hw) as He.
    pose proof (vmap_ls_same_hart c0 rs1 PTE_W) as Hs1. fold instr rs1 in Hv.
    rewrite Hv in Hs1. simpl in Hs1. destruct Hs1 as (Hregs1 & _).
    destruct (Hcommit _ 0 He Hregs1) as (Hcm & Hcr & Hcl & Hcreg).
    assert (Hlr' : load_reserved (RVCore.step c) = false) by exact Hcl.
    split; [intros _; repeat split; assumption|].
    split; [discriminate|].
    split; [rewrite He; cbn; tauto|].
    split; [rewrite He; reflexivity|].
    split; [exact Hlr'|].
    intros c2 f2 Hfetch2 Hf2 Hm2 Ha2.
    pose proof (fetch_same_hart (RVCore.step c)) as Hs2. rewrite Hfetch2 in Hs2.
    simpl in Hs2. destruct Hs2 as (_ & _ & _ & Hlr2 & _). rewrite Hlr' in Hlr2.
    pose proof (exec_SC_W_unreserved c2 f2 Hf2 Hm2 Ha2 Hlr2) as He2.
    split; [exact He2|].
    rewrite (step_unfold _ c2 f2 Hfetch2), He2. cbn [fst snd].
    destruct (writeback_frame c2 (RVCore.instr_of f2)
                (RVCore.locals0 {{ regnum_rd := regnum_rd_of (RVCore.instr_of f2) }}
                                {{ rd_wdata := Some 1 }})) as (Hwm & Hwr & _).
    split; assumption.
  - pose proof (exec_SC_W_unreserved c0 f Hf32 Hm Ha Hr) as He.
    destruct (Hcommit _ 1 He eq_refl) as (Hcm & Hcr & Hcl & Hcreg).
    assert (Hlr' : load_reserved (RVCore.step c) = false) by (rewrite Hcl; exact Hr).
    split; [discriminate|].
    split; [intros _; repeat split; assumption|].
    split; [rewrite He; cbn; split; discriminate|].
    split; [rewrite He; reflexivity|].
    split; [exact Hlr'|].
    intros c2 f2 Hfetch2 Hf2 Hm2 Ha2.
    pose proof (fetch_same_hart (RVCore.step c)) as Hs2. rewrite Hfetch2 in Hs2.
    simpl in Hs2. destruct Hs2 as (_ & _ & _ & Hlr2 & _). rewrite Hlr' in Hlr2.
    pose proof (exec_SC_W_unreserved c2 f2 Hf2 Hm2 Ha2 Hlr2) as He2.
    split; [exact He2|].
    rewrite (step_unfold _ c2 f2 Hfetch2), He2. cbn [fst snd].
    destruct (writeback_frame c2 (RVCore.instr_of f2)
                (RVCore.locals0 {{ regnum_rd := regnum_rd_of (RVCore.instr_of f2) }}
                                {{ rd_wdata := Some 1 }})) as (Hwm & Hwr & _).
    split; assumption.
Qed.

End SC_step.

(** The theorem at [sc_hart]: the first [sc.w] succeeds and stores
    [0xdead] at [0x80000100]; the second one, fetched by the next step,
    fails. *)
Lemma C8_sc_w_witness :
  RVCore.reg (RVCore.step sc_hart) 5 = 0
  /\ MemBase32.r32 (mem (RVCore.step sc_hart)) 0x80000100 = Some 0xdead
  /\ load_reserved (RVCore.step sc_hart) = false
  /\ rd_wdata (snd (RVCore.execute (fst (RVCore.fetch (RVCore.step sc_hart)))
                                   (snd (RVCore.fetch (RVCore.step sc_hart))))) = Some 1.
Proof.
  pose (c0 := fst (RVCore.fetch sc_hart)).
  pose (f := snd (RVCore.fetch sc_hart)).
  pose (m := default (mem c0) (MemBase32.w32 (mem c0) 0x80000100 0xdead)).
  assert (Hfetch : RVCore.fetch sc_hart = (c0, f)) by apply surjective_pairing.
  assert (Hf32 : fetched32 f) by (vm_compute; repeat split; reflexivity).
  assert (Hm : RVOPC_MATCH (RVCore.instr_of f) RVOPC_SC_W = true) by (vm_compute; reflexivity).
  assert (Ha : Z.land (RVCore.reg c0 (regnum_rs1_of (RVCore.instr_of f))) 0x3 = 0)
    by (vm_compute; reflexivity).
  assert (Hlen : length (regs sc_hart) = 32%nat) by (vm_compute; reflexivity).
  assert (Hok : load_reserved c0 = true ->
                RVCore.vmap_ls c0 (RVCore.reg c0 (regnum_rs1_of (RVCore.instr_of f))) PTE_W
                = (Some 0x80000100, c0)
                /\ MemBase32.w32 (mem c0) 0x80000100
                     (RVCore.reg c0 (regnum_rs2_of (RVCore.instr_of f))) = Some m)
    by (intros _; split; vm_compute; reflexivity).
  destruct (C8_sc_w sc_hart c0 f Hfetch Hf32 Hm Ha Hlen 0x80000100 c0 m Hok)
    as (Hs & _ & _ & _ & Hlr & Hnext).
  destruct (Hs ltac:(vm_compute; reflexivity)) as (_ & Hmem & Hreg).
  split; [apply Hreg; vm_compute; discriminate|].
  split; [rewrite Hmem; vm_compute; reflexivity|].
  split; [exact Hlr|].
  destruct (Hnext (fst (RVCore.fetch (RVCore.step sc_hart)))
                  (snd (RVCore.fetch (RVCore.step sc_hart))))
    as (He2 & _).
  - apply surjective_pairing.
  - vm_compute; repeat split; reflexivity.
  - vm_compute; reflexivity.
  - vm_compute; reflexivity.
  - rewrite He2. reflexivity.
Defined.

(** ** The Sv32 walk on a PTE with W and without R *)



Section Sv32.
Context {D : Type} `{MemBase32.t D}.

(** The outcome of a first-level leaf. *)
Lemma vmap_sv32_leaf1 (c : RVCore D) vaddr atp p req pte1 :
  RVCore.r32 c (addr_of_pte1 atp vaddr) = Some pte1 ->
  nz (Z.land pte1 PTE_V) = true ->
  nz (Z.land pte1 (Z.lor (Z.lor PTE_X PTE_W) PTE_R)) = true ->
  (fst (RVCore.vmap_sv32 c vaddr atp p req) = None <->
   RVCSR.pte_permissions_ok (csr c) pte1 req = false
   \/ Z.land pte1 0x000ffc00 <> 0
   \/ (RVCore.pte_a_d_update pte1 req <> pte1
       /\ RVCore.w32 c (addr_of_pte1 atp vaddr) (RVCore.pte_a_d_update pte1 req) = None)).
Proof.
  intros Hr Hv Hl. unfold RVCore.vmap_sv32. fold (addr_of_pte1 atp vaddr).
  rewrite Hr, Hv, Hl. cbv iota beta. change (negb true) with false. cbv iota.
  destruct (RVCSR.pte_permissions_ok (csr c) pte1 req); cbn [negb].
  2:{ cbn. tauto. }
  destruct (nz (Z.land pte1 0x000ffc00)) eqn:Ea.
  { apply nz_true in Ea. cbn. tauto. }
  apply nz_false in Ea.
  destruct (RVCore.pte_a_d_update pte1 req =? pte1) eqn:Eu; cbn [negb].
  - apply Z.eqb_eq in Eu. cbn. split; [discriminate|].
    intros [Hc|[Hc|[Hc _]]]; [discriminate | contradiction | contradiction].
  - apply Z.eqb_neq in Eu.
    destruct (RVCore.w32 c (addr_of_pte1 atp vaddr) (RVCore.pte_a_d_update pte1 req)); cbn.
    + split; [discriminate|].
      intros [Hc|[Hc|[_ Hc]]]; [discriminate | contradiction | discriminate].
    + tauto.
Qed.


End Sv32.



Section Sv32_W_without_R.
Context {D : Type} `{MemBase32.t D}.


End Sv32_W_without_R.



(** ** Compressed instructions: the second halfword of the fetch *)






Section RVC.
Context {D : Type} `{MemBase32.t D}.




End RVC.

Section RVC_step.
Context {D : Type} `{MemBase32.t D}.




End RVC_step.



(** ** Where the code departs from the specification *)

(** C1.  Trap atomicity fails for an AMO whose write is refused.  On
    [rom_amo_hart] the step raises the store/AMO access fault (mcause = 7,
    mepc = pc, the PC goes to the trap vector) and nevertheless commits the
    loaded word to [x5], which held 0 before the step. *)
Theorem C1_amo_store_fault_commits_rd :
  RVCore.reg rom_amo_hart 5 = 0
  /\ exception_cause (snd (RVCore.execute (fst (RVCore.fetch rom_amo_hart))
                                          (snd (RVCore.fetch rom_amo_hart))))
     = Some XCAUSE_STORE_FAULT
  /\ mcause (csr (RVCore.step rom_amo_hart)) = XCAUSE_STORE_FAULT
  /\ mepc (csr (RVCore.step rom_amo_hart)) = pc rom_amo_hart
  /\ pc (RVCore.step rom_amo_hart) = Z.land (mtvec (csr rom_amo_hart)) (wrap32 (-2))
  /\ RVCore.reg (RVCore.step rom_amo_hart) 5 = AMOADD_W_x5_x0_x0.
Proof. vm_compute. repeat split; reflexivity. Qed.

(** The defect behind C1 in general: the commit of [rd] at the end of
    [step] does not look at [exception_cause]. *)
Lemma writeback_commits_rd_on_exception {D : Type} `{MemBase32.t D}
  (c : RVCore D) (instr cause v rd : Z) (l : StepLocals) :
  exception_cause l = Some cause -> rd_wdata l = Some v -> regnum_rd l = rd -> rd <> 0 ->
  regs (RVCore.writeback c instr l) = <[Z.to_nat rd := v]> (regs c).
Proof.
  intros _ Hv Hrd Hnz. rewrite writeback_regs, Hv, Hrd.
  destruct (rd =? 0) eqn:E; [apply Z.eqb_eq in E; contradiction | reflexivity].
Qed.

Section AMO.
Context {D : Type} `{MemBase32.t D}.

(** The defect behind C1 on the side of [execute], for every bus device:
    an AMO whose read is served and whose write is refused leaves the
    loaded word in [rd_wdata] next to the store/AMO access fault. *)
Lemma exec_AMO_write_refused (c c1 : RVCore D) (instr rs1 rs2 p v : Z) (l : StepLocals) :
  RVOPC_MATCH instr RVOPC_LR_W = false ->
  RVOPC_MATCH instr RVOPC_SC_W = false ->
  RVOPC_MATCH instr RVOPC_AMOSWAP_W
  || RVOPC_MATCH instr RVOPC_AMOADD_W
  || RVOPC_MATCH instr RVOPC_AMOXOR_W
  || RVOPC_MATCH instr RVOPC_AMOAND_W
  || RVOPC_MATCH instr RVOPC_AMOOR_W
  || RVOPC_MATCH instr RVOPC_AMOMIN_W
  || RVOPC_MATCH instr RVOPC_AMOMAX_W
  || RVOPC_MATCH instr RVOPC_AMOMINU_W
  || RVOPC_MATCH instr RVOPC_AMOMAXU_W = true ->
  Z.land rs1 0x3 = 0 ->
  RVCore.vmap_ls c rs1 (Z.lor PTE_W PTE_R) = (Some p, c1) ->
  MemBase32.r32 (mem c1) p = Some v ->
  (forall wdata, MemBase32.w32 (mem c1) p wdata = None) ->
  fst (RVCore.exec_AMO c instr rs1 rs2 l) = c1
  /\ rd_wdata (snd (RVCore.exec_AMO c instr rs1 rs2 l)) = Some v
  /\ exception_cause (snd (RVCore.exec_AMO c instr rs1 rs2 l)) = Some XCAUSE_STORE_FAULT.
Proof.
  intros Hlr Hsc Hamo Ha Hv Hr Hw. unfold RVCore.exec_AMO.
  rewrite Hlr, Hsc, Hamo, Ha, Hv. change (nz 0) with false. cbv iota beta.
  assert (Hws : match RVCore.amo_wdata instr v rs2 with
                | Some wdata => MemBase32.w32 (mem c1) p wdata
                | None => None
                end = None) by (destruct (RVCore.amo_wdata instr v rs2); [apply Hw | reflexivity]).
  destruct l as [rdw pcw exc xt rd].
  cbv beta iota zeta delta [apply_update constant rd_wdata]. rewrite Hr, Hws.
  repeat split; reflexivity.
Qed.

End AMO.

(** C2.  The WARL round trip fails for [minstret]: in M-mode a write of
    [0x12345678] to [minstret] succeeds and stores the value, but reading
    [minstret] back returns the [minstreth] field, here 0. *)
Theorem C2_minstret_readback :
  RVCSR.write RVCSR.reset (csr_addr CSR_MINSTRET) 0x12345678 WRITE
    = Some (RVCSR.reset {{ minstret := 0x12345678 }})
  /\ RVCSR.read (RVCSR.reset {{ minstret := 0x12345678 }}) (csr_addr CSR_MINSTRET) = Some 0.
Proof. vm_compute. split; reflexivity. Qed.

(** The defect behind C2 in general: [minstret] reads as [minstreth]. *)
Lemma read_minstret_is_minstreth (c : RVCSR) :
  PRV_M <= priv c -> RVCSR.read c (csr_addr CSR_MINSTRET) = Some (minstreth c).
Proof.
  intros Hp. unfold RVCSR.read.
  change (GETBITS (csr_addr CSR_MINSTRET) 9 8) with 3.
  change (shl32 1 12 <=? csr_addr CSR_MINSTRET) with false.
  unfold PRV_M in Hp. destruct (priv c <? 3) eqn:E; [apply Z.ltb_lt in E; lia|].
  reflexivity.
Qed.

(** C3.  [mret] with [MPIE = 0] and [MIE = 1]: the new privilege is MPP
    (U) and the return address is [mepc], but MIE is still set afterwards
    (the specification copies MPIE = 0 into it) and MPIE is clear (the
    specification sets it to 1). *)
Theorem C3_mret_MIE_MPIE :
  priv csr_MIE_only = PRV_M
  /\ Z.land (xstatus csr_MIE_only) MSTATUS_MPIE = 0
  /\ fst (RVCSR.trap_mret csr_MIE_only) = mepc csr_MIE_only
  /\ priv (snd (RVCSR.trap_mret csr_MIE_only)) = PRV_U
  /\ Z.land (xstatus (snd (RVCSR.trap_mret csr_MIE_only))) MSTATUS_MIE = MSTATUS_MIE
  /\ Z.land (xstatus (snd (RVCSR.trap_mret csr_MIE_only))) MSTATUS_MPIE = 0.
Proof. vm_compute. repeat split; reflexivity. Qed.

(** C4.  Trap entry with [xIE = 0] and [xPIE = 1]: the entry clears xIE and
    saves the privilege, but xPIE is still 1 afterwards, not the 0 that
    xIE held; in M-mode on an illegal instruction, and in S-mode on a
    delegated one. *)
Theorem C4_trap_entry_xPIE :
  (Z.land (xstatus csr_MPIE_only) MSTATUS_MIE = 0
   /\ priv (snd (RVCSR.trap_enter_exception csr_MPIE_only XCAUSE_INSTR_ILLEGAL RAM_BASE)) = PRV_M
   /\ GETBITS (xstatus (snd (RVCSR.trap_enter_exception csr_MPIE_only
                               XCAUSE_INSTR_ILLEGAL RAM_BASE))) 12 11 = PRV_M
   /\ Z.land (xstatus (snd (RVCSR.trap_enter_exception csr_MPIE_only
                              XCAUSE_INSTR_ILLEGAL RAM_BASE))) MSTATUS_MPIE = MSTATUS_MPIE)
  /\ (Z.land (xstatus csr_SPIE_only) SSTATUS_SIE = 0
   /\ priv (snd (RVCSR.trap_enter_exception csr_SPIE_only XCAUSE_INSTR_ILLEGAL RAM_BASE)) = PRV_S
   /\ GETBIT (xstatus (snd (RVCSR.trap_enter_exception csr_SPIE_only
                              XCAUSE_INSTR_ILLEGAL RAM_BASE))) 8 = PRV_S
   /\ Z.land (xstatus (snd (RVCSR.trap_enter_exception csr_SPIE_only
                              XCAUSE_INSTR_ILLEGAL RAM_BASE))) SSTATUS_SPIE = SSTATUS_SPIE).
Proof. vm_compute. repeat split; reflexivity. Qed.

(** C5.  An interrupt taken after a fall-through instruction records the
    pc of the instruction that has just committed.  On [irq_hart] the step
    commits [addi x1, x1, 1] (x1 becomes 1), takes the machine timer
    interrupt (mcause = 0x80000007, the PC goes to mtvec) and writes
    [mepc = pc], not [pc + 4]. *)
Theorem C5_irq_xepc_is_pc :
  RVCore.reg (RVCore.step irq_hart) 1 = 1
  /\ mcause (csr (RVCore.step irq_hart)) = 0x80000007
  /\ pc (RVCore.step irq_hart) = 0x80000100
  /\ mepc (csr (RVCore.step irq_hart)) = pc irq_hart
  /\ mepc (csr (RVCore.step irq_hart)) <> add32 (pc irq_hart) 4.
Proof. vm_compute. repeat split; try reflexivity. discriminate. Qed.

(** ** The CSR file: a write followed by a read *)

Lemma testbit_not32 m n : 0 <= n < 32 -> Z.testbit (not32 m) n = negb (Z.testbit m n).
Proof.
  intros Hn. unfold not32, wrap32. rewrite Z.mod_pow2_bits_low by lia.
  apply Z.lnot_spec. lia.
Qed.

Lemma testbit_high m n : 0 <= m < 2 ^ 32 -> 32 <= n -> Z.testbit m n = false.
Proof.
  intros Hm Hn. rewrite <- (Z.mod_small m (2 ^ 32)) by lia.
  apply Z.mod_pow2_bits_high. lia.
Qed.

Lemma land_lor_keep v o m :
  0 <= m < 2 ^ 32 ->
  Z.land (Z.lor (Z.land v m) (Z.land o (not32 m))) m = Z.land v m.
Proof.
  intros Hm. apply Z.bits_inj'. intros n Hn.
  rewrite !Z.land_spec, Z.lor_spec, !Z.land_spec.
  destruct (Z.testbit m n) eqn:E; [|rewrite !andb_false_r; reflexivity].
  destruct (Z_lt_le_dec n 32) as [Hlt|Hge].
  - rewrite testbit_not32, E by lia. simpl.
    rewrite !andb_true_r, andb_false_r, orb_false_r. reflexivity.
  - rewrite (testbit_high m n) in E by lia. discriminate.
Qed.

Lemma land_all_ones v : 0 <= v < 2 ^ 32 -> Z.land v 0xffffffff = v.
Proof.
  intros Hv. change 0xffffffff with (Z.ones 32). rewrite Z.land_ones by lia.
  apply Z.mod_small. lia.
Qed.

(** X1.  WARL round trip, for every CSR of [spec_w_mask] (the writable
    CSRs other than [mip], [sip] and [minstret]): in M-mode a plain write
    of a 32-bit value [v] succeeds, and the CSR then reads as [v] masked
    to its writable bits. *)
Theorem csr_write_read (c : RVCSR) (n : csr_name) (m v : Z) :
  spec_w_mask n = Some m -> priv c = PRV_M -> 0 <= v < 2 ^ 32 ->
  exists c', RVCSR.write c (csr_addr n) v WRITE = Some c'
             /\ RVCSR.read c' (csr_addr n) = Some (Z.land v m).
Proof.
  intros Hm Hp Hv. destruct c. simpl in Hp. subst.
  destruct n; simpl in Hm; inversion Hm; subst; clear Hm;
    (eexists; split; [reflexivity|]); cbn.
  all: try rewrite land_all_ones by assumption; try reflexivity.
  all: unfold RVCSR.read, constant; cbn [xstatus xie priv].
  all: match goal with |- context [csr_decode ?a] =>
         let d := eval vm_compute in (csr_decode a) in change (csr_decode a) with d end.
  all: match goal with |- (if ?b then _ else _) = _ =>
         let d := eval vm_compute in b in change b with d end.
  all: cbv iota; unfold RVCSR.MIE_R_MASK, RVCSR.MIE_W_MASK.
  all: rewrite land_lor_keep by (vm_compute; split; [discriminate | reflexivity]).
  all: reflexivity.
Qed.

(** The theorem for [mepc] after reset: writing [0x80000003] reads back
    [0x80000002]. *)
Lemma csr_write_read_witness :
  exists c', RVCSR.write RVCSR.reset (csr_addr CSR_MEPC) 0x80000003 WRITE = Some c'
             /\ RVCSR.read c' (csr_addr CSR_MEPC) = Some (Z.land 0x80000003 0xfffffffe).
Proof.
  apply (csr_write_read RVCSR.reset CSR_MEPC 0xfffffffe 0x80000003);
    [reflexivity | reflexivity | lia].
Defined.

(** ** The interrupt-enable stack of [mstatus], bit by bit *)

Lemma nz_land_bit x i : 0 <= i -> nz (Z.land x (2 ^ i)) = Z.testbit x i.
Proof.
  intros Hi. destruct (Z.testbit x i) eqn:E.
  - apply nz_true. intros H0.
    assert (Hb : Z.testbit (Z.land x (2 ^ i)) i = true)
      by (rewrite Z.land_spec, E, Z.pow2_bits_true by lia; reflexivity).
    rewrite H0, Z.bits_0 in Hb. discriminate.
  - apply nz_false. apply Z.bits_inj'. intros n Hn.
    rewrite Z.land_spec, Z.bits_0.
    destruct (Z.eq_dec n i) as [->|Hne].
    + rewrite E. reflexivity.
    + rewrite Z.pow2_bits_false by lia. apply andb_false_r.
Qed.

Lemma testbit_shl32_low p n i : 0 <= i < n -> n <= 32 -> Z.testbit (shl32 p n) i = false.
Proof.
  intros Hi Hn. unfold shl32, wrap32. rewrite Z.mod_pow2_bits_low by lia.
  rewrite Z.shiftl_spec by lia. apply Z.testbit_neg_r. lia.
Qed.

#[local] Hint Rewrite Z.land_spec Z.lor_spec : xstatus_bits.
#[local] Hint Rewrite testbit_not32 using lia : xstatus_bits.
#[local] Hint Rewrite testbit_shl32_low using lia : xstatus_bits.

(** X2.  [trap_mret] on every CSR state: the return address is [mepc],
    the new privilege is MPP, MPP is cleared, MPRV survives only a return
    to M-mode, MIE becomes [MIE || MPIE] (it is set when MPIE is set and
    otherwise keeps its value) and MPIE is cleared. *)
Theorem trap_mret_bits (c : RVCSR) :
  fst (RVCSR.trap_mret c) = mepc c
  /\ priv (snd (RVCSR.trap_mret c)) = GETBITS (xstatus c) 12 11
  /\ Z.testbit (xstatus (snd (RVCSR.trap_mret c))) 11 = false
  /\ Z.testbit (xstatus (snd (RVCSR.trap_mret c))) 12 = false
  /\ Z.testbit (xstatus (snd (RVCSR.trap_mret c))) 17
     = Z.testbit (xstatus c) 17 && (GETBITS (xstatus c) 12 11 =? PRV_M)
  /\ Z.testbit (xstatus (snd (RVCSR.trap_mret c))) 3
     = Z.testbit (xstatus c) 3 || Z.testbit (xstatus c) 7
  /\ Z.testbit (xstatus (snd (RVCSR.trap_mret c))) 7 = false.
Proof.
  unfold RVCSR.trap_mret. destruct c as [p ? ? ? x]. cbv zeta.
  cbn [apply_update priv xstatus mepc]. unfold constant.
  destruct (GETBITS x 12 11 =? PRV_M) eqn:E1; cbn [negb xstatus priv mepc];
    match goal with |- context [nz (Z.land ?y MSTATUS_MPIE)] =>
      destruct (nz (Z.land y MSTATUS_MPIE)) eqn:E2 end;
    change MSTATUS_MPIE with (2 ^ 7) in E2; rewrite nz_land_bit in E2 by lia;
    revert E2; xstatus_bits; intros E2;
    cbn [fst snd xstatus priv mepc];
    repeat split; xstatus_bits; rewrite ?E2, ?orb_true_r, ?orb_false_r; reflexivity.
Qed.

(** X3.  Trap entry on every CSR state, for either target privilege: xIE
    is cleared and xPIE becomes [xPIE || xIE] (it is set when xIE was set
    and otherwise keeps its value). *)
Theorem trap_enter_at_priv_bits (c : RVCSR) (xcause xepc : Z) :
  (Z.testbit (xstatus (snd (RVCSR.trap_enter_at_priv c xcause xepc PRV_M))) 3 = false
   /\ Z.testbit (xstatus (snd (RVCSR.trap_enter_at_priv c xcause xepc PRV_M))) 7
      = Z.testbit (xstatus c) 7 || Z.testbit (xstatus c) 3)
  /\ (Z.testbit (xstatus (snd (RVCSR.trap_enter_at_priv c xcause xepc PRV_S))) 1 = false
   /\ Z.testbit (xstatus (snd (RVCSR.trap_enter_at_priv c xcause xepc PRV_S))) 5
      = Z.testbit (xstatus c) 5 || Z.testbit (xstatus c) 1).
Proof.
  unfold RVCSR.trap_enter_at_priv.
  change (PRV_M =? PRV_M) with true. change (PRV_S =? PRV_M) with false.
  destruct c as [p ? ? ? x]. cbv zeta iota.
  cbn [apply_update priv xstatus mtvec stvec]. unfold constant.
  split.
  - match goal with |- context [nz (Z.land ?y MSTATUS_MIE)] =>
      destruct (nz (Z.land y MSTATUS_MIE)) eqn:E2 end;
    change MSTATUS_MIE with (2 ^ 3) in E2; rewrite nz_land_bit in E2 by lia;
    revert E2; xstatus_bits; intros E2;
    cbn [xstatus mtvec];
    match goal with |- context [if ?b then _ else _] => destruct b end;
    cbn [snd xstatus]; split; xstatus_bits;
    rewrite ?E2, ?orb_true_r, ?orb_false_r; reflexivity.
  - match goal with |- context [nz (Z.land ?y SSTATUS_SIE)] =>
      destruct (nz (Z.land y SSTATUS_SIE)) eqn:E2 end;
    change SSTATUS_SIE with (2 ^ 1) in E2; rewrite nz_land_bit in E2 by lia;
    revert E2; xstatus_bits; intros E2;
    cbn [xstatus stvec];
    match goal with |- context [if ?b then _ else _] => destruct b end;
    cbn [snd xstatus]; split; xstatus_bits;
    rewrite ?E2, ?orb_true_r, ?orb_false_r; reflexivity.
Qed.

(** ** What [execute] leaves to the commit *)

Section ExecFrame.
Context {D : Type} `{MemBase32.t D}.

Lemma exec_frame_refl (c : RVCore D) : exec_frame c c.
Proof. unfold exec_frame. tauto. Qed.

Lemma exec_frame_mem (c c' : RVCore D) m : exec_frame c c' -> exec_frame c (c' {{ mem := m }}).
Proof. unfold exec_frame. destruct c'. simpl. tauto. Qed.

Lemma exec_frame_lr (c c' : RVCore D) b :
  exec_frame c c' -> exec_frame c (c' {{ load_reserved := b }}).
Proof. unfold exec_frame. destruct c'. simpl. tauto. Qed.

Lemma exec_frame_csr (c c' : RVCore D) s : exec_frame c c' -> exec_frame c (c' {{ csr := s }}).
Proof. unfold exec_frame. destruct c'. simpl. tauto. Qed.

Lemma vmap_ls_exec_frame (c : RVCore D) vaddr req :
  exec_frame c (snd (RVCore.vmap_ls c vaddr req)).
Proof.
  pose proof (vmap_ls_same_hart c vaddr req) as Hs.
  unfold same_hart in Hs. unfold exec_frame. tauto.
Qed.

#[local] Hint Resolve exec_frame_refl exec_frame_mem exec_frame_lr exec_frame_csr : exec_frame.

Lemma exec_LOAD_frame (c : RVCore D) instr funct3 rs1 l :
  exec_frame c (fst (RVCore.exec_LOAD c instr funct3 rs1 l)).
Proof. unfold RVCore.exec_LOAD. frame_cases_with vmap_ls_exec_frame. Qed.

Lemma exec_STORE_frame (c : RVCore D) instr funct3 rs1 rs2 l :
  exec_frame c (fst (RVCore.exec_STORE c instr funct3 rs1 rs2 l)).
Proof. unfold RVCore.exec_STORE, RVCore.bus_write. frame_cases_with vmap_ls_exec_frame. Qed.

Lemma exec_AMO_frame (c : RVCore D) instr rs1 rs2 l :
  exec_frame c (fst (RVCore.exec_AMO c instr rs1 rs2 l)).
Proof. unfold RVCore.exec_AMO. frame_cases_with vmap_ls_exec_frame. Qed.

Lemma exec_SYSTEM_frame (c : RVCore D) instr funct3 regnum_rs1 rs1 l :
  exec_frame c (fst (RVCore.exec_SYSTEM c instr funct3 regnum_rs1 rs1 l)).
Proof. unfold RVCore.exec_SYSTEM. frame_cases_with vmap_ls_exec_frame. Qed.

Lemma c_load_frame (c : RVCore D) addr_v l : exec_frame c (fst (RVCore.c_load c addr_v l)).
Proof. unfold RVCore.c_load. frame_cases_with vmap_ls_exec_frame. Qed.

Lemma c_store_frame (c : RVCore D) addr_v data l :
  exec_frame c (fst (RVCore.c_store c addr_v data l)).
Proof. unfold RVCore.c_store, RVCore.bus_write. frame_cases_with vmap_ls_exec_frame. Qed.

#[local] Hint Resolve exec_LOAD_frame exec_STORE_frame exec_AMO_frame exec_SYSTEM_frame
  c_load_frame c_store_frame : exec_frame.

Lemma exec32_frame (c : RVCore D) instr l : exec_frame c (fst (RVCore.exec32 c instr l)).
Proof. unfold RVCore.exec32. cbv zeta. case_ifs; cbn [fst]; auto with exec_frame. Qed.

Lemma exec_rvc0_frame (c : RVCore D) instr l : exec_frame c (fst (RVCore.exec_rvc0 c instr l)).
Proof. unfold RVCore.exec_rvc0. cbv zeta. case_ifs; cbn [fst]; auto with exec_frame. Qed.

Lemma exec_rvc2_frame (c : RVCore D) instr l : exec_frame c (fst (RVCore.exec_rvc2 c instr l)).
Proof. unfold RVCore.exec_rvc2. cbv zeta. case_ifs; cbn [fst]; auto with exec_frame. Qed.

Lemma execute_frame (c : RVCore D) f : exec_frame c (fst (RVCore.execute c f)).
Proof.
  pose proof exec32_frame. pose proof exec_rvc0_frame. pose proof exec_rvc2_frame.
  unfold RVCore.execute. cbv zeta. case_ifs; cbn [fst]; auto with exec_frame.
Qed.

(** From the hart before [fetch] to the hart after [execute]. *)
Lemma step_frame (c c1 c2 : RVCore D) f l :
  RVCore.fetch c = (c1, f) -> RVCore.execute c1 f = (c2, l) ->
  regs c2 = regs c /\ pc c2 = pc c.
Proof.
  intros Hf He.
  pose proof (fetch_same_hart c) as H1. rewrite Hf in H1. cbn [fst] in H1.
  pose proof (execute_frame c1 f) as H2. rewrite He in H2. cbn [fst] in H2.
  unfold same_hart in H1. unfold exec_frame in H2. intuition congruence.
Qed.

End ExecFrame.

(** ** The commit: interrupts, the PC and the register file *)

Lemma step_counters_keeps (s : RVCSR) :
  priv (RVCSR.step_counters s) = priv s
  /\ mepc (RVCSR.step_counters s) = mepc s
  /\ sepc (RVCSR.step_counters s) = sepc s.
Proof. destruct s. repeat split; reflexivity. Qed.

Lemma trap_check_enter_irq_xepc (s s' : RVCSR) (xepc target : Z) :
  RVCSR.trap_check_enter_irq s xepc = (Some target, s') ->
  (priv s' = PRV_M /\ mepc s' = xepc) \/ (priv s' = PRV_S /\ sepc s' = xepc).
Proof.
  unfold RVCSR.trap_check_enter_irq. cbv zeta.
  match goal with |- context [if ?b then _ else _] => destruct b end.
  - match goal with |- context [RVCSR.trap_enter_at_priv s ?cause xepc PRV_M] =>
      pose proof (trap_enter_at_priv_M s cause xepc) as (Hp & _ & He);
      destruct (RVCSR.trap_enter_at_priv s cause xepc PRV_M) as [t s1] end.
    cbn [snd] in Hp, He. intros Heq. inversion Heq; subst.
    left. split; [assumption | reflexivity].
  - match goal with |- context [if ?b then _ else _] => destruct b end;
      [|discriminate].
    match goal with |- context [RVCSR.trap_enter_at_priv s ?cause xepc PRV_S] =>
      pose proof (trap_enter_at_priv_S s cause xepc) as (Hp & _ & He);
      destruct (RVCSR.trap_enter_at_priv s cause xepc PRV_S) as [t s1] end.
    cbn [snd] in Hp, He. intros Heq. inversion Heq; subst.
    right. split; [assumption | reflexivity].
Qed.

Lemma GETBITS_nonneg x msb lsb : 0 <= GETBITS x msb lsb.
Proof.
  unfold GETBITS, shr32. apply Z.shiftr_nonneg. apply Z.land_nonneg. right.
  unfold BITRANGE, shl32, wrap32. apply Z.mod_pos_bound. lia.
Qed.

Lemma c_rs1_s_nonneg instr : 0 <= c_rs1_s instr.
Proof. unfold c_rs1_s. pose proof (GETBITS_nonneg instr 9 7). lia. Qed.

Lemma c_rs2_s_nonneg instr : 0 <= c_rs2_s instr.
Proof. unfold c_rs2_s. pose proof (GETBITS_nonneg instr 4 2). lia. Qed.

Lemma c_rs1_l_nonneg instr : 0 <= c_rs1_l instr.
Proof. apply GETBITS_nonneg. Qed.

#[local] Hint Resolve c_rs1_s_nonneg c_rs2_s_nonneg c_rs1_l_nonneg : rd_nonneg.

Section Commit.
Context {D : Type} `{MemBase32.t D}.

Lemma writeback_irq (c : RVCore D) instr l target csr' :
  exception_cause l = None ->
  RVCSR.trap_check_enter_irq (csr c)
    (match pc_wdata l with Some v => v | None => pc c end) = (Some target, csr') ->
  pc (RVCore.writeback c instr l) = target
  /\ csr (RVCore.writeback c instr l) = RVCSR.step_counters csr'.
Proof.
  intros He Hirq. unfold RVCore.writeback.
  destruct l as [rdw pcw exc xt rd]. cbn [exception_cause pc_wdata] in He, Hirq. subst exc.
  wb_norm. rewrite Hirq. wb_norm.
  destruct rdw; [destruct (rd =? 0)|]; split; reflexivity.
Qed.

Lemma writeback_pc_fall_through (c : RVCore D) instr l :
  exception_cause l = None -> pc_wdata l = None ->
  fst (RVCSR.trap_check_enter_irq (csr c) (pc c)) = None ->
  pc (RVCore.writeback c instr l)
  = add32 (pc c) (if Z.land instr 0x3 =? 0x3 then 4 else 2).
Proof.
  intros He Hpc Hirq. unfold RVCore.writeback.
  destruct l as [rdw pcw exc xt rd]. cbn [exception_cause pc_wdata] in He, Hpc. subst exc pcw.
  wb_norm. destruct (RVCSR.trap_check_enter_irq (csr c) (pc c)) as [t csr'].
  cbn [fst] in Hirq. subst t. wb_norm.
  destruct rdw; [destruct (rd =? 0)|]; reflexivity.
Qed.

(** X4.  The [xepc] of an interrupt, for every step whose instruction
    raises no exception and after which an interrupt is taken: the PC goes
    to the interrupt's target, and [mepc] (for an M target) or [sepc] (for
    an S target) is the PC the instruction wrote if it wrote one, and
    otherwise the address of the instruction itself. *)
Theorem irq_xepc (c c1 c2 : RVCore D) (f : Fetched) (l : StepLocals)
    (target : Z) (csr' : RVCSR) :
  RVCore.fetch c = (c1, f) -> RVCore.execute c1 f = (c2, l) ->
  exception_cause l = None ->
  RVCSR.trap_check_enter_irq (csr c2)
    (match pc_wdata l with Some v => v | None => pc c end) = (Some target, csr') ->
  pc (RVCore.step c) = target
  /\ (priv (csr (RVCore.step c)) = PRV_M
      /\ mepc (csr (RVCore.step c)) = match pc_wdata l with Some v => v | None => pc c end
      \/ priv (csr (RVCore.step c)) = PRV_S
      /\ sepc (csr (RVCore.step c)) = match pc_wdata l with Some v => v | None => pc c end).
Proof.
  intros Hf He Hexc Hirq.
  destruct (step_frame _ _ _ _ _ Hf He) as [_ Hpc].
  rewrite (step_unfold c c1 f Hf), He. cbn [fst snd].
  rewrite <- Hpc in Hirq |- *.
  destruct (writeback_irq c2 (RVCore.instr_of f) l target csr' Hexc Hirq) as [Hp Hc].
  split; [exact Hp|]. rewrite Hc.
  destruct (step_counters_keeps csr') as (-> & -> & ->).
  exact (trap_check_enter_irq_xepc _ _ _ _ Hirq).
Qed.

(** X5.  PC length rule: a step whose instruction raises no exception and
    writes no PC, and after which no interrupt is taken, advances the PC
    by 4 when the low bits of the instruction are 11 and by 2 otherwise. *)
Theorem pc_length_rule (c c1 c2 : RVCore D) (f : Fetched) (l : StepLocals) :
  RVCore.fetch c = (c1, f) -> RVCore.execute c1 f = (c2, l) ->
  exception_cause l = None -> pc_wdata l = None ->
  fst (RVCSR.trap_check_enter_irq (csr c2) (pc c)) = None ->
  pc (RVCore.step c)
  = add32 (pc c) (if Z.land (RVCore.instr_of f) 0x3 =? 0x3 then 4 else 2).
Proof.
  intros Hf He Hexc Hpcw Hirq.
  destruct (step_frame _ _ _ _ _ Hf He) as [_ Hpc].
  rewrite (step_unfold c c1 f Hf), He. cbn [fst snd].
  rewrite <- Hpc in Hirq |- *.
  apply writeback_pc_fall_through; assumption.
Qed.

(** *** The destination register number *)

Lemma exec_OP_rd funct3 funct7 rs1 rs2 l :
  regnum_rd (RVCore.exec_OP funct3 funct7 rs1 rs2 l) = regnum_rd l.
Proof. unfold RVCore.exec_OP. rd_cases. Qed.

Lemma exec_OP_IMM_rd instr funct3 funct7 regnum_rs2 rs1 l :
  regnum_rd (RVCore.exec_OP_IMM instr funct3 funct7 regnum_rs2 rs1 l) = regnum_rd l.
Proof. unfold RVCore.exec_OP_IMM. rd_cases. Qed.

Lemma exec_BRANCH_rd pc_ instr funct3 rs1 rs2 l :
  regnum_rd (RVCore.exec_BRANCH pc_ instr funct3 rs1 rs2 l) = regnum_rd l.
Proof. unfold RVCore.exec_BRANCH. rd_cases. Qed.

Lemma exec_MISC_MEM_rd instr l : regnum_rd (RVCore.exec_MISC_MEM instr l) = regnum_rd l.
Proof. unfold RVCore.exec_MISC_MEM. rd_cases. Qed.

Lemma exec_LOAD_rd (c : RVCore D) instr funct3 rs1 l :
  regnum_rd (snd (RVCore.exec_LOAD c instr funct3 rs1 l)) = regnum_rd l.
Proof. unfold RVCore.exec_LOAD. rd_cases. Qed.

Lemma exec_STORE_rd (c : RVCore D) instr funct3 rs1 rs2 l :
  regnum_rd (snd (RVCore.exec_STORE c instr funct3 rs1 rs2 l)) = regnum_rd l.
Proof. unfold RVCore.exec_STORE, RVCore.bus_write. rd_cases. Qed.

Lemma exec_AMO_rd (c : RVCore D) instr rs1 rs2 l :
  regnum_rd (snd (RVCore.exec_AMO c instr rs1 rs2 l)) = regnum_rd l.
Proof. unfold RVCore.exec_AMO. rd_cases. Qed.

Lemma exec_SYSTEM_rd (c : RVCore D) instr funct3 regnum_rs1 rs1 l :
  regnum_rd (snd (RVCore.exec_SYSTEM c instr funct3 regnum_rs1 rs1 l)) = regnum_rd l.
Proof. unfold RVCore.exec_SYSTEM. rd_cases. Qed.

Lemma c_load_rd (c : RVCore D) addr_v l :
  regnum_rd (snd (RVCore.c_load c addr_v l)) = regnum_rd l.
Proof. unfold RVCore.c_load. rd_cases. Qed.

Lemma c_store_rd (c : RVCore D) addr_v data l :
  regnum_rd (snd (RVCore.c_store c addr_v data l)) = regnum_rd l.
Proof. unfold RVCore.c_store, RVCore.bus_write. rd_cases. Qed.

Lemma exec32_rd (c : RVCore D) instr l :
  regnum_rd (snd (RVCore.exec32 c instr l)) = regnum_rd_of instr.
Proof.
  unfold RVCore.exec32. cbv zeta. case_ifs; cbn [snd];
  rewrite ?exec_OP_rd, ?exec_OP_IMM_rd, ?exec_BRANCH_rd, ?exec_MISC_MEM_rd,
          ?exec_LOAD_rd, ?exec_STORE_rd, ?exec_AMO_rd, ?exec_SYSTEM_rd;
  reflexivity.
Qed.

Lemma exec_rvc0_rd (c : RVCore D) instr l :
  0 <= regnum_rd l -> 0 <= regnum_rd (snd (RVCore.exec_rvc0 c instr l)).
Proof.
  intros Hl. unfold RVCore.exec_rvc0. cbv zeta. case_ifs; cbn [snd];
  rewrite ?c_load_rd, ?c_store_rd; wb_norm; auto with rd_nonneg.
Qed.

Lemma exec_rvc1_rd (c : RVCore D) instr l :
  0 <= regnum_rd l -> 0 <= regnum_rd (RVCore.exec_rvc1 c instr l).
Proof.
  intros Hl. unfold RVCore.exec_rvc1. cbv zeta. case_ifs;
  wb_norm; auto with rd_nonneg; lia.
Qed.

Lemma exec_rvc2_rd (c : RVCore D) instr l :
  0 <= regnum_rd l -> 0 <= regnum_rd (snd (RVCore.exec_rvc2 c instr l)).
Proof.
  intros Hl. unfold RVCore.exec_rvc2. cbv zeta. case_ifs; cbn [snd];
  rewrite ?c_load_rd, ?c_store_rd; wb_norm; auto with rd_nonneg; lia.
Qed.

Lemma execute_rd (c : RVCore D) f : 0 <= regnum_rd (snd (RVCore.execute c f)).
Proof.
  unfold RVCore.execute. cbv zeta. case_ifs; cbn [snd];
  first [ rewrite exec32_rd; apply (proj1 (regnum_rd_of_range _))
        | apply exec_rvc0_rd; cbn; lia
        | apply exec_rvc1_rd; cbn; lia
        | apply exec_rvc2_rd; cbn; lia
        | cbn; lia ].
Qed.

(** X6.  The register [x0] is never written: every step leaves entry 0 of
    the register file as it was, whatever instruction it executes and
    whether or not it traps. *)
Theorem step_keeps_x0 (c : RVCore D) : RVCore.reg (RVCore.step c) 0 = RVCore.reg c 0.
Proof.
  destruct (RVCore.fetch c) as [c1 f] eqn:Hf.
  destruct (RVCore.execute c1 f) as [c2 l] eqn:He.
  destruct (step_frame _ _ _ _ _ Hf He) as [Hregs _].
  pose proof (execute_rd c1 f) as Hrd. rewrite He in Hrd. cbn [snd] in Hrd.
  rewrite (step_unfold c c1 f Hf), He. cbn [fst snd].
  unfold RVCore.reg. rewrite writeback_regs, <- Hregs.
  destruct (rd_wdata l) as [v|]; [|reflexivity].
  destruct (regnum_rd l =? 0) eqn:E; [reflexivity|]. apply Z.eqb_neq in E.
  cbn [negb]. apply list_lookup_total_insert_ne. change (Z.to_nat 0) with 0%nat. lia.
Qed.

End Commit.

(** [irq_xepc] at [irq_hart]: [addi x1, x1, 1] writes no PC, the machine
    timer interrupt is taken, and [mepc] is the address of the [addi]. *)
Lemma irq_xepc_witness :
  pc (RVCore.step irq_hart) = 0x80000100
  /\ (priv (csr (RVCore.step irq_hart)) = PRV_M
      /\ mepc (csr (RVCore.step irq_hart)) = pc irq_hart
      \/ priv (csr (RVCore.step irq_hart)) = PRV_S
      /\ sepc (csr (RVCore.step irq_hart)) = pc irq_hart).
Proof.
  pose (c1 := fst (RVCore.fetch irq_hart)).
  pose (f := snd (RVCore.fetch irq_hart)).
  pose (c2 := fst (RVCore.execute c1 f)).
  pose (l := snd (RVCore.execute c1 f)).
  pose (s := snd (RVCSR.trap_check_enter_irq (csr c2) (pc irq_hart))).
  apply (irq_xepc irq_hart c1 c2 f l 0x80000100 s).
  - apply surjective_pairing.
  - apply surjective_pairing.
  - vm_compute. reflexivity.
  - vm_compute. reflexivity.
Defined.

(** [pc_length_rule] at [scenario1]: the first [addi] is a 32-bit
    instruction and no interrupt is pending. *)
Lemma pc_length_rule_witness : pc (RVCore.step scenario1) = add32 (pc scenario1) 4.
Proof.
  pose (c1 := fst (RVCore.fetch scenario1)).
  pose (f := snd (RVCore.fetch scenario1)).
  pose (c2 := fst (RVCore.execute c1 f)).
  pose (l := snd (RVCore.execute c1 f)).
  apply (pc_length_rule scenario1 c1 c2 f l).
  - apply surjective_pairing.
  - apply surjective_pairing.
  - vm_compute. reflexivity.
  - vm_compute. reflexivity.
  - vm_compute. reflexivity.
Defined.

(** ** Delegation, and the return that follows a trap *)

(** X7.  Exception delegation, for a hart in U, S or M: the trap is
    taken in S exactly when the cause is delegated in [medeleg] and the
    hart is not in M; otherwise it is taken in M. *)
Theorem exception_delegation (s : RVCSR) (cause xepc : Z) :
  priv s = PRV_U \/ priv s = PRV_S \/ priv s = PRV_M ->
  priv (snd (RVCSR.trap_enter_exception s cause xepc))
  = if nz (Z.land (medeleg s) (shl32 1 cause)) && (priv s <=? PRV_S) then PRV_S else PRV_M.
Proof.
  intros Hp. unfold RVCSR.trap_enter_exception. cbv zeta.
  destruct (nz (Z.land (medeleg s) (shl32 1 cause)));
    destruct Hp as [-> | [-> | ->]]; cbn [andb];
    repeat match goal with
    | |- context [?a <? ?b] => let v := eval vm_compute in (a <? b) in change (a <? b) with v
    | |- context [?a <=? ?b] => let v := eval vm_compute in (a <=? b) in change (a <=? b) with v
    end; cbv iota;
    match goal with
    | |- priv (snd (RVCSR.trap_enter_at_priv _ _ _ PRV_M)) = _ =>
        exact (proj1 (trap_enter_at_priv_M _ _ _))
    | |- priv (snd (RVCSR.trap_enter_at_priv _ _ _ PRV_S)) = _ =>
        exact (proj1 (trap_enter_at_priv_S _ _ _))
    end.
Qed.

(** The theorem at [scenario5]: an [ecall] from U, delegated. *)
Lemma exception_delegation_witness :
  priv (snd (RVCSR.trap_enter_exception (csr scenario5) XCAUSE_ECALL_U RAM_BASE)) = PRV_S.
Proof.
  assert (Hp : priv (csr scenario5) = PRV_U \/ priv (csr scenario5) = PRV_S
               \/ priv (csr scenario5) = PRV_M) by (left; vm_compute; reflexivity).
  rewrite (exception_delegation (csr scenario5) XCAUSE_ECALL_U RAM_BASE Hp).
  vm_compute. reflexivity.
Defined.

Lemma testbit_above m k n : 0 <= m < 2 ^ k -> 0 <= k <= n -> Z.testbit m n = false.
Proof.
  intros Hm Hn. rewrite <- (Z.mod_small m (2 ^ k)) by lia.
  apply Z.mod_pow2_bits_high. lia.
Qed.

Lemma GETBITS_12_11 y P :
  0 <= P < 4 -> Z.testbit y 11 = Z.testbit P 0 -> Z.testbit y 12 = Z.testbit P 1 ->
  GETBITS y 12 11 = P.
Proof.
  intros HP H11 H12. unfold GETBITS, shr32.
  change (BITRANGE 12 11) with 0x1800.
  apply Z.bits_inj'. intros n Hn.
  rewrite Z.shiftr_spec, Z.land_spec by lia.
  destruct (Z.eq_dec n 0) as [->|H0]; [rewrite <- H11; apply andb_true_r|].
  destruct (Z.eq_dec n 1) as [->|H1]; [rewrite <- H12; apply andb_true_r|].
  rewrite (testbit_above 0x1800 13 (n + 11)) by lia.
  rewrite andb_false_r. symmetry. apply (testbit_above P 2); lia.
Qed.

Lemma GETBIT_8 y P : 0 <= P < 2 -> Z.testbit y 8 = Z.testbit P 0 -> GETBIT y 8 = P.
Proof.
  intros HP H8. unfold GETBIT, shr32.
  apply Z.bits_inj'. intros n Hn.
  rewrite Z.land_spec, Z.shiftr_spec by lia.
  destruct (Z.eq_dec n 0) as [->|H0]; [rewrite <- H8; apply andb_true_r|].
  rewrite (testbit_above 1 1 n) by lia.
  rewrite andb_false_r. symmetry. apply (testbit_above P 1); lia.
Qed.

Lemma trap_sret_no_TSR (s : RVCSR) (pc_ : Z) :
  Z.testbit (xstatus s) 22 = false ->
  fst (RVCSR.trap_sret s pc_) = sepc s
  /\ priv (snd (RVCSR.trap_sret s pc_)) = GETBIT (xstatus s) 8.
Proof.
  intros Htsr. unfold RVCSR.trap_sret.
  change MSTATUS_TSR with (2 ^ 22). rewrite nz_land_bit, Htsr by lia.
  cbn [andb]. cbv iota zeta. destruct s. cbn [apply_update priv xstatus sepc].
  unfold constant. case_ifs; split; reflexivity.
Qed.

Lemma trap_enter_at_priv_M_MPP (s : RVCSR) (cause xepc : Z) :
  priv s = PRV_U \/ priv s = PRV_S \/ priv s = PRV_M ->
  GETBITS (xstatus (snd (RVCSR.trap_enter_at_priv s cause xepc PRV_M))) 12 11 = priv s.
Proof.
  intros Hp. unfold RVCSR.trap_enter_at_priv. change (PRV_M =? PRV_M) with true.
  destruct s as [p ? ? ? x]. cbn [priv] in Hp |- *. cbv zeta iota.
  cbn [apply_update priv xstatus mtvec]. unfold constant.
  case_ifs; cbn [snd xstatus]; apply GETBITS_12_11;
    destruct Hp as [-> | [-> | ->]]; first [ cbv delta [PRV_U PRV_S PRV_M]; lia | xstatus_bits; reflexivity ].
Qed.

Lemma trap_enter_at_priv_S_SPP (s : RVCSR) (cause xepc : Z) :
  priv s = PRV_U \/ priv s = PRV_S ->
  GETBIT (xstatus (snd (RVCSR.trap_enter_at_priv s cause xepc PRV_S))) 8 = priv s
  /\ Z.testbit (xstatus (snd (RVCSR.trap_enter_at_priv s cause xepc PRV_S))) 22
     = Z.testbit (xstatus s) 22.
Proof.
  intros Hp. unfold RVCSR.trap_enter_at_priv. change (PRV_S =? PRV_M) with false.
  destruct s as [p ? ? ? x]. cbn [priv] in Hp |- *. cbv zeta iota.
  cbn [apply_update priv xstatus stvec]. unfold constant.
  case_ifs; cbn [snd xstatus]; (split; [apply GETBIT_8|]);
    destruct Hp as [-> | ->]; first [ cbv delta [PRV_U PRV_S PRV_M]; lia | xstatus_bits; reflexivity ].
Qed.

Lemma trap_mret_returns (s : RVCSR) :
  fst (RVCSR.trap_mret s) = mepc s
  /\ priv (snd (RVCSR.trap_mret s)) = GETBITS (xstatus s) 12 11.
Proof.
  unfold RVCSR.trap_mret. destruct s. cbv zeta.
  cbn [apply_update priv xstatus mepc]. unfold constant.
  case_ifs; split; reflexivity.
Qed.

(** X8.  [mret] after a trap taken in M from privilege U, S or M
    returns to the saved PC in the privilege the trap came from; [sret]
    after a trap taken in S from U or S does the same, [TSR] being
    clear. *)
Theorem xret_after_trap (s : RVCSR) (cause xepc pc_ : Z) :
  (priv s = PRV_U \/ priv s = PRV_S \/ priv s = PRV_M ->
   fst (RVCSR.trap_mret (snd (RVCSR.trap_enter_at_priv s cause xepc PRV_M))) = xepc
   /\ priv (snd (RVCSR.trap_mret (snd (RVCSR.trap_enter_at_priv s cause xepc PRV_M))))
      = priv s)
  /\ (priv s = PRV_U \/ priv s = PRV_S ->
      Z.testbit (xstatus s) 22 = false ->
      fst (RVCSR.trap_sret (snd (RVCSR.trap_enter_at_priv s cause xepc PRV_S)) pc_) = xepc
      /\ priv (snd (RVCSR.trap_sret (snd (RVCSR.trap_enter_at_priv s cause xepc PRV_S)) pc_))
         = priv s).
Proof.
  split.
  - intros Hp.
    destruct (trap_mret_returns (snd (RVCSR.trap_enter_at_priv s cause xepc PRV_M)))
      as (-> & ->).
    destruct (trap_enter_at_priv_M s cause xepc) as (_ & _ & ->).
    split; [reflexivity | apply trap_enter_at_priv_M_MPP; assumption].
  - intros Hp Htsr.
    destruct (trap_enter_at_priv_S_SPP s cause xepc Hp) as [H8 H22].
    rewrite Htsr in H22.
    destruct (trap_sret_no_TSR _ pc_ H22) as [-> ->].
    destruct (trap_enter_at_priv_S s cause xepc) as (_ & _ & ->).
    split; [reflexivity | exact H8].
Qed.

(** The theorem after reset, where the hart is in M: a trap taken in M
    and the [mret] that follows come back to M at the saved PC. *)
Lemma xret_after_trap_witness :
  fst (RVCSR.trap_mret (snd (RVCSR.trap_enter_at_priv RVCSR.reset XCAUSE_INSTR_ILLEGAL
                                                      RAM_BASE PRV_M))) = RAM_BASE
  /\ priv (snd (RVCSR.trap_mret (snd (RVCSR.trap_enter_at_priv RVCSR.reset
                                        XCAUSE_INSTR_ILLEGAL RAM_BASE PRV_M)))) = PRV_M.
Proof.
  destruct (xret_after_trap RVCSR.reset XCAUSE_INSTR_ILLEGAL RAM_BASE 0) as [Hm _].
  apply Hm. right. right. reflexivity.
Defined.

(** ** The counters *)

(** X9.  Counter tick: [step_counters] adds one to the 64-bit [mcycle]
    and to the 64-bit [minstret], modulo [2^64], and splits each back into
    two 32-bit halves. *)
Theorem step_counters_tick (s : RVCSR) :
  0 <= mcycle s < 2 ^ 32 -> 0 <= mcycleh s < 2 ^ 32 ->
  0 <= minstret s < 2 ^ 32 -> 0 <= minstreth s < 2 ^ 32 ->
  mcycle64 (RVCSR.step_counters s) = (mcycle64 s + 1) mod 2 ^ 64
  /\ minstret64 (RVCSR.step_counters s) = (minstret64 s + 1) mod 2 ^ 64
  /\ 0 <= mcycle (RVCSR.step_counters s) < 2 ^ 32
  /\ 0 <= minstret (RVCSR.step_counters s) < 2 ^ 32.
Proof.
  intros H1 H2 H3 H4. unfold mcycle64, minstret64, RVCSR.step_counters.
  destruct s. cbn [mcycle mcycleh minstret minstreth] in *. cbv zeta.
  cbn [apply_update mcycle mcycleh minstret minstreth]. unfold constant, wrap64.
  change 0xffffffff with (Z.ones 32).
  rewrite !Z.land_ones, !Z.shiftr_div_pow2, !Z.shiftl_mul_pow2 by lia.
  rewrite (Z.mod_small (mcycleh0 * 2 ^ 32)), (Z.mod_small (minstreth0 * 2 ^ 32)) by nia.
  repeat split; try (apply Z.mod_pos_bound; lia).
  - set (n := (mcycleh0 * 2 ^ 32 + mcycle0 + 1) mod 2 ^ 64).
    pose proof (Z.div_mod n (2 ^ 32) ltac:(lia)). lia.
  - set (n := (minstreth0 * 2 ^ 32 + minstret0 + 1) mod 2 ^ 64).
    pose proof (Z.div_mod n (2 ^ 32) ltac:(lia)). lia.
Qed.

(** The theorem after reset: both counters read 1 after the first tick. *)
Lemma step_counters_tick_witness :
  mcycle64 (RVCSR.step_counters RVCSR.reset) = (mcycle64 RVCSR.reset + 1) mod 2 ^ 64
  /\ minstret64 (RVCSR.step_counters RVCSR.reset) = (minstret64 RVCSR.reset + 1) mod 2 ^ 64
  /\ 0 <= mcycle (RVCSR.step_counters RVCSR.reset) < 2 ^ 32
  /\ 0 <= minstret (RVCSR.step_counters RVCSR.reset) < 2 ^ 32.
Proof.
  apply (step_counters_tick RVCSR.reset); cbn; lia.
Defined.

(** ** The Sv32 walk: superpages and the A/D bits *)

Section Sv32Leaf.
Context {D : Type} `{MemBase32.t D}.

(** X10.  Superpage alignment: a valid first-level leaf PTE with a
    nonzero bit among PPN bits 9:0 (PTE bits 19:10) makes the walk fail,
    for every request. *)
Theorem superpage_misaligned (c : RVCore D) (vaddr atp p req pte1 : Z) :
  RVCore.r32 c (addr_of_pte1 atp vaddr) = Some pte1 ->
  nz (Z.land pte1 PTE_V) = true ->
  nz (Z.land pte1 (Z.lor (Z.lor PTE_X PTE_W) PTE_R)) = true ->
  Z.land pte1 0x000ffc00 <> 0 ->
  fst (RVCore.vmap_sv32 c vaddr atp p req) = None.
Proof.
  intros Hr Hv Hl Ha. apply (vmap_sv32_leaf1 c vaddr atp p req pte1 Hr Hv Hl).
  right. left. exact Ha.
Qed.

(** X11.  A/D update at a second-level leaf: when the walk succeeds,
    the physical address is the PTE's page with the page offset of the
    virtual address, and either the PTE already had A set (and D, for a
    request that includes W) and nothing is written, or the PTE with
    those bits set has been written back to where it was read. *)
Theorem a_d_update_leaf0 (c c' : RVCore D) (vaddr atp p req pte1 pte0 paddr : Z) :
  RVCore.r32 c (addr_of_pte1 atp vaddr) = Some pte1 ->
  nz (Z.land pte1 PTE_V) = true ->
  nz (Z.land pte1 (Z.lor (Z.lor PTE_X PTE_W) PTE_R)) = false ->
  RVCore.r32 c (addr_of_pte0 pte1 vaddr) = Some pte0 ->
  RVCore.vmap_sv32 c vaddr atp p req = (Some paddr, c') ->
  paddr = Z.lor (Z.land (shl32 pte0 2) 0xfffff000) (Z.land vaddr 0xfff)
  /\ (RVCore.pte_a_d_update pte0 req = pte0 /\ c' = c
      \/ RVCore.pte_a_d_update pte0 req <> pte0
         /\ RVCore.w32 c (addr_of_pte0 pte1 vaddr) (RVCore.pte_a_d_update pte0 req) = Some c').
Proof.
  intros Hr1 Hv1 Hl1 Hr0. unfold RVCore.vmap_sv32.
  fold (addr_of_pte1 atp vaddr). rewrite Hr1, Hv1, Hl1. cbv iota beta.
  change (negb true) with false. cbv iota.
  fold (addr_of_pte0 pte1 vaddr). rewrite Hr0. cbv iota beta zeta.
  destruct (negb (nz (Z.land pte0 PTE_V) && _)); [discriminate|].
  destruct (negb (RVCSR.pte_permissions_ok (csr c) pte0 req)); [discriminate|].
  destruct (RVCore.pte_a_d_update pte0 req =? pte0) eqn:Eu; cbn [negb].
  - apply Z.eqb_eq in Eu. intros Heq. inversion Heq; subst. split; [reflexivity|].
    left. split; [exact Eu | reflexivity].
  - apply Z.eqb_neq in Eu.
    destruct (RVCore.w32 c (addr_of_pte0 pte1 vaddr) (RVCore.pte_a_d_update pte0 req))
      as [c1|]; [|discriminate].
    intros Heq. inversion Heq; subst. split; [reflexivity|].
    right. split; [exact Eu | reflexivity].
Qed.

End Sv32Leaf.

(** [superpage_misaligned] at [sv32_misaligned_hart]: a load from virtual
    [0x100] finds the misaligned leaf and fails. *)
Lemma superpage_misaligned_witness :
  fst (RVCore.vmap_sv32 sv32_misaligned_hart 0x100
         (RVCSR.get_atp (csr sv32_misaligned_hart)) PRV_S PTE_R) = None.
Proof.
  apply (superpage_misaligned sv32_misaligned_hart 0x100
           (RVCSR.get_atp (csr sv32_misaligned_hart)) PRV_S PTE_R PTE1_misaligned).
  - vm_compute. reflexivity.
  - vm_compute. reflexivity.
  - vm_compute. reflexivity.
  - vm_compute. discriminate.
Defined.

(** [a_d_update_leaf0] at [page_end_hart]: a fetch from virtual [0x1000]
    walks to the entry of page 1, whose A bit is clear, and writes the
    entry back with A set. *)
Lemma a_d_update_leaf0_witness :
  RVCore.w32 page_end_hart (RAM_BASE + 0x1004) (Z.lor PTE0_page1 PTE_A)
  = Some (snd (RVCore.vmap_sv32 page_end_hart 0x1000
                 (RVCSR.get_atp (csr page_end_hart)) PRV_S PTE_X)).
Proof.
  destruct (a_d_update_leaf0 page_end_hart
              (snd (RVCore.vmap_sv32 page_end_hart 0x1000
                      (RVCSR.get_atp (csr page_end_hart)) PRV_S PTE_X))
              0x1000 (RVCSR.get_atp (csr page_end_hart)) PRV_S PTE_X
              PTE1_pointer PTE0_page1 0x80003000)
    as (_ & [[Hu _] | [_ Hw]]).
  - vm_compute. reflexivity.
  - vm_compute. reflexivity.
  - vm_compute. reflexivity.
  - vm_compute. reflexivity.
  - apply injective_projections; [vm_compute; reflexivity | reflexivity].
  - vm_compute in Hu. discriminate.
  - exact Hw.
Defined.

(** ** The end-to-end scenarios of section 8 *)

(** The six literal scenarios of section 8, run on the test bench:
    1. [addi x1, x0, -1; addi x2, x1, 1] leaves [x1 = 0xffffffff], [x2 = 0];
    2. [li a0, 0xdead; sw a0, 0(sp); lw a1, 0(sp)] at [sp = 0x80001000]
       leaves [a1 = 0xdead] and the word at [0x80001000] equal to [0xdead];
    3. [csrrs t0, mstatus, x0] after reset leaves [t0 = 0];
    4. the illegal instruction 0 at [0x80000000] gives [mcause = 2],
       [mepc = 0x80000000], [mtval = 0], M-mode, and [pc] at the [mtvec] base;
    5. [ecall] from U with [medeleg[8] = 1] gives S-mode, [scause = 8],
       [sepc] the PC of the [ecall], and [pc] at the [stvec] base;
    6. [lr.w] then [sc.w] at [0x80002000] gives [rd = 0] and the word
       written; the [sc.w] that follows gives [rd = 1] and the word
       unchanged. *)
Theorem end_to_end_scenarios :
  (RVCore.reg (steps 2 scenario1) 1 = 0xffffffff /\ RVCore.reg (steps 2 scenario1) 2 = 0)
  /\ (RVCore.reg (steps 4 scenario2) 11 = 0xdead
      /\ MemBase32.r32 (mem (steps 4 scenario2)) 0x80001000 = Some 0xdead)
  /\ RVCore.reg (steps 1 scenario3) 5 = 0
  /\ (mcause (csr (steps 1 scenario4)) = 2 /\ mepc (csr (steps 1 scenario4)) = 0x80000000
      /\ mtval (csr (steps 1 scenario4)) = 0 /\ priv (csr (steps 1 scenario4)) = PRV_M
      /\ pc (steps 1 scenario4) = 0x80000040)
  /\ (priv (csr (steps 1 scenario5)) = PRV_S /\ scause (csr (steps 1 scenario5)) = 8
      /\ sepc (csr (steps 1 scenario5)) = pc scenario5
      /\ pc (steps 1 scenario5) = 0x80000040)
  /\ (MemBase32.r32 (mem scenario6) 0x80002000 = Some 0
      /\ RVCore.reg (steps 2 scenario6) 5 = 0
      /\ MemBase32.r32 (mem (steps 2 scenario6)) 0x80002000 = Some 0xdead
      /\ RVCore.reg (steps 3 scenario6) 5 = 1
      /\ MemBase32.r32 (mem (steps 3 scenario6)) 0x80002000 = Some 0xdead).
Proof. vm_compute. repeat split; reflexivity. Qed.
(** * The memories, the devices and the hart

    ** mem.h: [FlatMem32] *)

Lemma shiftr2_lt a s : 0 <= a -> a < s -> s mod 4 = 0 -> a mod 4 = 0 ->
  Z.shiftr a 2 < Z.shiftr s 2.
Proof.
  intros Ha Hs Hm Hma. rewrite !Z.shiftr_div_pow2 by lia. change (2 ^ 2) with 4.
  Z.div_mod_to_equations. lia.
Qed.

Lemma shiftr2_le_lt a s : 0 <= a -> a < s -> s mod 4 = 0 -> Z.shiftr a 2 < Z.shiftr s 2.
Proof.
  intros Ha Hs Hm. rewrite !Z.shiftr_div_pow2 by lia. change (2 ^ 2) with 4.
  Z.div_mod_to_equations. lia.
Qed.

Lemma flat_index (m : FlatMem32.t) a :
  flat_wf m -> 0 <= a -> a < FlatMem32.size m ->
  (Z.to_nat (Z.shiftr a 2) < length (FlatMem32.mem m))%nat.
Proof.
  intros (Hs & Hm & Hl) Ha Hlt. rewrite Hl.
  pose proof (shiftr2_le_lt a _ Ha Hlt Hm).
  assert (0 <= Z.shiftr a 2) by (apply Z.shiftr_nonneg; lia). lia.
Qed.

Lemma flat_set_word_wf (m : FlatMem32.t) i v : flat_wf m -> flat_wf (FlatMem32.set_word m i v).
Proof.
  unfold flat_wf, FlatMem32.set_word. cbn. rewrite length_insert. tauto.
Qed.

(** X12.  [FlatMem32] word round trip: an accepted [w32] keeps the
    memory well formed, the word reads back at the same address, and every
    other address reads as before. *)
Theorem flat_w32_r32 (m m' : FlatMem32.t) (a v : Z) :
  flat_wf m -> 0 <= a < 2 ^ 32 ->
  FlatMem32.w32 m a v = Some m' ->
  flat_wf m'
  /\ FlatMem32.r32 m' a = Some v
  /\ forall b, 0 <= b < 2 ^ 32 -> b <> a -> FlatMem32.r32 m' b = FlatMem32.r32 m b.
Proof.
  intros Hwf Ha. unfold FlatMem32.w32.
  destruct ((a <? FlatMem32.size m) && (add32 a 3 <? FlatMem32.size m)) eqn:E1;
    cbn [negb]; [|discriminate].
  destruct (a mod 4 =? 0) eqn:E2; cbn [negb]; [|discriminate].
  intros Heq. inversion Heq; subst m'. clear Heq.
  apply andb_true_iff in E1. destruct E1 as [E1 E1']. apply Z.ltb_lt in E1.
  apply Z.eqb_eq in E2.
  split; [apply flat_set_word_wf; assumption|].
  unfold FlatMem32.r32. cbn [FlatMem32.size FlatMem32.set_word].
  split.
  - apply Z.ltb_lt in E1. rewrite E1, E1'. cbn [andb negb].
    apply Z.eqb_eq in E2. rewrite E2. cbn [negb]. f_equal.
    unfold FlatMem32.word. cbn [FlatMem32.mem].
    apply list_lookup_total_insert_eq. apply Z.ltb_lt in E1.
    apply flat_index; [assumption | lia | assumption].
  - intros b Hb Hne.
    destruct ((b <? FlatMem32.size m) && (add32 b 3 <? FlatMem32.size m)); cbn [negb];
      [|reflexivity].
    destruct (b mod 4 =? 0) eqn:E3; cbn [negb]; [|reflexivity].
    apply Z.eqb_eq in E3. f_equal. unfold FlatMem32.word. cbn [FlatMem32.mem].
    apply list_lookup_total_insert_ne.
    rewrite !Z.shiftr_div_pow2 by lia. change (2 ^ 2) with 4.
    intros Hc. apply Z2Nat.inj in Hc; [| apply Z.div_pos; lia | apply Z.div_pos; lia].
    apply Hne. Z.div_mod_to_equations. lia.
Qed.

(** Case analysis on every bit left in the goal. *)
Ltac case_testbits :=
  repeat match goal with
  | |- context [Z.testbit ?x ?i] => destruct (Z.testbit x i)
  end; reflexivity.

Lemma byte_high d n : 0 <= d < 256 -> 8 <= n -> Z.testbit d n = false.
Proof. intros Hd Hn. apply (testbit_above d 8 n); [change (2 ^ 8) with 256|]; lia. Qed.

(** The bits of a byte outside 0..7. *)
Ltac byte_bits d :=
  repeat match goal with
  | |- context [Z.testbit d ?n] =>
      first [ rewrite (Z.testbit_neg_r d n) by lia | rewrite (byte_high d n) by lia ]
  end.

Lemma lane_cases a : Z.land a 0x3 = 0 \/ Z.land a 0x3 = 1 \/ Z.land a 0x3 = 2 \/ Z.land a 0x3 = 3.
Proof.
  change (Z.land a 0x3) with (Z.land a (Z.ones 2)). rewrite Z.land_ones by lia.
  change (2 ^ 2) with 4. pose proof (Z.mod_pos_bound a 4 ltac:(lia)). lia.
Qed.

Lemma addr_split a : 0 <= a -> a = 4 * Z.shiftr a 2 + Z.land a 0x3.
Proof.
  intros Ha. change (Z.land a 0x3) with (Z.land a (Z.ones 2)).
  rewrite Z.land_ones, Z.shiftr_div_pow2 by lia.
  change (2 ^ 2) with 4. apply Z.div_mod. lia.
Qed.

(** The byte at lane [s] after the read-modify-write of [w8]. *)
Lemma byte_lane_written w d s :
  0 <= d < 256 -> s = 0 \/ s = 8 \/ s = 16 \/ s = 24 ->
  Z.land (shr32 (Z.lor (Z.land w (not32 (shl32 0xff s))) (shl32 d s)) s) 0xff = d.
Proof.
  intros Hd Hs. unfold shr32, not32, shl32, wrap32.
  change 0xff with (Z.ones 8).
  destruct Hs as [-> | [-> | [-> | ->]]]; Z.bitblast;
    byte_bits d; case_testbits.
Qed.

(** The byte at another lane [s'] is the old one. *)
Lemma byte_lane_kept w d s s' :
  0 <= d < 256 ->
  (s = 0 \/ s = 8 \/ s = 16 \/ s = 24) -> (s' = 0 \/ s' = 8 \/ s' = 16 \/ s' = 24) ->
  s <> s' ->
  Z.land (shr32 (Z.lor (Z.land w (not32 (shl32 0xff s))) (shl32 d s)) s') 0xff
  = Z.land (shr32 w s') 0xff.
Proof.
  intros Hd Hs Hs' Hne. unfold shr32, not32, shl32, wrap32.
  change 0xff with (Z.ones 8).
  destruct Hs as [-> | [-> | [-> | ->]]]; destruct Hs' as [-> | [-> | [-> | ->]]];
    try contradiction; Z.bitblast; byte_bits d; case_testbits.
Qed.

(** X13.  [FlatMem32] byte lanes: an accepted [w8] of a byte keeps the
    memory well formed, the byte reads back at the same address, and every
    other byte, in the same word or elsewhere, reads as before. *)
Theorem flat_w8_r8 (m m' : FlatMem32.t) (a d : Z) :
  flat_wf m -> 0 <= a < 2 ^ 32 -> 0 <= d < 256 ->
  FlatMem32.w8 m a d = Some m' ->
  flat_wf m'
  /\ FlatMem32.r8 m' a = Some d
  /\ forall b, 0 <= b < 2 ^ 32 -> b <> a -> FlatMem32.r8 m' b = FlatMem32.r8 m b.
Proof.
  intros Hwf Ha Hd. unfold FlatMem32.w8.
  destruct (a <? FlatMem32.size m) eqn:E1; cbn [negb]; [|discriminate].
  cbv zeta. intros Heq. inversion Heq; subst m'. clear Heq.
  pose proof E1 as E1'. apply Z.ltb_lt in E1'.
  pose proof (flat_index m a Hwf ltac:(lia) E1') as Hi.
  assert (Hs : 8 * Z.land a 3 = 0 \/ 8 * Z.land a 3 = 8 \/ 8 * Z.land a 3 = 16
               \/ 8 * Z.land a 3 = 24) by (pose proof (lane_cases a); lia).
  split; [repeat apply flat_set_word_wf; assumption|].
  unfold FlatMem32.r8, FlatMem32.word, FlatMem32.set_word. cbn [FlatMem32.size FlatMem32.mem].
  rewrite (list_lookup_total_insert_eq (FlatMem32.mem m) _ _ Hi), list_insert_insert_eq.
  split.
  - rewrite E1. cbn [negb]. f_equal.
    rewrite (list_lookup_total_insert_eq _ _ _ Hi).
    apply byte_lane_written; assumption.
  - intros b Hb Hne. destruct (b <? FlatMem32.size m); cbn [negb]; [|reflexivity]. f_equal.
    destruct (Z.eq_dec (Z.shiftr b 2) (Z.shiftr a 2)) as [Heq|Hw].
    + rewrite Heq, (list_lookup_total_insert_eq _ _ _ Hi).
      assert (Hs' : 8 * Z.land b 3 = 0 \/ 8 * Z.land b 3 = 8 \/ 8 * Z.land b 3 = 16
                    \/ 8 * Z.land b 3 = 24) by (pose proof (lane_cases b); lia).
      apply byte_lane_kept; try assumption.
      pose proof (addr_split a ltac:(lia)). pose proof (addr_split b ltac:(lia)). lia.
    + rewrite list_lookup_total_insert_ne; [reflexivity|].
      intros Hc. apply Hw. symmetry.
      apply Z2Nat.inj in Hc; [assumption| |]; apply Z.shiftr_nonneg; lia.
Qed.

(** X14.  [FlatMem32] is little endian: where [r32] returns the word
    [w], the four byte reads from that address on return the bytes of [w],
    least significant first. *)
Theorem flat_little_endian (m : FlatMem32.t) (a w k : Z) :
  0 <= a < 2 ^ 32 -> FlatMem32.r32 m a = Some w -> 0 <= k < 4 ->
  FlatMem32.r8 m (a + k) = Some (Z.land (Z.shiftr w (8 * k)) 0xff).
Proof.
  intros Ha Hr Hk. unfold FlatMem32.r32 in Hr.
  destruct ((a <? FlatMem32.size m) && (add32 a 3 <? FlatMem32.size m)) eqn:E1;
    cbn [negb] in Hr; [|discriminate].
  destruct (a mod 4 =? 0) eqn:E2; cbn [negb] in Hr; [|discriminate].
  inversion Hr; subst w. clear Hr.
  apply andb_true_iff in E1. destruct E1 as [E1 E3].
  apply Z.ltb_lt in E1, E3. apply Z.eqb_eq in E2.
  assert (Hno : add32 a 3 = a + 3).
  { unfold add32, wrap32. apply Z.mod_small. Z.div_mod_to_equations. lia. }
  rewrite Hno in E3.
  unfold FlatMem32.r8.
  destruct (a + k <? FlatMem32.size m) eqn:E4; [|apply Z.ltb_ge in E4; lia].
  cbn [negb]. unfold shr32.
  assert (Hq : Z.shiftr (a + k) 2 = Z.shiftr a 2).
  { rewrite !Z.shiftr_div_pow2 by lia. change (2 ^ 2) with 4.
    Z.div_mod_to_equations. lia. }
  assert (Hl : Z.land (a + k) 0x3 = k).
  { change (Z.land (a + k) 0x3) with (Z.land (a + k) (Z.ones 2)).
    rewrite Z.land_ones by lia. change (2 ^ 2) with 4. Z.div_mod_to_equations. lia. }
  rewrite Hq, Hl. reflexivity.
Qed.

(** ** mem.h: [MemMap32] *)

Lemma region_test b s a :
  0 <= b < 2 ^ 32 -> 0 <= s < 2 ^ 32 -> 0 <= a < 2 ^ 32 ->
  (b <=? a) && (a <? add32 b s) = true <-> region_holds b s a.
Proof.
  intros Hb Hs Ha. unfold region_holds, add32, wrap32.
  rewrite andb_true_iff, Z.leb_le, Z.ltb_lt.
  destruct (Z_lt_le_dec (b + s) (2 ^ 32)) as [Hlt|Hge].
  - rewrite Z.mod_small by lia. tauto.
  - replace ((b + s) mod 2 ^ 32) with (b + s - 2 ^ 32); [lia|].
    apply Z.mod_unique with (q := 1); lia.
Qed.

Section MemMapRouting.
Context {D : Type} `{MemBase32.t D}.

(** What [map_addr] returns when it finds a region: one of the table, at
    the position it reports. *)
Lemma map_addr_from_index (mm : MemMap32.t (D := D)) : forall k a o i d,
  MemMap32.map_addr_from k mm a = (o, Some (i, d)) ->
  (k <= i)%nat /\ exists b s, mm !! (i - k)%nat = Some (b, s, d).
Proof.
  induction mm as [|[[b s] d0] rest IH]; intros k a o i d; cbn [MemMap32.map_addr_from].
  - discriminate.
  - destruct ((b <=? a) && (a <? add32 b s)).
    + intros Heq. inversion Heq; subst. split; [lia|].
      exists b, s. replace (i - i)%nat with 0%nat by lia. reflexivity.
    + intros Heq. destruct (IH _ _ _ _ _ Heq) as (Hk & b' & s' & Hl).
      split; [lia|]. exists b', s'.
      replace (i - k)%nat with (S (i - S k)) by lia. exact Hl.
Qed.

Lemma map_addr_from_spec (mm : MemMap32.t (D := D)) : forall k a,
  memmap_wf mm -> 0 <= a < 2 ^ 32 ->
  match MemMap32.map_addr_from k mm a with
  | (o, Some (i, d)) =>
      (k <= i)%nat
      /\ (exists b s, mm !! (i - k)%nat = Some (b, s, d) /\ region_holds b s a /\ o = a - b)
      /\ forall j b' s' d', (j < i - k)%nat -> mm !! j = Some (b', s', d') ->
                            ~ region_holds b' s' a
  | (o, None) =>
      o = a /\ forall j b' s' d', mm !! j = Some (b', s', d') -> ~ region_holds b' s' a
  end.
Proof.
  induction mm as [|[[b s] d0] rest IH]; intros k a Hwf Ha; cbn [MemMap32.map_addr_from].
  - split; [reflexivity|]. intros j b' s' d' Hl. destruct j; discriminate Hl.
  - apply Forall_cons in Hwf. destruct Hwf as [[Hb Hs] Hwf]. cbn in Hb, Hs.
    pose proof (region_test b s a Hb Hs Ha) as Ht.
    destruct ((b <=? a) && (a <? add32 b s)).
    + assert (Hh : region_holds b s a) by (apply Ht; reflexivity).
      split; [lia|]. split.
      * exists b, s. replace (k - k)%nat with 0%nat by lia.
        split; [reflexivity|]. split; [assumption|].
        unfold sub32, wrap32. apply Z.mod_small. unfold region_holds in Hh. lia.
      * intros j b' s' d' Hj. lia.
    + assert (Hn : ~ region_holds b s a) by (intros Hc; apply Ht in Hc; discriminate).
      specialize (IH (S k) a Hwf Ha).
      destruct (MemMap32.map_addr_from (S k) rest a) as [o [[i d]|]].
      * destruct IH as (Hk & (b1 & s1 & Hl & Hh & Ho) & Hmin).
        split; [lia|]. split.
        -- exists b1, s1. replace (i - k)%nat with (S (i - S k)) by lia. auto.
        -- intros j b' s' d' Hj Hl'. destruct j as [|j].
           ++ cbn in Hl'. inversion Hl'; subst. assumption.
           ++ cbn in Hl'. apply (Hmin j b' s' d'); [lia | assumption].
      * destruct IH as (Ho & Hnone). split; [assumption|].
        intros j b' s' d' Hl'. destruct j as [|j].
        -- cbn in Hl'. inversion Hl'; subst. assumption.
        -- cbn in Hl'. apply (Hnone j b' s' d'). assumption.
Qed.

(** X15.  [MemMap32::map_addr] on 32-bit values: it selects the first
    region, in insertion order, whose range [base, base + size) holds the
    address and does not wrap past [2^32], and returns the offset into
    it; when there is none it returns the address unchanged with no
    device.  A region that reaches or passes the top of the address space
    is never selected. *)
Theorem map_addr_first_match (mm : MemMap32.t (D := D)) (a : Z) :
  memmap_wf mm -> 0 <= a < 2 ^ 32 ->
  match MemMap32.map_addr mm a with
  | (o, Some (i, d)) =>
      (exists b s, mm !! i = Some (b, s, d) /\ region_holds b s a /\ o = a - b)
      /\ forall j b' s' d', (j < i)%nat -> mm !! j = Some (b', s', d') ->
                            ~ region_holds b' s' a
  | (o, None) =>
      o = a /\ forall j b' s' d', mm !! j = Some (b', s', d') -> ~ region_holds b' s' a
  end.
Proof.
  intros Hwf Ha. pose proof (map_addr_from_spec mm 0 a Hwf Ha) as Hs.
  unfold MemMap32.map_addr.
  destruct (MemMap32.map_addr_from 0 mm a) as [o [[i d]|]]; [|exact Hs].
  destruct Hs as (_ & Hr & Hmin). rewrite Nat.sub_0_r in Hr.
  split; [exact Hr|]. intros j b' s' d' Hj. apply Hmin. lia.
Qed.

Lemma map_addr_from_app (mm : MemMap32.t (D := D)) b s d : forall k a,
  MemMap32.map_addr_from k (mm ++ [(b, s, d)]) a =
  match MemMap32.map_addr_from k mm a with
  | (o, Some r) => (o, Some r)
  | (_, None) =>
      if (b <=? a) && (a <? add32 b s) then (sub32 a b, Some ((k + length mm)%nat, d))
      else (a, None)
  end.
Proof.
  induction mm as [|[[b0 s0] d0] rest IH]; intros k a; cbn [app MemMap32.map_addr_from length].
  - rewrite Nat.add_0_r. reflexivity.
  - destruct ((b0 <=? a) && (a <? add32 b0 s0)); [reflexivity|].
    rewrite IH. replace (S k + length rest)%nat with (k + S (length rest))%nat by lia.
    reflexivity.
Qed.

(** X16.  [MemMap32::add] never shadows: an address that an existing
    region serves is routed as before, and the new region serves only
    addresses that no earlier region holds. *)
Theorem add_keeps_routing (mm : MemMap32.t (D := D)) (b s : Z) (d : D) (a : Z) :
  MemMap32.map_addr (MemMap32.add b s d mm) a =
  match MemMap32.map_addr mm a with
  | (o, Some r) => (o, Some r)
  | (_, None) =>
      if (b <=? a) && (a <? add32 b s) then (sub32 a b, Some (length mm, d))
      else (a, None)
  end.
Proof. unfold MemMap32.map_addr, MemMap32.add. apply map_addr_from_app. Qed.

Lemma map_addr_from_insert (mm : MemMap32.t (D := D)) : forall n k b s d d' a,
  mm !! n = Some (b, s, d) ->
  MemMap32.map_addr_from k (<[n := (b, s, d')]> mm) a =
  match MemMap32.map_addr_from k mm a with
  | (o, Some (j, dj)) => (o, Some (j, if Nat.eqb j (k + n) then d' else dj))
  | r => r
  end.
Proof.
  induction mm as [|[[b0 s0] d0] rest IH]; intros n k b s d d' a Hl.
  - destruct n; discriminate Hl.
  - destruct n as [|n]; cbn in Hl.
    + inversion Hl; subst. cbn [MemMap32.map_addr_from].
      change (<[0%nat := (b, s, d')]> ((b, s, d) :: rest)) with ((b, s, d') :: rest).
      cbn [MemMap32.map_addr_from].
      destruct ((b <=? a) && (a <? add32 b s)).
      * rewrite Nat.add_0_r, Nat.eqb_refl. reflexivity.
      * destruct (MemMap32.map_addr_from (S k) rest a) as [o [[j dj]|]] eqn:E; [|reflexivity].
        destruct (map_addr_from_index _ _ _ _ _ _ E) as [Hj _].
        replace (Nat.eqb j (k + 0)) with false; [reflexivity|].
        symmetry. apply Nat.eqb_neq. lia.
    + change (<[S n := (b, s, d')]> ((b0, s0, d0) :: rest))
        with ((b0, s0, d0) :: <[n := (b, s, d')]> rest).
      cbn [MemMap32.map_addr_from].
      destruct ((b0 <=? a) && (a <? add32 b0 s0)).
      * replace (Nat.eqb k (k + S n)) with false; [reflexivity|].
        symmetry. apply Nat.eqb_neq. lia.
      * etransitivity; [exact (IH n (S k) b s d d' a Hl)|].
        replace (S k + n)%nat with (k + S n)%nat by lia. reflexivity.
Qed.

(** X17.  A write through [MemMap32] that is accepted reaches exactly
    one device: the one [map_addr] selects, at the offset it returns.
    Afterwards every address is routed to the same region at the same
    offset as before, and only that region's device has changed; so a read
    at the written address is that device's own read after its write, and
    reads served by other regions are unchanged.  (The table holds one
    device per region: the regions of the C++ map are taken to point to
    distinct objects.) *)
Theorem memmap_write_routed (f : D -> Z -> option Z) (g : D -> Z -> Z -> option D)
    (mm mm' : MemMap32.t (D := D)) (a v : Z) :
  MemMap32.wr g mm a v = Some mm' ->
  exists o i d d',
    MemMap32.map_addr mm a = (o, Some (i, d)) /\ g d o v = Some d'
    /\ (forall a', MemMap32.map_addr mm' a' =
                   match MemMap32.map_addr mm a' with
                   | (o', Some (j, dj)) => (o', Some (j, if Nat.eqb j i then d' else dj))
                   | r => r
                   end)
    /\ MemMap32.rd f mm' a = f d' o
    /\ (forall a' o' j dj, MemMap32.map_addr mm a' = (o', Some (j, dj)) -> j <> i ->
                           MemMap32.rd f mm' a' = MemMap32.rd f mm a').
Proof.
  unfold MemMap32.wr. destruct (MemMap32.map_addr mm a) as [o [[i d]|]] eqn:E; [|discriminate].
  destruct (g d o v) as [d'|] eqn:Eg; [|discriminate].
  intros Heq. inversion Heq; subst mm'. clear Heq.
  exists o, i, d, d'. split; [reflexivity|]. split; [assumption|].
  destruct (map_addr_from_index _ _ _ _ _ _ E) as (_ & b & s & Hl).
  rewrite Nat.sub_0_r in Hl.
  assert (Hmap : forall a', MemMap32.map_addr (MemMap32.update mm i d') a' =
                   match MemMap32.map_addr mm a' with
                   | (o', Some (j, dj)) => (o', Some (j, if Nat.eqb j i then d' else dj))
                   | r => r
                   end).
  { intros a'. unfold MemMap32.update. rewrite Hl. unfold MemMap32.map_addr.
    rewrite (map_addr_from_insert mm i 0 b s d d' a' Hl). reflexivity. }
  split; [exact Hmap|]. split.
  - unfold MemMap32.rd. rewrite Hmap, E, Nat.eqb_refl. reflexivity.
  - intros a' o' j dj E' Hne. unfold MemMap32.rd. rewrite Hmap, E'.
    replace (Nat.eqb j i) with false; [reflexivity|]. symmetry. apply Nat.eqb_neq. assumption.
Qed.

End MemMapRouting.

(** ** rv_core.h: the hart's RAM window *)

Section RamWindow.
Context {D : Type} `{MemBase32.t D}.

Lemma ram_index (c : RVCore D) (a : Z) :
  ram_wf c -> RVCore.in_ram c a = true ->
  Z.shiftr (sub32 a (ram_base c)) 2 = (a - ram_base c) / 4
  /\ (Z.to_nat ((a - ram_base c) / 4) < length (ram c))%nat.
Proof.
  intros (Hb & Hbt & Ht & Hmb & Hmt & Hlen) Hin.
  unfold RVCore.in_ram in Hin. apply andb_true_iff in Hin.
  destruct Hin as [H1 H2]. apply Z.leb_le in H1. apply Z.ltb_lt in H2.
  unfold sub32, wrap32. rewrite Z.mod_small by lia.
  rewrite Z.shiftr_div_pow2 by lia. change (2 ^ 2) with 4.
  split; [reflexivity|]. rewrite Hlen.
  apply Z2Nat.inj_lt; [apply Z.div_pos; lia | apply Z.div_pos; lia |].
  apply Z.div_lt_upper_bound; [lia|].
  assert (4 * ((ram_top c - ram_base c) / 4) = ram_top c - ram_base c); [|lia].
  symmetry. apply Z_div_exact_full_2; [lia|].
  rewrite Zminus_mod, Hmb, Hmt. reflexivity.
Qed.

(** The constructor's assertions give a well-formed window. *)
Lemma init_ram_wf (m : D) (rv base sz : Z) :
  0 <= base < 2 ^ 32 -> 0 <= sz < 2 ^ 32 ->
  Z.land base 0x3 = 0 -> Z.land sz 0x3 = 0 -> base <= add32 base sz ->
  ram_wf (RVCore.init m rv base sz).
Proof.
  intros Hb Hs Hmb Hms Hnw. unfold ram_wf, RVCore.init; cbn.
  change (Z.land base 0x3) with (Z.land base (Z.ones 2)) in Hmb.
  change (Z.land sz 0x3) with (Z.land sz (Z.ones 2)) in Hms.
  rewrite Z.land_ones in Hmb, Hms by lia. change (2 ^ 2) with 4 in Hmb, Hms.
  assert (Hadd : add32 base sz = base + sz).
  { unfold add32, wrap32 in *. destruct (Z_lt_le_dec (base + sz) (2 ^ 32)) as [Hlt|Hge].
    - apply Z.mod_small. lia.
    - exfalso. assert ((base + sz) mod 2 ^ 32 = base + sz - 2 ^ 32).
      { symmetry. apply Z.mod_unique with (q := 1); lia. }
      lia. }
  rewrite Hadd. rewrite Hadd in Hnw.
  assert (base + sz < 2 ^ 32).
  { rewrite <- Hadd. unfold add32, wrap32. apply Z.mod_pos_bound. lia. }
  repeat split; try lia.
  - rewrite Zplus_mod, Hmb, Hms. reflexivity.
  - rewrite length_replicate. f_equal. f_equal. lia.
Qed.

(** X18.  The hart's RAM window takes precedence over the bus.  A word
    store inside [ram_base, ram_top) always succeeds and never reaches the
    bus device; afterwards the window is as well formed as before, and a
    word load returns the stored value exactly for the addresses of the
    same RAM word and what it returned before everywhere else.  A store
    outside the window is the bus device's store and leaves the RAM
    untouched. *)
Theorem ram_window_w32 (c : RVCore D) (a v : Z) :
  ram_wf c -> 0 <= a < 2 ^ 32 ->
  (RVCore.in_ram c a = true ->
   exists c', RVCore.w32 c a v = Some c' /\ mem c' = mem c /\ ram_wf c'
     /\ forall b, 0 <= b < 2 ^ 32 ->
          RVCore.r32 c' b =
          if RVCore.in_ram c b && ((b - ram_base c) / 4 =? (a - ram_base c) / 4)
          then Some v else RVCore.r32 c b)
  /\ (RVCore.in_ram c a = false ->
      forall c', RVCore.w32 c a v = Some c' ->
        ram c' = ram c /\ MemBase32.w32 (mem c) a v = Some (mem c')
        /\ forall b, RVCore.in_ram c b = true -> RVCore.r32 c' b = RVCore.r32 c b).
Proof.
  intros Hwf Ha. split.
  - intros Hin. unfold RVCore.w32. rewrite Hin.
    destruct (ram_index c a Hwf Hin) as [Hi Hlt]. rewrite Hi.
    eexists. split; [reflexivity|]. split; [reflexivity|]. split.
    + unfold ram_wf.
      change (ram_base (RVCore.set_ram_word c ((a - ram_base c) / 4) v)) with (ram_base c).
      change (ram_top (RVCore.set_ram_word c ((a - ram_base c) / 4) v)) with (ram_top c).
      change (ram (RVCore.set_ram_word c ((a - ram_base c) / 4) v))
        with (<[Z.to_nat ((a - ram_base c) / 4) := v]> (ram c)).
      rewrite length_insert. exact Hwf.
    + intros b Hb. unfold RVCore.r32.
      change (RVCore.in_ram (RVCore.set_ram_word c ((a - ram_base c) / 4) v) b)
        with (RVCore.in_ram c b).
      destruct (RVCore.in_ram c b) eqn:Hinb; [|reflexivity].
      destruct (ram_index c b Hwf Hinb) as [Hib Hltb].
      change (ram_base (RVCore.set_ram_word c ((a - ram_base c) / 4) v)) with (ram_base c).
      rewrite Hib. unfold RVCore.ram_word.
      change (ram (RVCore.set_ram_word c ((a - ram_base c) / 4) v))
        with (<[Z.to_nat ((a - ram_base c) / 4) := v]> (ram c)).
      destruct ((b - ram_base c) / 4 =? (a - ram_base c) / 4) eqn:E.
      * apply Z.eqb_eq in E. rewrite E.
        rewrite list_lookup_total_insert_eq by assumption. reflexivity.
      * apply Z.eqb_neq in E. rewrite list_lookup_total_insert_ne; [reflexivity|].
        intros Hc. apply E. symmetry. apply Z2Nat.inj in Hc; [assumption| |].
        -- unfold RVCore.in_ram in Hin. apply andb_true_iff in Hin.
           destruct Hin as [H1 _]. apply Z.leb_le in H1. apply Z.div_pos; lia.
        -- unfold RVCore.in_ram in Hinb. apply andb_true_iff in Hinb.
           destruct Hinb as [H1 _]. apply Z.leb_le in H1. apply Z.div_pos; lia.
  - intros Hout c'. unfold RVCore.w32. rewrite Hout.
    destruct (MemBase32.w32 (mem c) a v) as [m'|]; [|discriminate].
    intros Heq. injection Heq as <-.
    split; [reflexivity|]. split; [reflexivity|].
    intros b Hinb. unfold RVCore.r32.
    match goal with
    | |- (if RVCore.in_ram ?x b then _ else _) = _ =>
        change (RVCore.in_ram x b) with (RVCore.in_ram c b)
    end.
    rewrite Hinb. reflexivity.
Qed.

End RamWindow.

(** ** mmio/mtimer.h: [MTimer] *)

Lemma lo_half_written x w :
  0 <= x < 2 ^ 64 -> 0 <= w < 2 ^ 32 ->
  Z.lor (Z.land x 0xffffffff00000000) w = 2 ^ 32 * (x / 2 ^ 32) + w.
Proof.
  intros Hx Hw.
  assert (Hh : Z.land x 0xffffffff00000000 = Z.shiftl (Z.shiftr x 32) 32).
  { change 0xffffffff00000000 with (Z.shiftl (Z.ones 32) 32).
    Z.bitblast. rewrite (testbit_above x 64) by lia. reflexivity. }
  rewrite Hh, <- Z.lxor_lor, <- Z.add_nocarry_lxor.
  - rewrite Z.shiftl_mul_pow2, Z.shiftr_div_pow2 by lia. lia.
  - Z.bitblast. rewrite (testbit_above w 32) by lia. apply andb_false_r.
  - Z.bitblast. rewrite (testbit_above w 32) by lia. apply andb_false_r.
Qed.

Lemma hi_half_written x w :
  0 <= x < 2 ^ 64 -> 0 <= w < 2 ^ 32 ->
  Z.lor (Z.land x 0x00000000ffffffff) (wrap64 (Z.shiftl w 32)) = 2 ^ 32 * w + x mod 2 ^ 32.
Proof.
  intros Hx Hw.
  assert (Hs : wrap64 (Z.shiftl w 32) = 2 ^ 32 * w).
  { unfold wrap64. rewrite Z.shiftl_mul_pow2 by lia. rewrite Z.mod_small; nia. }
  assert (Hd : Z.land (Z.land x (Z.ones 32)) (Z.shiftl w 32) = 0).
  { Z.bitblast. rewrite (Z.testbit_neg_r w) by lia. apply andb_false_r. }
  change 0x00000000ffffffff with (Z.ones 32).
  rewrite Hs. replace (2 ^ 32 * w) with (Z.shiftl w 32) in *
    by (rewrite Z.shiftl_mul_pow2; lia).
  rewrite <- Z.lxor_lor, <- Z.add_nocarry_lxor by exact Hd.
  rewrite Z.land_ones by lia. lia.
Qed.

Lemma halves_bounds x w :
  0 <= x < 2 ^ 64 -> 0 <= w < 2 ^ 32 ->
  0 <= 2 ^ 32 * (x / 2 ^ 32) + w < 2 ^ 64 /\ 0 <= 2 ^ 32 * w + x mod 2 ^ 32 < 2 ^ 64.
Proof.
  intros Hx Hw.
  assert (0 <= x / 2 ^ 32 < 2 ^ 32).
  { split; [apply Z.div_pos; lia | apply Z.div_lt_upper_bound; lia]. }
  assert (0 <= x mod 2 ^ 32 < 2 ^ 32) by (apply Z.mod_pos_bound; lia).
  lia.
Qed.

Lemma mtimer_cmp0 (m : MTimer.t) :
  mtimer_wf m -> 0 <= MTimer.cmp m 0 < 2 ^ 64.
Proof.
  intros (_ & Hlen & Hall). unfold MTimer.cmp.
  destruct (MTimer.mtimecmp m) as [|v l]; [discriminate Hlen|].
  apply Forall_cons in Hall. destruct Hall as [Hv _]. exact Hv.
Qed.

Lemma mtimer_set_cmp0_wf (m : MTimer.t) v :
  mtimer_wf m -> 0 <= v < 2 ^ 64 -> mtimer_wf (MTimer.set_cmp m 0 v).
Proof.
  intros (Ht & Hlen & Hall) Hv. unfold mtimer_wf, MTimer.set_cmp; cbn [MTimer.mtime MTimer.mtimecmp].
  destruct (MTimer.mtimecmp m) as [|v0 l]; [discriminate Hlen|].
  apply Forall_cons in Hall. destruct Hall as [_ Hl].
  split; [assumption|]. split; [exact Hlen|]. apply Forall_cons. split; assumption.
Qed.

Lemma mtimer_cmp_set_cmp0 (m : MTimer.t) v :
  mtimer_wf m -> MTimer.cmp (MTimer.set_cmp m 0 v) 0 = v.
Proof.
  intros (_ & Hlen & _). unfold MTimer.cmp, MTimer.set_cmp; cbn [MTimer.mtimecmp].
  destruct (MTimer.mtimecmp m) as [|v0 l]; [discriminate Hlen|]. reflexivity.
Qed.

Lemma split_halves lo hi :
  0 <= lo < 2 ^ 32 -> 0 <= hi < 2 ^ 32 ->
  (2 ^ 32 * hi + lo) / 2 ^ 32 = hi /\ (2 ^ 32 * hi + lo) mod 2 ^ 32 = lo.
Proof.
  intros Hlo Hhi. split.
  - symmetry. apply Z.div_unique with (r := lo); lia.
  - symmetry. apply Z.mod_unique with (q := hi); lia.
Qed.

(** X19.  The timer's 64-bit registers through their 32-bit halves.  The
    words at offsets 8 and 12 are the low and the high half of
    [mtimecmp[0]], those at 0 and 4 the halves of [mtime]: a store to one
    half keeps the other half and the other register, so after both
    halves are stored, in either order, the register holds
    [2^32 * hi + lo] and both loads return what was stored. *)
Theorem mtimer_halves (m : MTimer.t) (lo hi : Z) :
  mtimer_wf m -> 0 <= lo < 2 ^ 32 -> 0 <= hi < 2 ^ 32 ->
  (exists m1 m2,
     MTimer.w32 m 8 lo = Some m1 /\ MTimer.w32 m1 12 hi = Some m2
     /\ MTimer.r32 m1 12 = MTimer.r32 m 12
     /\ MTimer.cmp m2 0 = 2 ^ 32 * hi + lo /\ MTimer.mtime m2 = MTimer.mtime m
     /\ MTimer.r32 m2 8 = Some lo /\ MTimer.r32 m2 12 = Some hi /\ mtimer_wf m2)
  /\ (exists m1 m2,
     MTimer.w32 m 12 hi = Some m1 /\ MTimer.w32 m1 8 lo = Some m2
     /\ MTimer.r32 m1 8 = MTimer.r32 m 8
     /\ MTimer.cmp m2 0 = 2 ^ 32 * hi + lo /\ MTimer.mtime m2 = MTimer.mtime m
     /\ mtimer_wf m2)
  /\ (exists m1 m2,
     MTimer.w32 m 0 lo = Some m1 /\ MTimer.w32 m1 4 hi = Some m2
     /\ MTimer.r32 m1 4 = MTimer.r32 m 4
     /\ MTimer.mtime m2 = 2 ^ 32 * hi + lo /\ MTimer.mtimecmp m2 = MTimer.mtimecmp m
     /\ MTimer.r32 m2 0 = Some lo /\ MTimer.r32 m2 4 = Some hi /\ mtimer_wf m2).
Proof.
  intros Hwf Hlo Hhi.
  pose proof (mtimer_cmp0 m Hwf) as Hc.
  destruct (halves_bounds (MTimer.cmp m 0) lo Hc Hlo) as [Hb1 _].
  destruct (halves_bounds (MTimer.cmp m 0) hi Hc Hhi) as [_ Hb2].
  destruct (split_halves lo hi Hlo Hhi) as [Hd Hm].
  assert (Hr12 : forall x, MTimer.r32 x 12 = Some (wrap32 (Z.shiftr (MTimer.cmp x 0) 32)))
    by reflexivity.
  assert (Hr8 : forall x, MTimer.r32 x 8 = Some (Z.land (MTimer.cmp x 0) 0xffffffff))
    by reflexivity.
  assert (Hhigh : forall x, 0 <= x < 2 ^ 64 -> wrap32 (Z.shiftr x 32) = x / 2 ^ 32).
  { intros x Hx. rewrite Z.shiftr_div_pow2 by lia. unfold wrap32. apply Z.mod_small.
    split; [apply Z.div_pos; lia | apply Z.div_lt_upper_bound; lia]. }
  assert (Hlow : forall x, Z.land x 0xffffffff = x mod 2 ^ 32).
  { intros x. change 0xffffffff with (Z.ones 32). apply Z.land_ones. lia. }
  split; [|split].
  - change (MTimer.w32 m 8 lo)
      with (Some (MTimer.set_cmp m 0 (Z.lor (Z.land (MTimer.cmp m 0) 0xffffffff00000000) lo))).
    rewrite (lo_half_written _ _ Hc Hlo).
    set (m1 := MTimer.set_cmp m 0 (2 ^ 32 * (MTimer.cmp m 0 / 2 ^ 32) + lo)).
    assert (Hwf1 : mtimer_wf m1) by (apply mtimer_set_cmp0_wf; assumption).
    assert (Hc1 : MTimer.cmp m1 0 = 2 ^ 32 * (MTimer.cmp m 0 / 2 ^ 32) + lo)
      by (apply mtimer_cmp_set_cmp0; assumption).
    exists m1.
    change (MTimer.w32 m1 12 hi)
      with (Some (MTimer.set_cmp m1 0 (Z.lor (Z.land (MTimer.cmp m1 0) 0x00000000ffffffff)
                                             (wrap64 (Z.shiftl hi 32))))).
    rewrite hi_half_written by (rewrite ?Hc1; assumption).
    assert (Hm1 : MTimer.cmp m1 0 mod 2 ^ 32 = lo).
    { rewrite Hc1. apply (split_halves lo (MTimer.cmp m 0 / 2 ^ 32)); [assumption|].
      split; [apply Z.div_pos; lia | apply Z.div_lt_upper_bound; lia]. }
    rewrite Hm1.
    eexists. split; [reflexivity|]. split; [reflexivity|].
    assert (Hwf2 : mtimer_wf (MTimer.set_cmp m1 0 (2 ^ 32 * hi + lo)))
      by (apply mtimer_set_cmp0_wf; [assumption | lia]).
    assert (Hc2 : MTimer.cmp (MTimer.set_cmp m1 0 (2 ^ 32 * hi + lo)) 0 = 2 ^ 32 * hi + lo)
      by (apply mtimer_cmp_set_cmp0; assumption).
    split.
    { rewrite !Hr12, Hc1, !Hhigh by assumption. f_equal.
      apply (split_halves lo (MTimer.cmp m 0 / 2 ^ 32)); [assumption|].
      split; [apply Z.div_pos; lia | apply Z.div_lt_upper_bound; lia]. }
    split; [exact Hc2|]. split; [reflexivity|].
    split; [rewrite Hr8, Hc2, Hlow; f_equal; exact Hm|].
    split; [rewrite Hr12, Hc2, Hhigh by lia; f_equal; exact Hd | exact Hwf2].
  - change (MTimer.w32 m 12 hi)
      with (Some (MTimer.set_cmp m 0 (Z.lor (Z.land (MTimer.cmp m 0) 0x00000000ffffffff)
                                            (wrap64 (Z.shiftl hi 32))))).
    rewrite (hi_half_written _ _ Hc Hhi).
    set (m1 := MTimer.set_cmp m 0 (2 ^ 32 * hi + MTimer.cmp m 0 mod 2 ^ 32)).
    assert (Hwf1 : mtimer_wf m1) by (apply mtimer_set_cmp0_wf; assumption).
    assert (Hc1 : MTimer.cmp m1 0 = 2 ^ 32 * hi + MTimer.cmp m 0 mod 2 ^ 32)
      by (apply mtimer_cmp_set_cmp0; assumption).
    exists m1.
    change (MTimer.w32 m1 8 lo)
      with (Some (MTimer.set_cmp m1 0 (Z.lor (Z.land (MTimer.cmp m1 0) 0xffffffff00000000) lo))).
    rewrite lo_half_written by (rewrite ?Hc1; assumption).
    assert (Hlr : 0 <= MTimer.cmp m 0 mod 2 ^ 32 < 2 ^ 32) by (apply Z.mod_pos_bound; lia).
    assert (Hd1 : MTimer.cmp m1 0 / 2 ^ 32 = hi).
    { rewrite Hc1. apply (split_halves _ hi Hlr Hhi). }
    rewrite Hd1.
    eexists. split; [reflexivity|]. split; [reflexivity|].
    split.
    { rewrite !Hr8, Hc1, !Hlow. f_equal. apply (split_halves _ hi Hlr Hhi). }
    split; [apply mtimer_cmp_set_cmp0; assumption|]. split; [reflexivity|].
    apply mtimer_set_cmp0_wf; [assumption | lia].
  - destruct Hwf as (Ht & Hlen & Hall).
    change (MTimer.w32 m 0 lo)
      with (Some {| MTimer.mtime := Z.lor (Z.land (MTimer.mtime m) 0xffffffff00000000) lo;
                    MTimer.mtimecmp := MTimer.mtimecmp m |}).
    rewrite (lo_half_written _ _ Ht Hlo).
    eexists. eexists. split; [reflexivity|].
    change (MTimer.w32 ?x 4 hi)
      with (Some {| MTimer.mtime := Z.lor (Z.land (MTimer.mtime x) 0x00000000ffffffff)
                                          (wrap64 (Z.shiftl hi 32));
                    MTimer.mtimecmp := MTimer.mtimecmp x |}).
    cbn [MTimer.mtime MTimer.mtimecmp].
    destruct (halves_bounds (MTimer.mtime m) lo Ht Hlo) as [Hb3 _].
    rewrite (hi_half_written _ _ Hb3 Hhi).
    assert (Hdt : 0 <= MTimer.mtime m / 2 ^ 32 < 2 ^ 32).
    { split; [apply Z.div_pos; lia | apply Z.div_lt_upper_bound; lia]. }
    destruct (split_halves lo _ Hlo Hdt) as [Hd3 Hm3]. rewrite Hm3.
    split; [reflexivity|].
    split.
    { change (MTimer.r32 ?x 4) with (Some (wrap32 (Z.shiftr (MTimer.mtime x) 32))).
      cbn [MTimer.mtime]. rewrite !Hhigh by assumption. f_equal. exact Hd3. }
    cbn [MTimer.mtime MTimer.mtimecmp].
    split; [reflexivity|]. split; [reflexivity|].
    split.
    { change (MTimer.r32 ?x 0) with (Some (Z.land (MTimer.mtime x) 0xffffffff)).
      cbn [MTimer.mtime]. rewrite Hlow. f_equal. exact Hm. }
    split.
    { change (MTimer.r32 ?x 4) with (Some (wrap32 (Z.shiftr (MTimer.mtime x) 32))).
      cbn [MTimer.mtime]. rewrite Hhigh by lia. f_equal. exact Hd. }
    unfold mtimer_wf; cbn [MTimer.mtime MTimer.mtimecmp]. split; [lia|]. split; assumption.
Qed.

Lemma mtimer_steps (m : MTimer.t) (n : nat) :
  mtimer_wf m ->
  MTimer.mtime (Nat.iter n MTimer.step_time m) = (MTimer.mtime m + Z.of_nat n) mod 2 ^ 64
  /\ MTimer.mtimecmp (Nat.iter n MTimer.step_time m) = MTimer.mtimecmp m.
Proof.
  intros (Ht & _). induction n as [|n [IH1 IH2]].
  - cbn [Nat.iter]. rewrite Z.add_0_r, Z.mod_small by lia. split; reflexivity.
  - change (Nat.iter (S n) MTimer.step_time m)
      with (MTimer.step_time (Nat.iter n MTimer.step_time m)).
    split; [|exact IH2].
    change (MTimer.mtime (MTimer.step_time ?x)) with (wrap64 (MTimer.mtime x + 1)).
    rewrite IH1. unfold wrap64. rewrite Zplus_mod_idemp_l. f_equal. lia.
Qed.

(** X20.  The timer interrupt.  After [n] calls of [step_time] the
    counter is [mtime + n] modulo [2^64] and the comparator is unchanged,
    so hart 0's interrupt line is up exactly when the comparator is at
    most that value: with no wrap-around, from the [n]-th tick on for
    [n = mtimecmp - mtime].  In particular the timer as constructed
    (counter 0, comparator all ones) raises no interrupt for the first
    [2^64 - 1] ticks. *)
Theorem mtimer_irq_after (m : MTimer.t) (n : nat) :
  mtimer_wf m ->
  MTimer.irq_status (Nat.iter n MTimer.step_time m) 0
  = (MTimer.cmp m 0 <=? (MTimer.mtime m + Z.of_nat n) mod 2 ^ 64)
  /\ (MTimer.mtime m + Z.of_nat n < 2 ^ 64 ->
      MTimer.irq_status (Nat.iter n MTimer.step_time m) 0
      = (MTimer.cmp m 0 - MTimer.mtime m <=? Z.of_nat n))
  /\ (Z.of_nat n < 2 ^ 64 - 1 ->
      MTimer.irq_status (Nat.iter n MTimer.step_time MTimer.init) 0 = false).
Proof.
  intros Hwf. destruct (mtimer_steps m n Hwf) as [H1 H2].
  assert (Hg : MTimer.irq_status (Nat.iter n MTimer.step_time m) 0
               = (MTimer.cmp m 0 <=? (MTimer.mtime m + Z.of_nat n) mod 2 ^ 64)).
  { unfold MTimer.irq_status, MTimer.cmp. rewrite H1, H2. reflexivity. }
  split; [exact Hg|]. split.
  - intros Hn. rewrite Hg. destruct Hwf as (Ht & _).
    rewrite Z.mod_small by lia.
    destruct (Z.leb_spec (MTimer.cmp m 0) (MTimer.mtime m + Z.of_nat n));
      destruct (Z.leb_spec (MTimer.cmp m 0 - MTimer.mtime m) (Z.of_nat n)); lia.
  - intros Hn.
    assert (Hwi : mtimer_wf MTimer.init).
    { unfold mtimer_wf. split; [vm_compute; split; [discriminate | reflexivity]|].
      split; [reflexivity|]. repeat constructor; vm_compute; discriminate. }
    destruct (mtimer_steps MTimer.init n Hwi) as [H3 H4].
    unfold MTimer.irq_status. rewrite H3, H4.
    change (MTimer.mtimecmp MTimer.init !!! Z.to_nat 0) with (2 ^ 64 - 1).
    change (MTimer.mtime MTimer.init) with 0.
    rewrite Z.add_0_l, Z.mod_small by lia. apply Z.leb_gt. lia.
Qed.

(** ** mmio/uart8250.h: [UART8250] *)

(** The register accesses with the offsets compared and the projections of
    updated states reduced. *)
Ltac uart_regs :=
  unfold UART8250.w8, UART8250.r8;
  cbv beta iota zeta delta
    [UART8250.lcr UART8250.dll UART8250.dlm UART8250.ier UART8250.out UART8250.scr
     UART8250.mcr UART8250.iir apply_update constant];
  repeat match goal with
  | |- context [?a =? ?b] =>
      closed_term a; closed_term b;
      let v := eval vm_compute in (a =? b) in change (a =? b) with v
  end;
  cbn [andb negb].

Lemma uart_putc (u : UART8250.t) (ch : Z) :
  nz (Z.land (UART8250.lcr u) UART_LCR_DLAB) = false ->
  UART8250.w8 u UART_THR_OFFSET ch = Some (u {{ UART8250.out := UART8250.out u ++ [ch] }}).
Proof. intros Hd. unfold UART8250.w8. rewrite Hd. reflexivity. Qed.

(** X21.  Blocking output through the UART.  The line status register
    reads as transmitter-empty and holding-register-empty in every state,
    whatever DLAB is; with DLAB clear, the bytes stored one after another
    to the transmitter holding register are all accepted and handed to
    the output in that order, and no register changes. *)
Theorem uart_transmit (u : UART8250.t) (cs : list Z) :
  UART8250.r8 u UART_LSR_OFFSET = Some (Z.lor UART_LSR_TEMT UART_LSR_THRE)
  /\ (nz (Z.land (UART8250.lcr u) UART_LCR_DLAB) = false ->
      exists u', store_bytes u UART_THR_OFFSET cs = Some u'
        /\ UART8250.out u' = UART8250.out u ++ cs
        /\ same_uart_regs u u'
        /\ forall a, UART8250.r8 u' a = UART8250.r8 u a).
Proof.
  split.
  { unfold UART8250.r8. change (UART_LSR_OFFSET =? UART_RBR_OFFSET) with false.
    reflexivity. }
  revert u. induction cs as [|ch cs IH]; intros u Hd.
  - exists u. split; [reflexivity|]. rewrite app_nil_r.
    split; [reflexivity|]. split; [repeat split | reflexivity].
  - unfold store_bytes. cbn [fold_left].
    change (MemBase32.w8 u UART_THR_OFFSET ch) with (UART8250.w8 u UART_THR_OFFSET ch).
    rewrite (uart_putc u ch Hd).
    match goal with
    | |- context [fold_left _ cs (Some ?x)] => destruct (IH x Hd) as (u' & Hs & Ho & Hr & Hrd)
    end.
    exists u'. split; [exact Hs|]. split.
    + rewrite Ho. change (UART8250.out u ++ ch :: cs) with (UART8250.out u ++ [ch] ++ cs).
      rewrite app_assoc. reflexivity.
    + split; [exact Hr|]. intros a. rewrite Hrd. reflexivity.
Qed.

(** X22.  The register banks behind offsets 0 and 1.  After DLAB is set
    through the line control register, stores to offsets 0 and 1 reach
    the divisor latch, are read back there and produce no output; once
    DLAB is cleared again, offset 0 reads as the (empty) receive buffer
    and offset 1 is the interrupt enable register, which keeps the low
    four bits of what is stored to it; the latch keeps its value. *)
Theorem uart_register_banks (u : UART8250.t) (l1 l2 lo hi e : Z) :
  nz (Z.land l1 UART_LCR_DLAB) = true -> nz (Z.land l2 UART_LCR_DLAB) = false ->
  exists u1 u2 u3 u4 u5,
    UART8250.w8 u UART_LCR_OFFSET l1 = Some u1
    /\ UART8250.w8 u1 UART_DLL_OFFSET lo = Some u2
    /\ UART8250.w8 u2 UART_DLM_OFFSET hi = Some u3
    /\ UART8250.r8 u3 UART_DLL_OFFSET = Some lo /\ UART8250.r8 u3 UART_DLM_OFFSET = Some hi
    /\ UART8250.out u3 = UART8250.out u /\ UART8250.ier u3 = UART8250.ier u
    /\ UART8250.w8 u3 UART_LCR_OFFSET l2 = Some u4
    /\ UART8250.r8 u4 UART_RBR_OFFSET = Some 0
    /\ UART8250.r8 u4 UART_IER_OFFSET = Some (UART8250.ier u)
    /\ UART8250.w8 u4 UART_IER_OFFSET e = Some u5
    /\ UART8250.r8 u5 UART_IER_OFFSET = Some (Z.land e 0xf)
    /\ UART8250.dll u5 = lo /\ UART8250.dlm u5 = hi /\ UART8250.out u5 = UART8250.out u.
Proof.
  intros H1 H2.
  do 5 eexists.
  repeat (split; [uart_regs; rewrite ?H1, ?H2; cbn [andb negb]; reflexivity|]).
  uart_regs; reflexivity.
Qed.

(** X23.  The scratch register.  The arm of [w8] that assigns it tests
    the stored value, not the offset: whatever the state, an accepted
    store leaves the scratch register as it was or leaves 7 in it.  A
    store to [UART_SCR_OFFSET] is always accepted, and the register then
    reads 7 when 7 was stored and its old value otherwise. *)
Theorem uart_scratch_register (u : UART8250.t) :
  (forall a d u', UART8250.w8 u a d = Some u' ->
     UART8250.scr u' = UART8250.scr u \/ UART8250.scr u' = 7)
  /\ forall d, exists u', UART8250.w8 u UART_SCR_OFFSET d = Some u'
       /\ UART8250.r8 u' UART_SCR_OFFSET
          = Some (if d =? 7 then 7 else UART8250.scr u).
Proof.
  split.
  - intros a d u'. unfold UART8250.w8.
    repeat match goal with
    | |- context [if ?b then _ else _] =>
        lazymatch b with
        | context [if _ then _ else _] => fail
        | _ => destruct b eqn:?
        end
    end; intros Heq; try discriminate; injection Heq as <-; auto.
    right. cbn. apply Z.eqb_eq. assumption.
  - intros d. unfold UART8250.w8, UART8250.r8.
    change (UART_SCR_OFFSET =? UART_THR_OFFSET) with false.
    change (UART_SCR_OFFSET =? UART_DLL_OFFSET) with false.
    change (UART_SCR_OFFSET =? UART_IER_OFFSET) with false.
    change (UART_SCR_OFFSET =? UART_DLM_OFFSET) with false.
    change (UART_SCR_OFFSET =? UART_LCR_OFFSET) with false.
    change (UART_SCR_OFFSET =? UART_MCR_OFFSET) with false.
    change (UART_SCR_OFFSET <? UART_SCR_OFFSET) with false.
    change (UART_SCR_OFFSET =? UART_RBR_OFFSET) with false.
    change (UART_SCR_OFFSET =? UART_IIR_OFFSET) with false.
    change (UART_SCR_OFFSET =? UART_LSR_OFFSET) with false.
    change (UART_SCR_OFFSET =? UART_SCR_OFFSET) with true.
    cbn [andb]. change UART_SCR_OFFSET with 7.
    destruct (d =? 7) eqn:E.
    + eexists. split; [reflexivity|]. cbn. apply Z.eqb_eq in E. subst d. reflexivity.
    + eexists. split; [reflexivity|]. reflexivity.
Qed.

(** ** rv_core.cpp: multiplication, branches and immediates *)

(** [x -= (x & (1 << 31)) << 1]: the 32-bit value [x], widened, becomes the
    signed value it stands for. *)
Lemma sign_adjust x :
  0 <= x < 2 ^ 32 -> x - Z.shiftl (Z.land x (- 2 ^ (XLEN - 1))) 1 = sx_t x.
Proof.
  intros Hx. change (- 2 ^ (XLEN - 1)) with (Z.lnot (Z.ones 31)).
  change (Z.land x (Z.lnot (Z.ones 31))) with (Z.ldiff x (Z.ones 31)).
  rewrite Z.ldiff_ones_r by lia.
  rewrite !Z.shiftl_mul_pow2, Z.shiftr_div_pow2 by lia.
  unfold sx_t. destruct (Z.ltb_spec x (2 ^ 31)).
  - rewrite Z.div_small by lia. lia.
  - replace (x / 2 ^ 31) with 1; [lia|].
    apply Z.div_unique with (r := x - 2 ^ 31); lia.
Qed.

Lemma sx_t_range x : 0 <= x < 2 ^ 32 -> - 2 ^ 31 <= sx_t x < 2 ^ 31.
Proof. intros Hx. unfold sx_t. destruct (Z.ltb_spec x (2 ^ 31)); lia. Qed.

Lemma sdx_t_small p : - 2 ^ 63 <= p < 2 ^ 63 -> sdx_t p = p.
Proof. intros Hp. unfold sdx_t. rewrite Z.mod_small by lia. lia. Qed.

Lemma wrap32_sx_t_mul a b : wrap32 (sx_t a * b) = wrap32 (a * b).
Proof.
  unfold wrap32, sx_t. destruct (a <? 2 ^ 31); [reflexivity|].
  replace ((a - 2 ^ 32) * b) with (a * b + (- b) * 2 ^ 32) by lia.
  apply Z_mod_plus_full.
Qed.

Lemma mulhu_high p : 0 <= p < 2 ^ 64 -> wrap32 (Z.shiftr (sdx_t p) XLEN) = p / 2 ^ 32.
Proof.
  intros Hp. unfold XLEN. rewrite Z.shiftr_div_pow2 by lia.
  assert (Hq : 0 <= p / 2 ^ 32 < 2 ^ 32).
  { split; [apply Z.div_pos; lia | apply Z.div_lt_upper_bound; lia]. }
  unfold sdx_t, wrap32. destruct (Z_lt_le_dec p (2 ^ 63)).
  - rewrite (Z.mod_small (p + 2 ^ 63)) by lia.
    replace (p + 2 ^ 63 - 2 ^ 63) with p by lia. apply Z.mod_small. assumption.
  - replace ((p + 2 ^ 63) mod 2 ^ 64) with (p - 2 ^ 63)
      by (apply Z.mod_unique with (q := 1); lia).
    replace (p - 2 ^ 63 - 2 ^ 63) with (p + (- 2 ^ 32) * 2 ^ 32) by lia.
    rewrite Z.div_add by lia.
    replace (p / 2 ^ 32 + - 2 ^ 32) with (p / 2 ^ 32 + (-1) * 2 ^ 32) by lia.
    rewrite Z_mod_plus_full. apply Z.mod_small. assumption.
Qed.

(** X24.  The multiply instructions on 32-bit operands: MUL writes the
    low word of the product, MULH, MULHSU and MULHU the high word of the
    signed x signed, signed x unsigned and unsigned x unsigned 64-bit
    product.  (For MULHU the product is formed in [sdx_t]; where it
    exceeds the signed range the model takes the two's-complement value,
    and the high word is still the unsigned one.) *)
Theorem mul_semantics (rs1 rs2 : Z) (l : StepLocals) :
  0 <= rs1 < 2 ^ 32 -> 0 <= rs2 < 2 ^ 32 ->
  rd_wdata (RVCore.exec_OP 0 1 rs1 rs2 l) = Some ((rs1 * rs2) mod 2 ^ 32)
  /\ rd_wdata (RVCore.exec_OP 1 1 rs1 rs2 l) = Some ((sx_t rs1 * sx_t rs2 / 2 ^ 32) mod 2 ^ 32)
  /\ rd_wdata (RVCore.exec_OP 2 1 rs1 rs2 l) = Some ((sx_t rs1 * rs2 / 2 ^ 32) mod 2 ^ 32)
  /\ rd_wdata (RVCore.exec_OP 3 1 rs1 rs2 l) = Some (rs1 * rs2 / 2 ^ 32).
Proof.
  intros H1 H2.
  pose proof (sx_t_range rs1 H1) as Hs1. pose proof (sx_t_range rs2 H2) as Hs2.
  unfold RVCore.exec_OP.
  change (1 =? 0) with false. change (1 =? 32) with false. change (1 =? 1) with true.
  cbv iota.
  repeat split.
  - change (0 <? 4) with true. change (0 =? 3) with false. change (0 <? 2) with true.
    change (0 =? 0) with true. cbv beta iota zeta delta [negb]. wb_norm.
    rewrite !sign_adjust by assumption. rewrite sdx_t_small by nia.
    f_equal. rewrite wrap32_sx_t_mul, Z.mul_comm, wrap32_sx_t_mul, Z.mul_comm. reflexivity.
  - change (1 <? 4) with true. change (1 =? 3) with false. change (1 <? 2) with true.
    change (1 =? 0) with false. cbv beta iota zeta delta [negb]. wb_norm.
    rewrite !sign_adjust by assumption. rewrite sdx_t_small by nia.
    unfold XLEN. rewrite Z.shiftr_div_pow2 by lia. reflexivity.
  - change (2 <? 4) with true. change (2 =? 3) with false. change (2 <? 2) with false.
    change (2 =? 0) with false. cbv beta iota zeta delta [negb]. wb_norm.
    rewrite !sign_adjust by assumption. rewrite sdx_t_small by nia.
    unfold XLEN. rewrite Z.shiftr_div_pow2 by lia. reflexivity.
  - change (3 <? 4) with true. change (3 =? 3) with true. change (3 <? 2) with false.
    change (3 =? 0) with false. cbv beta iota zeta delta [negb]. wb_norm.
    f_equal. apply mulhu_high. nia.
Qed.

(** Evaluation of the tests on instruction fields that are numerals. *)
Ltac eval_closed :=
  repeat match goal with
  | |- context [Z.land ?a ?b] =>
      closed_term a; closed_term b;
      let v := eval vm_compute in (Z.land a b) in change (Z.land a b) with v
  | |- context [?a =? ?b] =>
      closed_term a; closed_term b;
      let v := eval vm_compute in (a =? b) in change (a =? b) with v
  | |- context [?a <? ?b] =>
      closed_term a; closed_term b;
      let v := eval vm_compute in (a <? b) in change (a <? b) with v
  | |- context [nz ?a] =>
      closed_term a;
      let v := eval vm_compute in (nz a) in change (nz a) with v
  end.

Section Branch.
Context {D : Type} `{MemBase32.t D}.

(** X25.  The conditional branches, from the instruction word.  For a
    word with the BRANCH opcode, reached with no exception pending and
    no PC written, [funct3] 0, 1, 4, 5, 6 and 7 are BEQ, BNE, BLT, BGE,
    BLTU and BGEU: the PC is written, with [pc + imm_b], exactly when the
    comparison of [rs1] with [rs2] holds, and nothing else is raised or
    written.  [funct3] 2 and 3 raise an illegal-instruction exception and
    write no PC. *)
Theorem branch_semantics (c : RVCore D) (instr : Z) (l : StepLocals) :
  exception_cause l = None -> pc_wdata l = None ->
  Z.land instr 0x7f = 0x63 ->
  let rs1 := RVCore.reg c (regnum_rs1_of instr) in
  let rs2 := RVCore.reg c (regnum_rs2_of instr) in
  let l' := snd (RVCore.exec32 c instr l) in
  let branch_if (b : bool) :=
    exception_cause l' = None
    /\ pc_wdata l' = if b then Some (add32 (pc c) (imm_b instr)) else None in
  fst (RVCore.exec32 c instr l) = c /\ rd_wdata l' = rd_wdata l
  /\ match Z.land (shr32 instr 12) 0x7 with
     | 0 => branch_if (rs1 =? rs2)
     | 1 => branch_if (negb (rs1 =? rs2))
     | 4 => branch_if (sx_t rs1 <? sx_t rs2)
     | 5 => branch_if (sx_t rs2 <=? sx_t rs1)
     | 6 => branch_if (rs1 <? rs2)
     | 7 => branch_if (rs2 <=? rs1)
     | _ => exception_cause l' = Some XCAUSE_INSTR_ILLEGAL /\ pc_wdata l' = None
     end.
Proof.
  intros He Hp Hop. cbv zeta.
  assert (Hopc : Z.land (shr32 instr 2) 0x1f = OPC_BRANCH).
  { rewrite land_shr_mask by lia.
    rewrite (land_sub_mask instr 0x7f (Z.shiftl 0x1f 2) eq_refl), Hop. reflexivity. }
  unfold RVCore.exec32. cbv zeta. rewrite Hopc.
  change (OPC_BRANCH =? OPC_OP) with false. change (OPC_BRANCH =? OPC_OP_IMM) with false.
  change (OPC_BRANCH =? OPC_BRANCH) with true. cbv iota. cbn [fst snd].
  fold (regnum_rs1_of instr). fold (regnum_rs2_of instr).
  set (rs1 := RVCore.reg c (regnum_rs1_of instr)).
  set (rs2 := RVCore.reg c (regnum_rs2_of instr)).
  destruct l as [rdw pcw exc xt rd]. cbn [exception_cause pc_wdata] in He, Hp. subst exc pcw.
  pose proof (land_mask_range (shr32 instr 12) 0x7 ltac:(lia)) as Hr.
  set (f3 := Z.land (shr32 instr 12) 0x7) in *.
  assert (Hc : f3 = 0 \/ f3 = 1 \/ f3 = 2 \/ f3 = 3 \/ f3 = 4 \/ f3 = 5 \/ f3 = 6 \/ f3 = 7)
    by lia.
  clearbody f3. unfold RVCore.exec_BRANCH, RVCore.raise.
  destruct Hc as [-> | [-> | [-> | [-> | [-> | [-> | [-> | ->]]]]]]];
    eval_closed; wb_norm; cbn [fst snd andb negb]; cbv beta iota zeta.
  - destruct (rs1 =? rs2); repeat split; reflexivity.
  - destruct (rs1 =? rs2); repeat split; reflexivity.
  - repeat split; reflexivity.
  - repeat split; reflexivity.
  - destruct (sx_t rs1 <? sx_t rs2); repeat split; reflexivity.
  - rewrite Z.leb_antisym. destruct (sx_t rs1 <? sx_t rs2); repeat split; reflexivity.
  - destruct (rs1 <? rs2); repeat split; reflexivity.
  - rewrite Z.leb_antisym. destruct (rs1 <? rs2); repeat split; reflexivity.
Qed.

End Branch.

(** *** Immediates *)

Lemma field_range x hi lo : lo <= hi -> 0 <= field x hi lo < 2 ^ (hi - lo + 1).
Proof. intros Hl. unfold field. apply Z.mod_pos_bound. apply Z.pow_pos_nonneg; lia. Qed.

(** A masked, shifted piece of a word as a multiple of one of its
    fields. *)
Lemma shifted_field x hi lo k :
  0 <= lo <= hi -> 0 <= k ->
  Z.shiftl (Z.land (Z.shiftr x lo) (Z.ones (hi - lo + 1))) k = 2 ^ k * field x hi lo.
Proof.
  intros Hlo Hk. unfold field.
  rewrite Z.shiftl_mul_pow2, Z.land_ones, Z.shiftr_div_pow2 by lia. lia.
Qed.

Lemma field_split x hi mid lo :
  0 <= lo <= mid -> mid < hi ->
  field x mid lo + 2 ^ (mid - lo + 1) * field x hi (mid + 1) = field x hi lo.
Proof.
  intros Hl Hm. unfold field.
  assert (Ha : 0 < 2 ^ lo) by (apply Z.pow_pos_nonneg; lia).
  assert (Hb : 0 < 2 ^ (mid - lo + 1)) by (apply Z.pow_pos_nonneg; lia).
  assert (Hc : 0 < 2 ^ (hi - (mid + 1) + 1)) by (apply Z.pow_pos_nonneg; lia).
  assert (Hp : 2 ^ (hi - lo + 1) = 2 ^ (mid - lo + 1) * 2 ^ (hi - (mid + 1) + 1)).
  { rewrite <- Z.pow_add_r by lia. f_equal. lia. }
  assert (Hq : 2 ^ (mid + 1) = 2 ^ lo * 2 ^ (mid - lo + 1)).
  { rewrite <- Z.pow_add_r by lia. f_equal. lia. }
  rewrite Hp, Hq. set (A := 2 ^ (mid - lo + 1)) in *.
  set (B := 2 ^ (hi - (mid + 1) + 1)) in *. set (L := 2 ^ lo) in *.
  rewrite Z.rem_mul_r by lia. rewrite Z.div_div by lia. reflexivity.
Qed.

(** A piece of [x] selected by a mask is [2^k] times the field
    [x[hi:lo]]: the goal is turned into an equation between bit
    patterns. *)
Ltac as_field x hi lo k :=
  rewrite <- (shifted_field x hi lo k) by lia;
  let n := eval vm_compute in (hi - lo + 1) in change (hi - lo + 1) with n.

Lemma sx_t_wrap32 v : - 2 ^ 31 <= v < 2 ^ 31 -> sx_t (wrap32 v) = v.
Proof.
  intros Hv. unfold sx_t, wrap32. destruct (Z_lt_le_dec v 0).
  - replace (v mod 2 ^ 32) with (v + 2 ^ 32)
      by (apply Z.mod_unique with (q := -1); lia).
    destruct (Z.ltb_spec (v + 2 ^ 32) (2 ^ 31)); lia.
  - rewrite Z.mod_small by lia. destruct (Z.ltb_spec v (2 ^ 31)); lia.
Qed.

Lemma add32_wrap_l X y : add32 (wrap32 X) y = wrap32 (X + y).
Proof. unfold add32, wrap32. apply Zplus_mod_idemp_l. Qed.

Lemma sub32_wrap_l X y : sub32 (wrap32 X) y = wrap32 (X - y).
Proof. unfold sub32, wrap32. apply Zminus_mod_idemp_l. Qed.

Lemma add32_as_wrap x y : add32 x y = wrap32 (x + y).
Proof. reflexivity. Qed.

Lemma sub32_as_wrap x y : sub32 x y = wrap32 (x - y).
Proof. reflexivity. Qed.

(** The pieces of the 32-bit immediates. *)
Lemma imm_pieces instr :
  0 <= instr < 2 ^ 32 ->
  shr32 instr 20 = field instr 30 20 + 2 ^ (30 - 20 + 1) * field instr 31 31
  /\ Z.land (shr32 instr 19) 0x1000 = 2 ^ 12 * field instr 31 31
  /\ Z.land (shr32 instr 20) 0xfe0 = 2 ^ 5 * (field instr 30 25 + 2 ^ (30 - 25 + 1) * field instr 31 31)
  /\ Z.land (shr32 instr 7) 0x1f = field instr 11 7
  /\ Z.land (shr32 instr 7) 0x1e = 2 * field instr 11 8
  /\ Z.land (shr32 instr 20) 0x7e0 = 2 ^ 5 * field instr 30 25
  /\ Z.land (shl32 instr 4) 0x800 = 2 ^ 11 * field instr 7 7
  /\ Z.land instr 0xfffff000 = 2 ^ 12 * field instr 31 12
  /\ Z.land (shr32 instr 20) 0x7fe = 2 * field instr 30 21
  /\ Z.land (shr32 instr 9) 0x800 = 2 ^ 11 * field instr 20 20
  /\ Z.land instr 0xff000 = 2 ^ 12 * field instr 19 12
  /\ Z.land (shr32 instr 11) 0x100000 = 2 ^ 20 * field instr 31 31.
Proof.
  intros Hi.
  assert (Hhi : forall n, 32 <= n -> Z.testbit instr n = false)
    by (intros n Hn; apply (testbit_above instr 32); lia).
  repeat split.
  - pose proof (field_split instr 31 30 20 ltac:(lia) ltac:(lia)) as Hs.
    change (30 + 1) with 31 in Hs. rewrite Hs.
    unfold shr32, field. rewrite Z.shiftr_div_pow2 by lia. symmetry. apply Z.mod_small.
    split; [apply Z.div_pos; lia | apply Z.div_lt_upper_bound; lia].
  - as_field instr 31 31 12.
    unfold shr32. change 0x1000 with (Z.shiftl (Z.ones 1) 12). Z.bitblast.
  - pose proof (field_split instr 31 30 25 ltac:(lia) ltac:(lia)) as Hs.
    change (30 + 1) with 31 in Hs. rewrite Hs.
    as_field instr 31 25 5.
    unfold shr32. change 0xfe0 with (Z.shiftl (Z.ones 7) 5). Z.bitblast.
  - replace (field instr 11 7) with (2 ^ 0 * field instr 11 7) by lia.
    as_field instr 11 7 0.
    unfold shr32. change 0x1f with (Z.ones 5). rewrite Z.shiftl_0_r. reflexivity.
  - change (2 * field instr 11 8) with (2 ^ 1 * field instr 11 8). as_field instr 11 8 1.
    unfold shr32. change 0x1e with (Z.shiftl (Z.ones 4) 1). Z.bitblast.
  - as_field instr 30 25 5.
    unfold shr32. change 0x7e0 with (Z.shiftl (Z.ones 6) 5). Z.bitblast.
  - as_field instr 7 7 11.
    unfold shl32, wrap32. change 0x800 with (Z.shiftl (Z.ones 1) 11). Z.bitblast.
  - as_field instr 31 12 12.
    change 0xfffff000 with (Z.shiftl (Z.ones 20) 12). Z.bitblast.
  - change (2 * field instr 30 21) with (2 ^ 1 * field instr 30 21). as_field instr 30 21 1.
    unfold shr32. change 0x7fe with (Z.shiftl (Z.ones 10) 1). Z.bitblast.
  - as_field instr 20 20 11.
    unfold shr32. change 0x800 with (Z.shiftl (Z.ones 1) 11). Z.bitblast.
  - as_field instr 19 12 12.
    change 0xff000 with (Z.shiftl (Z.ones 8) 12). Z.bitblast.
  - as_field instr 31 31 20.
    unfold shr32. change 0x100000 with (Z.shiftl (Z.ones 1) 20). Z.bitblast.
Qed.

Lemma wrap32_add_l X y : wrap32 (wrap32 X + y) = wrap32 (X + y).
Proof. unfold wrap32. apply Zplus_mod_idemp_l. Qed.

Lemma wrap32_sub_l X y : wrap32 (wrap32 X - y) = wrap32 (X - y).
Proof. unfold wrap32. apply Zminus_mod_idemp_l. Qed.

Lemma add32_wraps X Y : add32 (wrap32 X) (wrap32 Y) = wrap32 (X + Y).
Proof. unfold add32, wrap32. symmetry. apply Zplus_mod. Qed.

Lemma sub32_wrap_r x Y : sub32 x (wrap32 Y) = wrap32 (x - Y).
Proof. unfold sub32, wrap32. apply Zminus_mod_idemp_r. Qed.

Lemma neg32_wrap X : neg32 (wrap32 X) = wrap32 (- X).
Proof.
  unfold neg32, wrap32. change (- (X mod 2 ^ 32)) with (0 - X mod 2 ^ 32).
  rewrite Zminus_mod_idemp_r. reflexivity.
Qed.

Lemma shl32_mul x k : 0 <= k -> shl32 x k = wrap32 (2 ^ k * x).
Proof. intros Hk. unfold shl32. rewrite Z.shiftl_mul_pow2 by lia. f_equal. lia. Qed.

(** X26.  The immediates of the 32-bit formats, as signed numbers built
    from the fields of the instruction word: I, S, B, U and J as the ISA
    manual lays them out, bit 31 being the sign.  Hence B and J offsets
    are even, I and S immediates lie in [-2^11, 2^11), B offsets in
    [-2^12, 2^12) and J offsets in [-2^20, 2^20). *)
Theorem immediates_isa (instr : Z) :
  0 <= instr < 2 ^ 32 ->
  sx_t (imm_i instr) = field instr 30 20 - 2 ^ 11 * field instr 31 31
  /\ sx_t (imm_s instr)
     = field instr 11 7 + 2 ^ 5 * field instr 30 25 - 2 ^ 11 * field instr 31 31
  /\ sx_t (imm_b instr)
     = 2 * field instr 11 8 + 2 ^ 5 * field instr 30 25 + 2 ^ 11 * field instr 7 7
       - 2 ^ 12 * field instr 31 31
  /\ imm_u instr = 2 ^ 12 * field instr 31 12
  /\ sx_t (imm_j instr)
     = 2 * field instr 30 21 + 2 ^ 11 * field instr 20 20 + 2 ^ 12 * field instr 19 12
       - 2 ^ 20 * field instr 31 31.
Proof.
  intros Hi.
  destruct (imm_pieces instr Hi)
    as (P1 & P2 & P3 & P4 & P5 & P6 & P7 & P8 & P9 & P10 & P11 & P12).
  pose proof (field_range instr 30 20 ltac:(lia)) as R1.
  pose proof (field_range instr 31 31 ltac:(lia)) as R2.
  pose proof (field_range instr 30 25 ltac:(lia)) as R3.
  pose proof (field_range instr 11 7 ltac:(lia)) as R4.
  pose proof (field_range instr 11 8 ltac:(lia)) as R5.
  pose proof (field_range instr 7 7 ltac:(lia)) as R6.
  pose proof (field_range instr 30 21 ltac:(lia)) as R7.
  pose proof (field_range instr 20 20 ltac:(lia)) as R8.
  pose proof (field_range instr 19 12 ltac:(lia)) as R9.
  change (30 - 20 + 1) with 11 in *. change (31 - 31 + 1) with 1 in *.
  change (30 - 25 + 1) with 6 in *. change (11 - 7 + 1) with 5 in *.
  change (11 - 8 + 1) with 4 in *. change (7 - 7 + 1) with 1 in *.
  change (30 - 21 + 1) with 10 in *. change (20 - 20 + 1) with 1 in *.
  change (19 - 12 + 1) with 8 in *.
  repeat split.
  - unfold imm_i. rewrite P1, P2. unfold sub32.
    transitivity (sx_t (wrap32 (field instr 30 20 - 2 ^ 11 * field instr 31 31)));
      [f_equal; f_equal; lia | apply sx_t_wrap32; lia].
  - unfold imm_s. rewrite P3, P4, P2. unfold sub32, add32. rewrite wrap32_sub_l.
    transitivity (sx_t (wrap32 (field instr 11 7 + 2 ^ 5 * field instr 30 25
                             - 2 ^ 11 * field instr 31 31)));
      [f_equal; f_equal; lia | apply sx_t_wrap32; lia].
  - unfold imm_b. rewrite P5, P6, P7, P2. unfold sub32, add32.
    rewrite wrap32_add_l, wrap32_sub_l.
    transitivity (sx_t (wrap32 (2 * field instr 11 8 + 2 ^ 5 * field instr 30 25
                             + 2 ^ 11 * field instr 7 7 - 2 ^ 12 * field instr 31 31)));
      [f_equal; f_equal; lia | apply sx_t_wrap32; lia].
  - unfold imm_u. exact P8.
  - unfold imm_j. rewrite P9, P10, P11, P12. unfold sub32, add32.
    rewrite wrap32_add_l, wrap32_sub_l.
    transitivity (sx_t (wrap32 (2 * field instr 30 21 + 2 ^ 11 * field instr 20 20
                             + 2 ^ 12 * field instr 19 12 - 2 ^ 20 * field instr 31 31)));
      [f_equal; f_equal; lia | apply sx_t_wrap32; lia].
Qed.

(** The pieces of the compressed immediates. *)
Lemma GETBIT_field instr b : 0 <= b -> GETBIT instr b = field instr b b.
Proof.
  intros Hb. unfold GETBIT, shr32, field. replace (b - b + 1) with 1 by lia.
  rewrite Z.shiftr_div_pow2 by lia. change 1 with (Z.ones 1) at 1.
  rewrite Z.land_ones by lia. reflexivity.
Qed.

Lemma GETBITS_field instr msb lsb n :
  0 <= lsb <= msb -> n = msb - lsb + 1 ->
  BITRANGE msb lsb = Z.shiftl (Z.ones n) lsb ->
  GETBITS instr msb lsb = field instr msb lsb.
Proof.
  intros Hl Hn Hm. unfold GETBITS, shr32. rewrite Hm.
  replace (field instr msb lsb) with (2 ^ 0 * field instr msb lsb) by lia.
  rewrite <- (shifted_field instr msb lsb 0) by lia. rewrite <- Hn, Z.shiftl_0_r.
  Z.bitblast.
Qed.

(** X27.  The immediates of the compressed formats, as signed numbers
    built from the fields of the 16-bit word: CI (c.addi, c.li, c.andi),
    CJ (c.j, c.jal) and CB (c.beqz, c.bnez) as the ISA manual scatters
    their bits, bit 12 being the sign; jump and branch offsets are
    even. *)
Theorem compressed_immediates_isa (instr : Z) :
  0 <= instr < 2 ^ 32 ->
  sx_t (imm_ci instr) = field instr 6 2 - 2 ^ 5 * field instr 12 12
  /\ sx_t (imm_cj instr)
     = 2 * field instr 5 3 + 2 ^ 4 * field instr 11 11 + 2 ^ 5 * field instr 2 2
       + 2 ^ 6 * field instr 7 7 + 2 ^ 7 * field instr 6 6 + 2 ^ 8 * field instr 10 9
       + 2 ^ 10 * field instr 8 8 - 2 ^ 11 * field instr 12 12
  /\ sx_t (imm_cb instr)
     = 2 * field instr 4 3 + 2 ^ 3 * field instr 11 10 + 2 ^ 5 * field instr 2 2
       + 2 ^ 6 * field instr 6 5 - 2 ^ 8 * field instr 12 12.
Proof.
  intros Hi.
  pose proof (field_range instr 6 2 ltac:(lia)) as R1.
  pose proof (field_range instr 12 12 ltac:(lia)) as R2.
  pose proof (field_range instr 5 3 ltac:(lia)) as R3.
  pose proof (field_range instr 11 11 ltac:(lia)) as R4.
  pose proof (field_range instr 2 2 ltac:(lia)) as R5.
  pose proof (field_range instr 7 7 ltac:(lia)) as R6.
  pose proof (field_range instr 6 6 ltac:(lia)) as R7.
  pose proof (field_range instr 10 9 ltac:(lia)) as R8.
  pose proof (field_range instr 8 8 ltac:(lia)) as R9.
  pose proof (field_range instr 4 3 ltac:(lia)) as R10.
  pose proof (field_range instr 11 10 ltac:(lia)) as R11.
  pose proof (field_range instr 6 5 ltac:(lia)) as R12.
  change (6 - 2 + 1) with 5 in *. change (12 - 12 + 1) with 1 in *.
  change (5 - 3 + 1) with 3 in *. change (11 - 11 + 1) with 1 in *.
  change (2 - 2 + 1) with 1 in *. change (7 - 7 + 1) with 1 in *.
  change (6 - 6 + 1) with 1 in *. change (10 - 9 + 1) with 2 in *.
  change (8 - 8 + 1) with 1 in *. change (4 - 3 + 1) with 2 in *.
  change (11 - 10 + 1) with 2 in *. change (6 - 5 + 1) with 2 in *.
  repeat split.
  - unfold imm_ci.
    rewrite (GETBITS_field instr 6 2 5) by (reflexivity || lia).
    rewrite GETBIT_field, shl32_mul by lia. rewrite sub32_wrap_r.
    apply sx_t_wrap32. lia.
  - unfold imm_cj.
    rewrite (GETBITS_field instr 10 9 2) by (reflexivity || lia).
    rewrite (GETBITS_field instr 5 3 3) by (reflexivity || lia).
    rewrite !GETBIT_field, !shl32_mul by lia.
    rewrite neg32_wrap, !add32_wraps.
    transitivity (sx_t (wrap32 (2 * field instr 5 3 + 2 ^ 4 * field instr 11 11
       + 2 ^ 5 * field instr 2 2 + 2 ^ 6 * field instr 7 7 + 2 ^ 7 * field instr 6 6
       + 2 ^ 8 * field instr 10 9 + 2 ^ 10 * field instr 8 8
       - 2 ^ 11 * field instr 12 12)));
      [f_equal; f_equal; lia | apply sx_t_wrap32; lia].
  - unfold imm_cb.
    rewrite (GETBITS_field instr 11 10 2) by (reflexivity || lia).
    rewrite (GETBITS_field instr 6 5 2) by (reflexivity || lia).
    rewrite (GETBITS_field instr 4 3 2) by (reflexivity || lia).
    rewrite !GETBIT_field, !shl32_mul by lia.
    rewrite neg32_wrap, !add32_wraps.
    transitivity (sx_t (wrap32 (2 * field instr 4 3 + 2 ^ 3 * field instr 11 10
       + 2 ^ 5 * field instr 2 2 + 2 ^ 6 * field instr 6 5
       - 2 ^ 8 * field instr 12 12)));
      [f_equal; f_equal; lia | apply sx_t_wrap32; lia].
Qed.

(** ** IALIGN = 16 as an invariant of [step] *)

Lemma even_wrap32 x : Z.even (wrap32 x) = Z.even x.
Proof.
  unfold wrap32. rewrite <- !Z.negb_odd, <- !Z.bit0_odd.
  rewrite Z.mod_pow2_bits_low by lia. reflexivity.
Qed.

Lemma even_add32 x y : Z.even x = true -> Z.even y = true -> Z.even (add32 x y) = true.
Proof. intros Hx Hy. unfold add32. rewrite even_wrap32, Z.even_add, Hx, Hy. reflexivity. Qed.

Lemma even_sub32 x y : Z.even x = true -> Z.even y = true -> Z.even (sub32 x y) = true.
Proof. intros Hx Hy. unfold sub32. rewrite even_wrap32, Z.even_sub, Hx, Hy. reflexivity. Qed.

Lemma even_neg32 x : Z.even x = true -> Z.even (neg32 x) = true.
Proof. intros Hx. unfold neg32. rewrite even_wrap32, Z.even_opp. exact Hx. Qed.

Lemma even_land_r x m : Z.even m = true -> Z.even (Z.land x m) = true.
Proof.
  intros Hm. rewrite <- Z.negb_odd, <- Z.bit0_odd in *.
  rewrite Z.land_spec. destruct (Z.testbit m 0); [discriminate|]. rewrite andb_false_r.
  reflexivity.
Qed.

Lemma even_shl32 x k : 0 < k -> Z.even (shl32 x k) = true.
Proof.
  intros Hk. unfold shl32. rewrite even_wrap32, <- Z.negb_odd, <- Z.bit0_odd.
  rewrite Z.shiftl_spec_low by lia. reflexivity.
Qed.

Lemma even_wrap32_mul4 x : Z.even (wrap32 (4 * x)) = true.
Proof. rewrite even_wrap32, Z.even_mul. reflexivity. Qed.

Create HintDb even32.
#[local] Hint Resolve even_add32 even_sub32 even_neg32 even_land_r even_shl32
  even_wrap32_mul4 : even32.
#[local] Hint Extern 1 (Z.even _ = true) => reflexivity : even32.
#[local] Hint Extern 1 (0 < _) => lia : even32.

Lemma imm_b_even instr : Z.even (imm_b instr) = true.
Proof. unfold imm_b. auto 10 with even32. Qed.

Lemma imm_j_even instr : Z.even (imm_j instr) = true.
Proof. unfold imm_j. auto 10 with even32. Qed.

Lemma imm_cj_even instr : Z.even (imm_cj instr) = true.
Proof. unfold imm_cj. auto 20 with even32. Qed.

Lemma imm_cb_even instr : Z.even (imm_cb instr) = true.
Proof. unfold imm_cb. auto 20 with even32. Qed.

#[local] Hint Resolve imm_b_even imm_j_even imm_cj_even imm_cb_even : even32.

(** *** The CSR engine *)

Lemma trap_enter_at_priv_aligned (s : RVCSR) (cause xepc p : Z) :
  Z.even xepc = true -> epc_even s ->
  Z.even (fst (RVCSR.trap_enter_at_priv s cause xepc p)) = true
  /\ epc_even (snd (RVCSR.trap_enter_at_priv s cause xepc p)).
Proof.
  intros Hx [Hm Hs]. unfold RVCSR.trap_enter_at_priv, epc_even. cbv zeta.
  case_ifs; cbn [fst snd]; repeat split; auto with even32.
Qed.

Lemma trap_enter_exception_aligned (s : RVCSR) (cause xepc : Z) :
  Z.even xepc = true -> epc_even s ->
  Z.even (fst (RVCSR.trap_enter_exception s cause xepc)) = true
  /\ epc_even (snd (RVCSR.trap_enter_exception s cause xepc)).
Proof.
  intros Hx Hs. unfold RVCSR.trap_enter_exception. cbv zeta.
  apply trap_enter_at_priv_aligned; assumption.
Qed.

Lemma trap_check_enter_irq_aligned (s : RVCSR) (xepc : Z) :
  Z.even xepc = true -> epc_even s ->
  (forall t, fst (RVCSR.trap_check_enter_irq s xepc) = Some t -> Z.even t = true)
  /\ epc_even (snd (RVCSR.trap_check_enter_irq s xepc)).
Proof.
  intros Hx Hs. unfold RVCSR.trap_check_enter_irq. cbv zeta.
  repeat match goal with
  | |- context [if ?b then _ else _] =>
      lazymatch b with
      | context [if _ then _ else _] => fail
      | _ => destruct b
      end
  end.
  - match goal with |- context [RVCSR.trap_enter_at_priv s ?cause xepc ?p] =>
      destruct (trap_enter_at_priv_aligned s cause xepc p Hx Hs) as [Ht He];
      destruct (RVCSR.trap_enter_at_priv s cause xepc p) as [t s1] end.
    cbn [fst snd] in *. split; [|exact He]. intros t0 Heq. inversion Heq; subst. exact Ht.
  - match goal with |- context [RVCSR.trap_enter_at_priv s ?cause xepc ?p] =>
      destruct (trap_enter_at_priv_aligned s cause xepc p Hx Hs) as [Ht He];
      destruct (RVCSR.trap_enter_at_priv s cause xepc p) as [t s1] end.
    cbn [fst snd] in *. split; [|exact He]. intros t0 Heq. inversion Heq; subst. exact Ht.
  - cbn [fst snd]. split; [discriminate | exact Hs].
Qed.

Lemma trap_mret_aligned (s : RVCSR) :
  epc_even s ->
  Z.even (fst (RVCSR.trap_mret s)) = true /\ epc_even (snd (RVCSR.trap_mret s)).
Proof.
  intros [Hm Hs]. unfold RVCSR.trap_mret, epc_even. cbv zeta.
  case_ifs; cbn [fst snd]; repeat split; assumption.
Qed.

Lemma trap_sret_aligned (s : RVCSR) (pc_ : Z) :
  Z.even pc_ = true -> epc_even s ->
  Z.even (fst (RVCSR.trap_sret s pc_)) = true /\ epc_even (snd (RVCSR.trap_sret s pc_)).
Proof.
  intros Hp Hs. unfold RVCSR.trap_sret.
  destruct (nz (Z.land (xstatus s) MSTATUS_TSR) && (priv s =? PRV_S)).
  - apply trap_enter_exception_aligned; assumption.
  - destruct Hs as [Hm Hs]. unfold epc_even. cbv zeta.
    case_ifs; cbn [fst snd]; repeat split; assumption.
Qed.

Lemma write_aligned (s s' : RVCSR) (addr data op : Z) :
  RVCSR.write s addr data op = Some s' -> epc_even s -> epc_even s'.
Proof.
  unfold RVCSR.write. intros Hw [Hm Hs].
  destruct ((shl32 1 12 <=? addr) || (priv s <? GETBITS addr 9 8)
            || (GETBITS addr 11 10 =? 3)); [discriminate|].
  cbv zeta in Hw.
  match type of Hw with
  | match ?r with Some _ => _ | None => _ end = _ => destruct r as [d|]; [|discriminate]
  end.
  destruct (csr_decode addr) as [n|]; [|discriminate].
  destruct n; try discriminate;
    try (destruct (_ || _) in Hw; [|discriminate]);
    injection Hw as <-; unfold epc_even;
    cbv beta iota zeta delta [apply_update constant mepc sepc];
    split; auto with even32.
Qed.

Lemma trap_set_xtval_aligned (s : RVCSR) (v : Z) :
  epc_even s -> epc_even (RVCSR.trap_set_xtval s v).
Proof. intros Hs. unfold RVCSR.trap_set_xtval. destruct (priv s =? PRV_S); exact Hs. Qed.

Lemma step_counters_aligned (s : RVCSR) : epc_even s -> epc_even (RVCSR.step_counters s).
Proof.
  unfold epc_even. destruct (step_counters_keeps s) as (_ & -> & ->). tauto.
Qed.

Section Aligned.
Context {D : Type} `{MemBase32.t D}.

Lemma csr_frame_refl (c : RVCore D) : csr_frame c c.
Proof. reflexivity. Qed.

Lemma csr_frame_mem (c c' : RVCore D) m : csr_frame c c' -> csr_frame c (c' {{ mem := m }}).
Proof. unfold csr_frame. destruct c'. simpl. tauto. Qed.

Lemma csr_frame_lr (c c' : RVCore D) b :
  csr_frame c c' -> csr_frame c (c' {{ load_reserved := b }}).
Proof. unfold csr_frame. destruct c'. simpl. tauto. Qed.

Lemma vmap_ls_csr_frame (c : RVCore D) vaddr req :
  csr_frame c (snd (RVCore.vmap_ls c vaddr req)).
Proof.
  pose proof (vmap_ls_same_hart c vaddr req) as Hs.
  unfold same_hart in Hs. unfold csr_frame. tauto.
Qed.

#[local] Hint Resolve csr_frame_refl csr_frame_mem csr_frame_lr : exec_frame.

Lemma exec_LOAD_csr (c : RVCore D) instr funct3 rs1 l :
  csr_frame c (fst (RVCore.exec_LOAD c instr funct3 rs1 l)).
Proof. unfold RVCore.exec_LOAD. frame_cases_with vmap_ls_csr_frame. Qed.

Lemma exec_STORE_csr (c : RVCore D) instr funct3 rs1 rs2 l :
  csr_frame c (fst (RVCore.exec_STORE c instr funct3 rs1 rs2 l)).
Proof. unfold RVCore.exec_STORE, RVCore.bus_write. frame_cases_with vmap_ls_csr_frame. Qed.

Lemma exec_AMO_csr (c : RVCore D) instr rs1 rs2 l :
  csr_frame c (fst (RVCore.exec_AMO c instr rs1 rs2 l)).
Proof. unfold RVCore.exec_AMO. frame_cases_with vmap_ls_csr_frame. Qed.

Lemma c_load_csr (c : RVCore D) addr_v l : csr_frame c (fst (RVCore.c_load c addr_v l)).
Proof. unfold RVCore.c_load. frame_cases_with vmap_ls_csr_frame. Qed.

Lemma c_store_csr (c : RVCore D) addr_v data l :
  csr_frame c (fst (RVCore.c_store c addr_v data l)).
Proof. unfold RVCore.c_store, RVCore.bus_write. frame_cases_with vmap_ls_csr_frame. Qed.

(** The executors that write no PC. *)
Lemma exec_OP_pcw funct3 funct7 rs1 rs2 l :
  pc_wdata (RVCore.exec_OP funct3 funct7 rs1 rs2 l) = pc_wdata l.
Proof. unfold RVCore.exec_OP, RVCore.raise. rd_cases. Qed.

Lemma exec_OP_IMM_pcw instr funct3 funct7 regnum_rs2 rs1 l :
  pc_wdata (RVCore.exec_OP_IMM instr funct3 funct7 regnum_rs2 rs1 l) = pc_wdata l.
Proof. unfold RVCore.exec_OP_IMM, RVCore.raise. rd_cases. Qed.

Lemma exec_MISC_MEM_pcw instr l : pc_wdata (RVCore.exec_MISC_MEM instr l) = pc_wdata l.
Proof. unfold RVCore.exec_MISC_MEM, RVCore.raise. rd_cases. Qed.

Lemma exec_LOAD_pcw (c : RVCore D) instr funct3 rs1 l :
  pc_wdata (snd (RVCore.exec_LOAD c instr funct3 rs1 l)) = pc_wdata l.
Proof. unfold RVCore.exec_LOAD, RVCore.raise. rd_cases. Qed.

Lemma exec_STORE_pcw (c : RVCore D) instr funct3 rs1 rs2 l :
  pc_wdata (snd (RVCore.exec_STORE c instr funct3 rs1 rs2 l)) = pc_wdata l.
Proof. unfold RVCore.exec_STORE, RVCore.bus_write, RVCore.raise. rd_cases. Qed.

Lemma exec_AMO_pcw (c : RVCore D) instr rs1 rs2 l :
  pc_wdata (snd (RVCore.exec_AMO c instr rs1 rs2 l)) = pc_wdata l.
Proof. unfold RVCore.exec_AMO, RVCore.raise. rd_cases. Qed.

Lemma c_load_pcw (c : RVCore D) addr_v l :
  pc_wdata (snd (RVCore.c_load c addr_v l)) = pc_wdata l.
Proof. unfold RVCore.c_load, RVCore.raise. rd_cases. Qed.

Lemma c_store_pcw (c : RVCore D) addr_v data l :
  pc_wdata (snd (RVCore.c_store c addr_v data l)) = pc_wdata l.
Proof. unfold RVCore.c_store, RVCore.bus_write, RVCore.raise. rd_cases. Qed.

(** An executor that keeps the CSR state and the PC to be written. *)
Lemma aligned_out_kept (c : RVCore D) (l : StepLocals) (r : RVCore D * StepLocals) :
  csr_frame c (fst r) -> pc_wdata (snd r) = pc_wdata l ->
  epc_even (csr c) -> pcw_even l -> aligned_out r.
Proof.
  unfold csr_frame, aligned_out, pcw_even. intros -> -> He Hl. split; assumption.
Qed.

Ltac wb_norm_in Hv :=
  cbv beta iota zeta delta
    [apply_update constant rd_wdata pc_wdata exception_cause xtval_wdata regnum_rd
     has_value negb andb] in Hv.

(** The locals after a PC has been written, or with other fields
    written. *)
Ltac pcw_leaf :=
  let v := fresh "v" in
  let Hv := fresh "Hv" in
  intros v Hv; wb_norm_in Hv;
  first
    [ discriminate Hv
    | injection Hv as <-; first [ solve [auto 10 with even32] | tauto ]
    | match goal with Hl : pcw_even _ |- _ => exact (Hl _ Hv) end ].

Lemma exec_BRANCH_aligned pc_ instr funct3 rs1 rs2 l :
  Z.even pc_ = true -> pcw_even l ->
  pcw_even (RVCore.exec_BRANCH pc_ instr funct3 rs1 rs2 l).
Proof.
  intros Hp Hl. unfold RVCore.exec_BRANCH, RVCore.raise.
  split_cases_with ltac:(fail); pcw_leaf.
Qed.

Lemma exec_SYSTEM_aligned (c : RVCore D) instr funct3 regnum_rs1 rs1 l :
  Z.even (pc c) = true -> epc_even (csr c) -> pcw_even l ->
  aligned_out (RVCore.exec_SYSTEM c instr funct3 regnum_rs1 rs1 l).
Proof.
  intros Hp He Hl. unfold RVCore.exec_SYSTEM, RVCore.raise, RVCSR.get_true_priv.
  pose proof (trap_mret_aligned (csr c) He) as Hm.
  pose proof (trap_sret_aligned (csr c) (pc c) Hp He) as Hs.
  split_cases_with
    ltac:(idtac;
          match goal with
          | |- context [RVCSR.write ?s ?a ?d ?o] =>
              let Hw := fresh "Hw" in
              pose proof (fun s' => write_aligned s s' a d o) as Hw;
              destruct (RVCSR.write s a d o)
          | |- context [RVCSR.trap_mret (csr c)] =>
              destruct (RVCSR.trap_mret (csr c)); cbn [fst snd] in Hm
          | |- context [RVCSR.trap_sret (csr c) (pc c)] =>
              destruct (RVCSR.trap_sret (csr c) (pc c)); cbn [fst snd] in Hs
          end);
    unfold aligned_out; cbn [fst snd];
    (split;
     [ cbv beta iota zeta delta [apply_update constant csr];
       first [ exact He | tauto
             | match goal with Hw : forall s', Some _ = Some s' -> _ |- _ =>
                 exact (Hw _ eq_refl He) end ]
     | first [ pcw_leaf
             | intros v Hv; wb_norm_in Hv;
               injection Hv as <-; tauto ] ]).
Qed.

Lemma exec32_aligned (c : RVCore D) instr l :
  Z.even (pc c) = true -> epc_even (csr c) -> pcw_even l ->
  aligned_out (RVCore.exec32 c instr l).
Proof.
  intros Hp He Hl. unfold RVCore.exec32. cbv zeta.
  set (l0 := l {{ regnum_rd := Z.land (shr32 instr 7) 0x1f }}).
  assert (Hl0 : pcw_even l0) by exact Hl.
  assert (Hpl : pc_wdata l0 = pc_wdata l) by reflexivity.
  clearbody l0.
  case_ifs.
  - apply (aligned_out_kept c l0); cbn [fst snd]; auto using csr_frame_refl, exec_OP_pcw.
  - apply (aligned_out_kept c l0); cbn [fst snd]; auto using csr_frame_refl, exec_OP_IMM_pcw.
  - split; [exact He | apply exec_BRANCH_aligned; assumption].
  - apply (aligned_out_kept c l0); cbn [fst snd]; auto using exec_LOAD_csr, exec_LOAD_pcw.
  - apply (aligned_out_kept c l0); cbn [fst snd]; auto using exec_STORE_csr, exec_STORE_pcw.
  - apply (aligned_out_kept c l0); cbn [fst snd]; auto using exec_AMO_csr, exec_AMO_pcw.
  - apply (aligned_out_kept c l0); cbn [fst snd]; auto using csr_frame_refl, exec_MISC_MEM_pcw.
  - split; [exact He | pcw_leaf].
  - split; [exact He | pcw_leaf].
  - split; [exact He | pcw_leaf].
  - split; [exact He | pcw_leaf].
  - apply exec_SYSTEM_aligned; assumption.
  - split; [exact He | unfold RVCore.raise; pcw_leaf].
Qed.

Lemma exec_rvc0_aligned (c : RVCore D) instr l :
  epc_even (csr c) -> pcw_even l -> aligned_out (RVCore.exec_rvc0 c instr l).
Proof.
  intros He Hl. unfold RVCore.exec_rvc0. cbv zeta. case_ifs.
  - split; [exact He | unfold RVCore.raise; pcw_leaf].
  - split; [exact He | pcw_leaf].
  - match goal with |- aligned_out (RVCore.c_load c ?a ?l1) =>
      apply (aligned_out_kept c l1); cbn [fst snd]; auto using c_load_csr, c_load_pcw end.
  - apply (aligned_out_kept c l); cbn [fst snd]; auto using c_store_csr, c_store_pcw.
  - split; [exact He | unfold RVCore.raise; pcw_leaf].
Qed.

Lemma exec_rvc1_aligned (c : RVCore D) instr l :
  Z.even (pc c) = true -> pcw_even l -> pcw_even (RVCore.exec_rvc1 c instr l).
Proof.
  intros Hp Hl. unfold RVCore.exec_rvc1, RVCore.raise.
  split_cases_with ltac:(fail); pcw_leaf.
Qed.

Lemma exec_rvc2_aligned (c : RVCore D) instr l :
  epc_even (csr c) -> pcw_even l -> aligned_out (RVCore.exec_rvc2 c instr l).
Proof.
  intros He Hl. unfold RVCore.exec_rvc2. cbv zeta. case_ifs;
    try (split; [exact He | unfold RVCore.raise; pcw_leaf]).
  - match goal with |- aligned_out (RVCore.c_load c ?a ?l1) =>
      apply (aligned_out_kept c l1); cbn [fst snd]; auto using c_load_csr, c_load_pcw end.
  - apply (aligned_out_kept c l); cbn [fst snd]; auto using c_store_csr, c_store_pcw.
Qed.

Lemma execute_aligned (c : RVCore D) f :
  pc_aligned c -> aligned_out (RVCore.execute c f).
Proof.
  intros [Hp He]. unfold RVCore.execute. cbv zeta.
  assert (Hl : pcw_even RVCore.locals0) by (intros v Hv; discriminate Hv).
  case_ifs;
    first [ apply exec32_aligned; assumption
          | apply exec_rvc0_aligned; assumption
          | apply exec_rvc2_aligned; assumption
          | split; cbn [fst snd]; [exact He | apply exec_rvc1_aligned; assumption]
          | split; cbn [fst snd]; [exact He | pcw_leaf] ].
Qed.

Lemma writeback_aligned (c : RVCore D) instr l :
  pc_aligned c -> pcw_even l -> pc_aligned (RVCore.writeback c instr l).
Proof.
  intros [Hp He] Hl. unfold RVCore.writeback.
  destruct l as [rdw pcw exc xt rd]. unfold pcw_even in Hl. cbn [pc_wdata] in Hl.
  wb_norm. destruct exc as [cause|].
  - match goal with |- context [RVCSR.trap_enter_exception (csr c) ?k (pc c)] =>
      destruct (trap_enter_exception_aligned (csr c) k (pc c) Hp He) as [Ht Hs];
      destruct (RVCSR.trap_enter_exception (csr c) k (pc c)) as [t s1] end.
    cbn [fst snd] in Ht, Hs.
    split_cases_with ltac:(fail); wb_norm;
      (split;
       [ cbv beta iota zeta delta [apply_update constant pc]; exact Ht
       | cbv beta iota zeta delta [apply_update constant csr];
         auto using step_counters_aligned, trap_set_xtval_aligned ]).
  - assert (Hx : Z.even (match pcw with Some v => v | None => pc c end) = true).
    { destruct pcw; [apply Hl; reflexivity | exact Hp]. }
    match goal with |- context [RVCSR.trap_check_enter_irq (csr c) ?x] =>
      destruct (trap_check_enter_irq_aligned (csr c) x Hx He) as [Ht Hs];
      destruct (RVCSR.trap_check_enter_irq (csr c) x) as [t s1] end.
    cbn [fst snd] in Ht, Hs.
    destruct t as [t|]; wb_norm.
    + specialize (Ht t eq_refl).
      split_cases_with ltac:(fail); wb_norm;
        (split;
         [ cbv beta iota zeta delta [apply_update constant pc]; exact Ht
         | cbv beta iota zeta delta [apply_update constant csr];
           auto using step_counters_aligned ]).
    + destruct pcw as [v|];
        split_cases_with ltac:(fail); wb_norm;
        (split;
         [ cbv beta iota zeta delta [apply_update constant pc];
           first [ apply Hl; reflexivity | apply even_add32; [exact Hp | reflexivity] ]
         | cbv beta iota zeta delta [apply_update constant csr];
           auto using step_counters_aligned ]).
Qed.

(** X28.  IALIGN = 16 is an invariant of [step]: when the PC, [mepc]
    and [sepc] are even, they are even after the step, whatever the
    instruction word, the bus, the pending interrupts and the privilege.
    Every PC the step can write is a branch or jump target built from an
    even immediate, a register value with bit 0 cleared, an exception PC
    or a trap vector with its mode bits cleared; [mepc] and [sepc] take
    the PC at trap entry, or a CSR write with bit 0 masked. *)
Theorem step_keeps_pc_aligned (c : RVCore D) :
  pc_aligned c -> pc_aligned (RVCore.step c).
Proof.
  intros Ha. unfold RVCore.step.
  pose proof (fetch_same_hart c) as Hf.
  destruct (RVCore.fetch c) as [c1 f]. cbn [fst] in Hf.
  destruct Hf as (_ & Hpc & Hcsr & _).
  assert (Ha1 : pc_aligned c1).
  { unfold pc_aligned. rewrite Hpc, Hcsr. exact Ha. }
  pose proof (execute_aligned c1 f Ha1) as [He Hl].
  pose proof (execute_frame c1 f) as (_ & Hpc2 & _).
  destruct (RVCore.execute c1 f) as [c2 l]. cbn [fst snd] in *.
  apply writeback_aligned; [|exact Hl].
  split; [rewrite Hpc2; exact (proj1 Ha1) | exact He].
Qed.

End Aligned.

(** ** Privilege: the CSR file and user mode *)

Lemma csr_decode_sound addr n : csr_decode addr = Some n -> csr_addr n = addr.
Proof.
  unfold csr_decode. intros Hf. apply find_some in Hf. destruct Hf as [_ Hf].
  apply Z.eqb_eq. exact Hf.
Qed.

Lemma land_lor_other v o m :
  Z.land (Z.lor (Z.land v m) (Z.land o (not32 m))) (not32 m) = Z.land o (not32 m).
Proof.
  apply Z.bits_inj'. intros n Hn.
  rewrite !Z.land_spec, Z.lor_spec, !Z.land_spec.
  destruct (Z_lt_le_dec n 32) as [Hlt|Hge].
  - rewrite testbit_not32 by lia. destruct (Z.testbit m n), (Z.testbit v n), (Z.testbit o n);
      reflexivity.
  - assert (Hh : Z.testbit (not32 m) n = false).
    { unfold not32, wrap32. apply Z.mod_pow2_bits_high. lia. }
    rewrite Hh, !andb_false_r. reflexivity.
Qed.

(** The guard that opens [write], taken apart. *)
Lemma write_guard (s : RVCSR) (addr data op : Z) (s' : RVCSR) :
  RVCSR.write s addr data op = Some s' ->
  (priv s <? GETBITS addr 9 8) = false /\ (GETBITS addr 11 10 =? 3) = false
  /\ exists n d, csr_decode addr = Some n /\ csr_addr n = addr
     /\ match n with
        | CSR_MISA | CSR_MHARTID | CSR_MARCHID | CSR_MIMPID | CSR_MVENDORID => Some s
        | CSR_MSTATUS => Some (s {{ xstatus := Z.lor (Z.land d RVCSR.MSTATUS_MASK) (Z.land (xstatus s) (not32 RVCSR.MSTATUS_MASK)) }})
        | CSR_MIE => Some (s {{ xie := Z.lor (Z.land d RVCSR.MIE_W_MASK) (Z.land (xie s) (not32 RVCSR.MIE_W_MASK)) }})
        | CSR_MIP => Some (s {{ xip := Z.lor (Z.land d RVCSR.MIP_W_MASK) (Z.land (xip s) (not32 RVCSR.MIP_W_MASK)) }})
        | CSR_MTVEC => Some (s {{ mtvec := Z.land d 0xfffffffd }})
        | CSR_MSCRATCH => Some (s {{ mscratch := d }})
        | CSR_MEPC => Some (s {{ mepc := Z.land d 0xfffffffe }})
        | CSR_MCAUSE => Some (s {{ mcause := Z.land d 0x800000ff }})
        | CSR_MTVAL => Some (s {{ mtval := d }})
        | CSR_MEDELEG => Some (s {{ medeleg := d }})
        | CSR_MIDELEG => Some (s {{ mideleg := d }})
        | CSR_MCOUNTEREN => Some (s {{ mcounteren := Z.land d 0x7 }})
        | CSR_MCYCLE => Some (s {{ mcycle := d }})
        | CSR_MCYCLEH => Some (s {{ mcycleh := d }})
        | CSR_MINSTRET => Some (s {{ minstret := d }})
        | CSR_MINSTRETH => Some (s {{ minstreth := d }})
        | CSR_SSTATUS => Some (s {{ xstatus := Z.lor (Z.land d RVCSR.SSTATUS_MASK) (Z.land (xstatus s) (not32 RVCSR.SSTATUS_MASK)) }})
        | CSR_SIE => Some (s {{ xie := Z.lor (Z.land d RVCSR.SIP_MASK) (Z.land (xie s) (not32 RVCSR.SIP_MASK)) }})
        | CSR_SIP => Some (s {{ xip := Z.lor (Z.land d (Z.land RVCSR.SIP_MASK (mideleg s))) (Z.land (xip s) (not32 (Z.land RVCSR.SIP_MASK (mideleg s)))) }})
        | CSR_STVEC => Some (s {{ stvec := Z.land d 0xfffffffd }})
        | CSR_SCOUNTEREN => Some (s {{ scounteren := Z.land d 0x7 }})
        | CSR_SSCRATCH => Some (s {{ sscratch := d }})
        | CSR_SEPC => Some (s {{ sepc := Z.land d 0xfffffffe }})
        | CSR_SCAUSE => Some (s {{ scause := Z.land d 0x800000ff }})
        | CSR_STVAL => Some (s {{ stval := d }})
        | CSR_SATP => Some (s {{ satp := Z.land d (not32 SATP32_ASID) }})
        | _ => None
        end = Some s'.
Proof.
  unfold RVCSR.write. intros Hw.
  destruct (shl32 1 12 <=? addr); [discriminate|].
  destruct (priv s <? GETBITS addr 9 8); [discriminate|].
  destruct (GETBITS addr 11 10 =? 3); [discriminate|].
  cbn [orb] in Hw. cbv zeta in Hw.
  match type of Hw with
  | match ?r with Some _ => _ | None => _ end = _ => destruct r as [d|]; [|discriminate]
  end.
  destruct (csr_decode addr) as [n|] eqn:E; [|discriminate].
  split; [reflexivity|]. split; [reflexivity|].
  exists n, d. split; [reflexivity|]. split; [exact (csr_decode_sound _ _ E)|].
  destruct n; try exact Hw; try discriminate.
  destruct (_ || _) in Hw; [exact Hw | discriminate].
Qed.

Lemma write_refused_U (s : RVCSR) (addr data op : Z) :
  priv s = PRV_U -> RVCSR.write s addr data op = None.
Proof.
  intros Hp. destruct (RVCSR.write s addr data op) as [s'|] eqn:Hw; [|reflexivity].
  exfalso. destruct (write_guard _ _ _ _ _ Hw) as (G2 & G3 & n & d & _ & Ha & _).
  rewrite Hp, <- Ha in G2. rewrite <- Ha in G3.
  destruct n; first [ vm_compute in G2; discriminate | vm_compute in G3; discriminate ].
Qed.

(** X29.  Privilege separation in the CSR file.  In U-mode no CSR write
    is accepted, and the only reads that are accepted are those of the
    cycle and instret counters, each under its enable bit in both
    [mcounteren] and [scounteren].  In S-mode an accepted write leaves the
    privilege, every machine-level register and the bits of [xstatus],
    [xie] and [xip] outside the supervisor views unchanged. *)
Theorem csr_privilege (s : RVCSR) (addr data op : Z) :
  (priv s = PRV_U ->
     RVCSR.write s addr data op = None
     /\ forall v, RVCSR.read s addr = Some v ->
          (In (csr_decode addr) [Some CSR_CYCLE; Some CSR_CYCLEH]
           /\ nz (Z.land (mcounteren s) 0x1) = true /\ nz (Z.land (scounteren s) 0x1) = true)
          \/ (In (csr_decode addr) [Some CSR_INSTRET; Some CSR_INSTRETH]
           /\ nz (Z.land (mcounteren s) 0x4) = true /\ nz (Z.land (scounteren s) 0x4) = true))
  /\ (priv s = PRV_S ->
      forall s', RVCSR.write s addr data op = Some s' -> machine_state_kept s s').
Proof.
  split.
  - intros Hp. split.
    + apply write_refused_U. exact Hp.
    + intros v. unfold RVCSR.read. rewrite Hp.
      destruct (shl32 1 12 <=? addr); [discriminate|].
      destruct (PRV_U <? GETBITS addr 9 8) eqn:G2; [discriminate|].
      cbn [orb]. cbv zeta.
      destruct (csr_decode addr) as [n|] eqn:E; [|discriminate].
      pose proof (csr_decode_sound _ _ E) as Ha. rewrite <- Ha in G2.
      change (PRV_M <=? PRV_U) with false. change (PRV_S <=? PRV_U) with false.
      cbn [orb].
      destruct n; try (vm_compute in G2; discriminate);
        destruct (nz (Z.land (mcounteren s) _)), (nz (Z.land (scounteren s) _));
        cbn [andb]; try discriminate; intros _;
        first [ left; split; [cbn; tauto | split; reflexivity]
              | right; split; [cbn; tauto | split; reflexivity] ].
  - intros Hp s' Hw.
    destruct (write_guard _ _ _ _ _ Hw) as (G2 & G3 & n & d & _ & Ha & Hs).
    rewrite Hp, <- Ha in G2. rewrite <- Ha in G3.
    destruct n; try (vm_compute in G2; discriminate); try (vm_compute in G3; discriminate);
      injection Hs as <-; unfold machine_state_kept;
      cbv beta iota zeta delta
        [apply_update constant priv mtvec mtval mscratch mepc mcause medeleg mideleg
         mcounteren mcycle mcycleh minstret minstreth xstatus xie xip];
      repeat split; try reflexivity; apply land_lor_other.
Qed.

Lemma step_counters_status (s : RVCSR) :
  xstatus (RVCSR.step_counters s) = xstatus s.
Proof. destruct s. reflexivity. Qed.

Lemma entered_from_U_counters (s : RVCSR) :
  entered_from_U s -> entered_from_U (RVCSR.step_counters s).
Proof.
  unfold entered_from_U. rewrite step_counters_status.
  destruct (step_counters_keeps s) as (-> & _). tauto.
Qed.

Lemma entered_from_U_xtval (s : RVCSR) (v : Z) :
  entered_from_U s -> entered_from_U (RVCSR.trap_set_xtval s v).
Proof.
  unfold RVCSR.trap_set_xtval. destruct (priv s =? PRV_S); destruct s; exact (fun x => x).
Qed.

Lemma trap_entry_from_U (s : RVCSR) (cause xepc p : Z) :
  priv s = PRV_U -> p = PRV_M \/ p = PRV_S ->
  entered_from_U (snd (RVCSR.trap_enter_at_priv s cause xepc p)).
Proof.
  intros Hp [-> | ->].
  - left. split.
    + exact (proj1 (trap_enter_at_priv_M s cause xepc)).
    + rewrite trap_enter_at_priv_M_MPP by (left; exact Hp). exact Hp.
  - right. split.
    + exact (proj1 (trap_enter_at_priv_S s cause xepc)).
    + rewrite (proj1 (trap_enter_at_priv_S_SPP s cause xepc (or_introl Hp))). exact Hp.
Qed.

Lemma trap_enter_exception_from_U (s : RVCSR) (cause xepc : Z) :
  priv s = PRV_U -> entered_from_U (snd (RVCSR.trap_enter_exception s cause xepc)).
Proof.
  intros Hp. unfold RVCSR.trap_enter_exception. cbv zeta. rewrite Hp.
  apply trap_entry_from_U; [exact Hp|].
  destruct (nz (Z.land (medeleg s) (shl32 1 cause))); [right | left]; reflexivity.
Qed.

Lemma trap_check_enter_irq_from_U (s : RVCSR) (xepc : Z) :
  priv s = PRV_U ->
  match RVCSR.trap_check_enter_irq s xepc with
  | (Some _, s1) => entered_from_U s1
  | (None, s1) => s1 = s
  end.
Proof.
  intros Hp. unfold RVCSR.trap_check_enter_irq. cbv zeta.
  repeat match goal with
  | |- context [if ?b then _ else _] =>
      lazymatch b with
      | context [if _ then _ else _] => fail
      | _ => destruct b
      end
  end.
  - match goal with |- context [RVCSR.trap_enter_at_priv s ?k xepc ?p] =>
      pose proof (trap_entry_from_U s k xepc p Hp (or_introl eq_refl)) as He;
      destruct (RVCSR.trap_enter_at_priv s k xepc p) end. exact He.
  - match goal with |- context [RVCSR.trap_enter_at_priv s ?k xepc ?p] =>
      pose proof (trap_entry_from_U s k xepc p Hp (or_intror eq_refl)) as He;
      destruct (RVCSR.trap_enter_at_priv s k xepc p) end. exact He.
  - reflexivity.
Qed.

Section UserMode.
Context {D : Type} `{MemBase32.t D}.

Lemma exec_SYSTEM_csr_U (c : RVCore D) instr funct3 regnum_rs1 rs1 l :
  priv (csr c) = PRV_U ->
  csr_frame c (fst (RVCore.exec_SYSTEM c instr funct3 regnum_rs1 rs1 l)).
Proof.
  intros Hp. unfold RVCore.exec_SYSTEM, RVCSR.get_true_priv. rewrite Hp.
  change (PRV_U =? PRV_M) with false. change (PRV_S <=? PRV_U) with false.
  cbv iota.
  split_cases_with
    ltac:(idtac;
          match goal with
          | |- context [RVCSR.write (csr c) ?a ?d ?o] =>
              rewrite (write_refused_U (csr c) a d o Hp)
          end);
    reflexivity.
Qed.

Lemma execute_csr_U (c : RVCore D) f :
  priv (csr c) = PRV_U -> csr_frame c (fst (RVCore.execute c f)).
Proof.
  intros Hp. unfold RVCore.execute, RVCore.exec32, RVCore.exec_rvc0, RVCore.exec_rvc2.
  cbv zeta.
  pose proof exec_LOAD_csr. pose proof exec_STORE_csr. pose proof exec_AMO_csr.
  pose proof c_load_csr. pose proof c_store_csr.
  case_ifs; cbn [fst]; first [ reflexivity | apply exec_SYSTEM_csr_U; exact Hp | auto ].
Qed.

Lemma writeback_from_U (c : RVCore D) instr l :
  priv (csr c) = PRV_U ->
  csr (RVCore.writeback c instr l) = RVCSR.step_counters (csr c)
  \/ entered_from_U (csr (RVCore.writeback c instr l)).
Proof.
  intros Hp. unfold RVCore.writeback.
  destruct l as [rdw pcw exc xt rd]. wb_norm. destruct exc as [cause|].
  - right.
    match goal with |- context [RVCSR.trap_enter_exception (csr c) ?k (pc c)] =>
      pose proof (trap_enter_exception_from_U (csr c) k (pc c) Hp) as He;
      destruct (RVCSR.trap_enter_exception (csr c) k (pc c)) as [t s1] end.
    cbn [snd] in He.
    split_cases_with ltac:(fail); wb_norm;
      cbv beta iota zeta delta [apply_update constant csr];
      auto using entered_from_U_counters, entered_from_U_xtval.
  - match goal with |- context [RVCSR.trap_check_enter_irq (csr c) ?x] =>
      pose proof (trap_check_enter_irq_from_U (csr c) x Hp) as He;
      destruct (RVCSR.trap_check_enter_irq (csr c) x) as [t s1] end.
    destruct t as [t|]; [right | left; subst s1];
      split_cases_with ltac:(fail); wb_norm;
      cbv beta iota zeta delta [apply_update constant csr];
      auto using entered_from_U_counters.
Qed.

(** X30.  User mode is confined.  A step that starts in U-mode either
    stays in U-mode, and then the CSR state is the one before the step
    with the counters advanced and nothing else changed; or it has taken
    a trap, and then the hart is in M with MPP = U or in S with SPP = U.
    No instruction word, bus contents or register values let user code
    write a CSR or raise its privilege by other means. *)
Theorem user_mode_confinement (c : RVCore D) :
  priv (csr c) = PRV_U ->
  (priv (csr (RVCore.step c)) = PRV_U
   /\ csr (RVCore.step c) = RVCSR.step_counters (csr c))
  \/ entered_from_U (csr (RVCore.step c)).
Proof.
  intros Hp. unfold RVCore.step.
  pose proof (fetch_same_hart c) as Hf.
  destruct (RVCore.fetch c) as [c1 f]. cbn [fst] in Hf.
  destruct Hf as (_ & _ & Hcsr & _).
  assert (Hp1 : priv (csr c1) = PRV_U) by (rewrite Hcsr; exact Hp).
  pose proof (execute_csr_U c1 f Hp1) as He. unfold csr_frame in He.
  destruct (RVCore.execute c1 f) as [c2 l]. cbn [fst] in He.
  assert (Hp2 : priv (csr c2) = PRV_U) by (rewrite He; exact Hp1).
  destruct (writeback_from_U c2 (RVCore.instr_of f) l Hp2) as [Hw | Hw].
  - left. rewrite Hw, He, Hcsr. split; [|reflexivity].
    destruct (step_counters_keeps (csr c)) as (-> & _). exact Hp.
  - right. exact Hw.
Qed.

End UserMode.

(** ** The theorems of this part at concrete inputs *)

(** A closed comparison, equation or range, by evaluation. *)
Ltac by_eval :=
  vm_compute; first [ reflexivity | discriminate | split; [discriminate | reflexivity] ].

(** [flat_w32_r32] on [flat16]: the word stored at offset 8 is read back
    and the word at offset 4 is still there. *)
Lemma flat_w32_r32_witness :
  FlatMem32.r32 (FlatMem32.set_word flat16 2 0xdeadbeef) 8 = Some 0xdeadbeef
  /\ FlatMem32.r32 (FlatMem32.set_word flat16 2 0xdeadbeef) 4 = FlatMem32.r32 flat16 4.
Proof.
  assert (Hwf : flat_wf flat16) by (unfold flat_wf; vm_compute; repeat split; discriminate).
  destruct (flat_w32_r32 flat16 (FlatMem32.set_word flat16 2 0xdeadbeef) 8 0xdeadbeef
              Hwf ltac:(lia) eq_refl) as (_ & Hr & Ho).
  split; [exact Hr | apply Ho; lia].
Defined.

(** [flat_w8_r8] on [flat16]: the byte [0xab] stored at offset 5. *)
Lemma flat_w8_r8_witness :
  exists m', FlatMem32.w8 flat16 5 0xab = Some m'
     /\ FlatMem32.r8 m' 5 = Some 0xab /\ FlatMem32.r8 m' 4 = Some 0x44.
Proof.
  assert (Hwf : flat_wf flat16) by (unfold flat_wf; vm_compute; repeat split; discriminate).
  destruct (FlatMem32.w8 flat16 5 0xab) as [m'|] eqn:Hw; [|vm_compute in Hw; discriminate].
  destruct (flat_w8_r8 flat16 m' 5 0xab Hwf ltac:(lia) ltac:(lia) Hw) as (_ & Hr & Ho).
  exists m'. split; [reflexivity|]. split; [exact Hr|].
  rewrite (Ho 4) by lia. reflexivity.
Defined.

(** [flat_little_endian] on [flat16]: byte 1 of the word [0x11223344]. *)
Lemma flat_little_endian_witness : FlatMem32.r8 flat16 (4 + 1) = Some 0x33.
Proof.
  apply (flat_little_endian flat16 4 0x11223344 1); [lia | reflexivity | lia].
Defined.

(** [map_addr_first_match] on [two_regions]: [0x1090] lies in both
    regions and is served by the first. *)
Lemma map_addr_first_match_witness :
  match MemMap32.map_addr two_regions 0x1090 with
  | (o, Some (i, d)) =>
      (exists b s, two_regions !! i = Some (b, s, d) /\ region_holds b s 0x1090 /\ o = 0x1090 - b)
      /\ forall j b' s' d', (j < i)%nat -> two_regions !! j = Some (b', s', d') ->
                            ~ region_holds b' s' 0x1090
  | (o, None) =>
      o = 0x1090
      /\ forall j b' s' d', two_regions !! j = Some (b', s', d') -> ~ region_holds b' s' 0x1090
  end.
Proof.
  apply (map_addr_first_match two_regions 0x1090); [|lia].
  unfold memmap_wf, two_regions, MemMap32.add. cbn [app]. repeat constructor; cbn; lia.
Defined.

(** [memmap_write_routed] on [two_regions]: a word stored at [0x1004]. *)
Lemma memmap_write_routed_witness :
  exists mm' o i d d',
    MemMap32.wr MemBase32.w32 two_regions 0x1004 7 = Some mm'
    /\ MemMap32.map_addr two_regions 0x1004 = (o, Some (i, d))
    /\ MemBase32.w32 d o 7 = Some d'
    /\ MemMap32.rd MemBase32.r32 mm' 0x1004 = MemBase32.r32 d' o.
Proof.
  destruct (MemMap32.wr MemBase32.w32 two_regions 0x1004 7) as [mm'|] eqn:Hw;
    [|vm_compute in Hw; discriminate].
  destruct (memmap_write_routed MemBase32.r32 MemBase32.w32 two_regions mm' 0x1004 7 Hw)
    as (o & i & d & d' & Hm & Hg & _ & Hr & _).
  exists mm', o, i, d, d'. repeat split; assumption.
Defined.

(** [ram_window_w32] on [ram_hart]: a word stored inside the window. *)
Lemma ram_window_w32_witness :
  exists c', RVCore.w32 ram_hart (RAM_BASE + 8) 5 = Some c'
     /\ mem c' = mem ram_hart /\ RVCore.r32 c' (RAM_BASE + 8) = Some 5.
Proof.
  assert (Hwf : ram_wf ram_hart).
  { apply init_ram_wf; by_eval. }
  destruct (ram_window_w32 ram_hart (RAM_BASE + 8) 5 Hwf) as [Hin _].
  { by_eval. }
  destruct (Hin eq_refl) as (c' & Hw & Hm & _ & Hr).
  exists c'. split; [exact Hw|]. split; [exact Hm|].
  rewrite Hr by by_eval. reflexivity.
Defined.

(** [mtimer_halves] on the timer as constructed: the comparator set to
    [2^32 * 2 + 1] through its halves. *)
Lemma mtimer_halves_witness :
  exists m1 m2,
    MTimer.w32 MTimer.init 8 1 = Some m1 /\ MTimer.w32 m1 12 2 = Some m2
    /\ MTimer.cmp m2 0 = 2 ^ 32 * 2 + 1.
Proof.
  assert (Hwf : mtimer_wf MTimer.init).
  { unfold mtimer_wf. split; [vm_compute; split; [discriminate | reflexivity]|].
    split; [reflexivity|]. repeat constructor; vm_compute; discriminate. }
  destruct (mtimer_halves MTimer.init 1 2 Hwf ltac:(lia) ltac:(lia))
    as [(m1 & m2 & H1 & H2 & _ & Hc & _) _].
  exists m1, m2. repeat split; assumption.
Defined.

(** [mtimer_irq_after] on a timer whose comparator is 3: the interrupt
    line after two and after three ticks. *)
Lemma mtimer_irq_after_witness :
  MTimer.irq_status (Nat.iter 2 MTimer.step_time (MTimer.mk 0 [3])) 0 = false
  /\ MTimer.irq_status (Nat.iter 3 MTimer.step_time (MTimer.mk 0 [3])) 0 = true.
Proof.
  assert (Hwf : mtimer_wf (MTimer.mk 0 [3])).
  { unfold mtimer_wf. split; [vm_compute; split; [discriminate | reflexivity]|].
    split; [reflexivity|]. repeat constructor; vm_compute; discriminate. }
  split.
  - rewrite (proj1 (mtimer_irq_after (MTimer.mk 0 [3]) 2 Hwf)). reflexivity.
  - rewrite (proj1 (mtimer_irq_after (MTimer.mk 0 [3]) 3 Hwf)). reflexivity.
Defined.

(** [uart_transmit] on [uart0]: two characters. *)
Lemma uart_transmit_witness :
  exists u', store_bytes uart0 UART_THR_OFFSET [72; 105] = Some u'
     /\ UART8250.out u' = [72; 105].
Proof.
  destruct (proj2 (uart_transmit uart0 [72; 105]) eq_refl) as (u' & Hs & Ho & _).
  exists u'. split; [exact Hs | exact Ho].
Defined.

(** [uart_register_banks] on [uart0]: divisor [0x0201], then 8N1. *)
Lemma uart_register_banks_witness :
  exists u1 u2 u3,
    UART8250.w8 uart0 UART_LCR_OFFSET 0x80 = Some u1
    /\ UART8250.w8 u1 UART_DLL_OFFSET 1 = Some u2
    /\ UART8250.w8 u2 UART_DLM_OFFSET 2 = Some u3
    /\ UART8250.r8 u3 UART_DLL_OFFSET = Some 1 /\ UART8250.r8 u3 UART_DLM_OFFSET = Some 2
    /\ UART8250.out u3 = [].
Proof.
  destruct (uart_register_banks uart0 0x80 3 1 2 0xff eq_refl eq_refl)
    as (u1 & u2 & u3 & u4 & u5 & H1 & H2 & H3 & H4 & H5 & H6 & _).
  exists u1, u2, u3. repeat split; assumption.
Defined.

(** [uart_scratch_register] on [uart0]: a store of 0x55 to the scratch
    register is lost. *)
Lemma uart_scratch_register_witness :
  exists u', UART8250.w8 uart0 UART_SCR_OFFSET 0x55 = Some u'
     /\ UART8250.r8 u' UART_SCR_OFFSET = Some 0.
Proof.
  destruct (uart_scratch_register uart0) as [_ Hs].
  destruct (Hs 0x55) as (u' & Hw & Hr). exists u'. split; [exact Hw | exact Hr].
Defined.

(** [mul_semantics] at [0xffffffff * 2]: the four products. *)
Lemma mul_semantics_witness :
  rd_wdata (RVCore.exec_OP 0 1 0xffffffff 2 RVCore.locals0) = Some 0xfffffffe
  /\ rd_wdata (RVCore.exec_OP 1 1 0xffffffff 2 RVCore.locals0) = Some 0xffffffff
  /\ rd_wdata (RVCore.exec_OP 2 1 0xffffffff 2 RVCore.locals0) = Some 0xffffffff
  /\ rd_wdata (RVCore.exec_OP 3 1 0xffffffff 2 RVCore.locals0) = Some 1.
Proof.
  exact (mul_semantics 0xffffffff 2 RVCore.locals0 ltac:(lia) ltac:(lia)).
Defined.

(** [branch_semantics] on [scenario1] for [beq x0, x0, +8]: taken. *)
Lemma branch_semantics_witness :
  pc_wdata (snd (RVCore.exec32 scenario1 BEQ_x0_x0_8 RVCore.locals0))
  = Some (add32 (pc scenario1) (imm_b BEQ_x0_x0_8)).
Proof.
  destruct (branch_semantics scenario1 BEQ_x0_x0_8 RVCore.locals0 eq_refl eq_refl eq_refl)
    as (_ & _ & Hb).
  change (Z.land (shr32 BEQ_x0_x0_8 12) 0x7) with 0 in Hb. cbv iota beta in Hb.
  exact (proj2 Hb).
Defined.

(** [immediates_isa] at [addi x1, x0, -1]: the I-immediate is -1. *)
Lemma immediates_isa_witness : sx_t (imm_i ADDI_x1_x0_m1) = -1.
Proof.
  rewrite (proj1 (immediates_isa ADDI_x1_x0_m1 ltac:(by_eval))).
  reflexivity.
Defined.

(** [compressed_immediates_isa] at [c.j +0]: the offset is 0. *)
Lemma compressed_immediates_isa_witness : sx_t (imm_cj C_J_0) = 0.
Proof.
  destruct (compressed_immediates_isa C_J_0
              ltac:(by_eval)) as (_ & Hj & _).
  rewrite Hj. reflexivity.
Defined.

(** [step_keeps_pc_aligned] on [scenario1]. *)
Lemma step_keeps_pc_aligned_witness : pc_aligned (RVCore.step scenario1).
Proof.
  apply (step_keeps_pc_aligned scenario1). repeat split; reflexivity.
Defined.

(** [csr_privilege] after reset: [mstatus] cannot be written from
    U-mode, and a write of [sstatus] from S-mode keeps the machine
    state. *)
Lemma csr_privilege_witness :
  RVCSR.write csr_user (csr_addr CSR_MSTATUS) 0xffffffff WRITE = None
  /\ forall s', RVCSR.write csr_supervisor (csr_addr CSR_SSTATUS) 0xffffffff WRITE = Some s' ->
       machine_state_kept csr_supervisor s'.
Proof.
  split.
  - exact (proj1 (proj1 (csr_privilege csr_user (csr_addr CSR_MSTATUS) 0xffffffff WRITE)
                        eq_refl)).
  - exact (proj2 (csr_privilege csr_supervisor (csr_addr CSR_SSTATUS) 0xffffffff WRITE)
                 eq_refl).
Defined.

(** [user_mode_confinement] on [scenario5], the [ecall] from U-mode. *)
Lemma user_mode_confinement_witness :
  (priv (csr (RVCore.step scenario5)) = PRV_U
   /\ csr (RVCore.step scenario5) = RVCSR.step_counters (csr scenario5))
  \/ entered_from_U (csr (RVCore.step scenario5)).
Proof.
  apply (user_mode_confinement scenario5). reflexivity.
Defined.

(** ** The class invariant of [xip] over a step *)

Section XipInvariant.
Context {D : Type} `{MemBase32.t D}.

Lemma exec_SYSTEM_xip (c : RVCore D) instr funct3 regnum_rs1 rs1 l :
  xip_software_bits (csr c) ->
  xip_software_bits (csr (fst (RVCore.exec_SYSTEM c instr funct3 regnum_rs1 rs1 l))).
Proof.
  intros Hx. unfold RVCore.exec_SYSTEM, RVCore.raise, RVCSR.get_true_priv.
  destruct (xip_software_bits_kept (csr c) 0 (pc c) 0 0 false) as (_ & Hk).
  destruct (Hk Hx) as (_ & _ & _ & _ & Hm & Hs & _).
  split_cases_with
    ltac:(idtac;
          match goal with
          | |- context [RVCSR.write ?s ?a ?d ?o] =>
              let Hw := fresh "Hw" in
              pose proof (fun s' => xip_software_bits_write s s' a d o) as Hw;
              destruct (RVCSR.write s a d o)
          | |- context [RVCSR.trap_mret (csr c)] =>
              destruct (RVCSR.trap_mret (csr c)); cbn [snd] in Hm
          | |- context [RVCSR.trap_sret (csr c) (pc c)] =>
              destruct (RVCSR.trap_sret (csr c) (pc c)); cbn [snd] in Hs
          end);
    cbn [fst]; cbv beta iota zeta delta [apply_update constant csr];
    first [ exact Hx | exact Hm | exact Hs
          | match goal with Hw : forall s', Some _ = Some s' -> _ |- _ =>
              exact (Hw _ eq_refl Hx) end ].
Qed.

Lemma execute_xip (c : RVCore D) f :
  xip_software_bits (csr c) -> xip_software_bits (csr (fst (RVCore.execute c f))).
Proof.
  intros Hx. unfold RVCore.execute, RVCore.exec32, RVCore.exec_rvc0, RVCore.exec_rvc2.
  cbv zeta.
  pose proof exec_LOAD_csr as H1. pose proof exec_STORE_csr as H2.
  pose proof exec_AMO_csr as H3. pose proof c_load_csr as H4. pose proof c_store_csr as H5.
  unfold csr_frame in H1, H2, H3, H4, H5.
  case_ifs; cbn [fst];
    first [ exact Hx | apply exec_SYSTEM_xip; exact Hx
          | rewrite H1; exact Hx | rewrite H2; exact Hx | rewrite H3; exact Hx
          | rewrite H4; exact Hx | rewrite H5; exact Hx ].
Qed.

Lemma writeback_xip (c : RVCore D) instr l :
  xip_software_bits (csr c) -> xip_software_bits (csr (RVCore.writeback c instr l)).
Proof.
  intros Hx. unfold RVCore.writeback.
  destruct l as [rdw pcw exc xt rd]. wb_norm.
  assert (Hc : forall s, xip_software_bits s -> xip_software_bits (RVCSR.step_counters s)).
  { intros s Hs. destruct s; exact Hs. }
  assert (Hv : forall s v, xip_software_bits s -> xip_software_bits (RVCSR.trap_set_xtval s v)).
  { intros s v Hs. unfold RVCSR.trap_set_xtval. destruct (priv s =? PRV_S); destruct s; exact Hs. }
  destruct exc as [cause|].
  - match goal with |- context [RVCSR.trap_enter_exception (csr c) ?k (pc c)] =>
      destruct (xip_software_bits_kept (csr c) k (pc c) 0 0 false) as (_ & Hk);
      destruct (Hk Hx) as (_ & _ & He & _);
      destruct (RVCSR.trap_enter_exception (csr c) k (pc c)) as [t s1] end.
    cbn [snd] in He.
    split_cases_with ltac:(fail); wb_norm;
      cbv beta iota zeta delta [apply_update constant csr]; auto.
  - match goal with |- context [RVCSR.trap_check_enter_irq (csr c) ?x] =>
      destruct (xip_software_bits_kept (csr c) 0 x 0 0 false) as (_ & Hk);
      destruct (Hk Hx) as (_ & _ & _ & He & _);
      destruct (RVCSR.trap_check_enter_irq (csr c) x) as [t s1] end.
    cbn [snd] in He.
    split_cases_with ltac:(fail); wb_norm;
      cbv beta iota zeta delta [apply_update constant csr]; auto.
Qed.

(** Every state a hart reaches keeps the invariant. *)
Lemma step_keeps_xip_software_bits (c : RVCore D) :
  xip_software_bits (csr c) -> xip_software_bits (csr (RVCore.step c)).
Proof.
  intros Hx. unfold RVCore.step.
  pose proof (fetch_same_hart c) as Hf.
  destruct (RVCore.fetch c) as [c1 f]. cbn [fst] in Hf.
  destruct Hf as (_ & _ & Hcsr & _).
  assert (Hx1 : xip_software_bits (csr c1)) by (rewrite Hcsr; exact Hx).
  pose proof (execute_xip c1 f Hx1) as He.
  destruct (RVCore.execute c1 f) as [c2 l]. cbn [fst] in He.
  apply writeback_xip. exact He.
Qed.

End XipInvariant.
